(** * The procedural particle engine of 3d-solarsystem

    A shallow embedding of [src/js/components/ParticleSystem.js] and of
    [ParticleShaderMaterial] (the shader material it instantiates), with the
    properties of the engine that the specification states.

    Numbers.  A JavaScript number is modelled as a real number or the token
    [NonFin], which stands for any of NaN, +Infinity and -Infinity.
    Arithmetic on finite numbers is exact (no rounding, also not on a store
    into a [Float32Array], no overflow, no signed zero); the operations that IEEE 754 leaves undefined on finite
    operands (division by zero, square root of a negative number, arc cosine
    outside [-1,1], reading a typed array out of range) yield [NonFin], and
    [NonFin] is absorbing.  IEEE 754 is less strict (1/Infinity is 0), so
    the model over-approximates non-finiteness. *)

From Stdlib Require Import Reals Lra Lia.
From stdpp Require Import base option list strings gmap pretty.

Declare Scope num_scope.
Delimit Scope num_scope with num.

(** ** JavaScript numbers *)

Inductive num : Type :=
| Fin (r : R)
| NonFin.

Coercion Fin : R >-> num.

Definition is_fin (a : num) : bool :=
  match a with Fin _ => true | NonFin => false end.

Definition lift1 (f : R -> R) (a : num) : num :=
  match a with Fin u => Fin (f u) | NonFin => NonFin end.

Definition lift2 (f : R -> R -> R) (a b : num) : num :=
  match a, b with Fin u, Fin v => Fin (f u v) | _, _ => NonFin end.

Definition add : num -> num -> num := lift2 Rplus.
Definition sub : num -> num -> num := lift2 Rminus.
Definition mul : num -> num -> num := lift2 Rmult.
Definition neg : num -> num := lift1 Ropp.

(** [a / b]: a zero divisor gives an infinity or NaN. *)
Definition div (a b : num) : num :=
  match a, b with
  | Fin u, Fin v => if Req_dec_T v 0 then NonFin else Fin (u / v)
  | _, _ => NonFin
  end.

Infix "+" := add : num_scope.
Infix "-" := sub : num_scope.
Infix "*" := mul : num_scope.
Infix "/" := div : num_scope.

(** [a || b] on numbers: [b] when [a] is zero.  (NaN is falsy as well and
    an infinity is not; the token [NonFin] covers both and is kept.) *)
Definition num_or (a b : num) : num :=
  match a with
  | Fin u => if Req_dec_T u 0 then b else a
  | NonFin => NonFin
  end.

(** The mathematical two-argument arc tangent, by quadrant. *)
Definition atan2 (v u : R) : R :=
  if Rlt_dec 0 u then atan (v / u)
  else if Rlt_dec u 0 then
    (if Rle_dec 0 v then atan (v / u) + PI else atan (v / u) - PI)
  else if Rlt_dec 0 v then PI / 2
  else if Rlt_dec v 0 then - (PI / 2)
  else 0.

Definition Math_PI : num := Fin PI.
Definition Math_sin : num -> num := lift1 sin.
Definition Math_cos : num -> num := lift1 cos.
Definition Math_atan2 : num -> num -> num := lift2 atan2.
Definition Math_max : num -> num -> num := lift2 Rmax.

Definition Math_sqrt (a : num) : num :=
  match a with
  | Fin u => if Rlt_dec u 0 then NonFin else Fin (sqrt u)
  | NonFin => NonFin
  end.

Definition Math_acos (a : num) : num :=
  match a with
  | Fin u =>
      if Rlt_dec u (-1) then NonFin
      else if Rlt_dec 1 u then NonFin
      else Fin (acos u)
  | NonFin => NonFin
  end.

(** A loop index used as a number. *)
Definition of_nat (i : nat) : num := Fin (INR i).

(** Reading a [Float32Array]: an index out of range reads [undefined],
    which every arithmetic operation turns into NaN.  Writing is stdpp's
    list insert: an index out of range is ignored, as for a typed array. *)
Definition get (a : list num) (i : nat) : num := default NonFin (a !! i).

(** ** The parts of three.js the engine calls *)

Module THREE.

Record Vector3 : Type := mkVector3 { x : num; y : num; z : num }.

Record Vector2 : Type := mkVector2 { x2 : num; y2 : num }.

Record Color : Type := mkColor { r : num; g : num; b : num }.

Local Open Scope num_scope.

Definition set_x (v : Vector3) (a : num) : Vector3 := mkVector3 a (y v) (z v).
Definition set_y (v : Vector3) (a : num) : Vector3 := mkVector3 (x v) a (z v).
Definition set_z (v : Vector3) (a : num) : Vector3 := mkVector3 (x v) (y v) a.

Definition clone (v : Vector3) : Vector3 := v.

Definition addv (v w : Vector3) : Vector3 :=
  mkVector3 (x v + x w) (y v + y w) (z v + z w).

Definition subv (v w : Vector3) : Vector3 :=
  mkVector3 (x v - x w) (y v - y w) (z v - z w).

Definition multiplyScalar (v : Vector3) (s : num) : Vector3 :=
  mkVector3 (x v * s) (y v * s) (z v * s).

Definition divideScalar (v : Vector3) (s : num) : Vector3 :=
  multiplyScalar v (Fin 1 / s).

Definition length (v : Vector3) : num :=
  Math_sqrt (x v * x v + y v * y v + z v * z v).

(** [normalize() { return this.divideScalar(this.length() || 1) }] *)
Definition normalize (v : Vector3) : Vector3 :=
  divideScalar v (num_or (length v) (Fin 1)).

Definition distanceToSquared (v w : Vector3) : num :=
  let dx := x v - x w in
  let dy := y v - y w in
  let dz := z v - z w in
  dx * dx + dy * dy + dz * dz.

Definition distanceTo (v w : Vector3) : num :=
  Math_sqrt (distanceToSquared v w).

(** [lerpColors(c1, c2, alpha)]: each channel is [c1 + (c2 - c1) * alpha]. *)
Definition lerpColors (c1 c2 : Color) (alpha : num) : Color :=
  mkColor (r c1 + (r c2 - r c1) * alpha)
          (g c1 + (g c2 - g c1) * alpha)
          (b c1 + (b c2 - b c1) * alpha).

End THREE.

(** ** Object literals used as lookup tables

    A lookup [obj[key]] on an object literal first consults the literal's
    own properties and then its prototype, [Object.prototype], whose
    properties are functions (and, for [__proto__], an object): all truthy. *)

Inductive jsval : Type :=
| JNumber (n : nat)
| JString (s : string)
| JObject (name : string)   (* the function or object [Object.prototype[name]] *)
| JUndefined.

Definition truthy (v : jsval) : bool :=
  match v with
  | JNumber n => negb (Nat.eqb n 0)
  | JString s => negb (String.eqb s "")
  | JObject _ => true
  | JUndefined => false
  end.

(** [a || b] *)
Definition js_or (a b : jsval) : jsval := if truthy a then a else b.

Definition Object_prototype : list string :=
  ["constructor"; "hasOwnProperty"; "isPrototypeOf"; "propertyIsEnumerable";
   "toLocaleString"; "toString"; "valueOf"; "__proto__";
   "__defineGetter__"; "__defineSetter__"; "__lookupGetter__";
   "__lookupSetter__"].

Definition property (own : gmap string jsval) (key : string) : jsval :=
  match own !! key with
  | Some v => v
  | None =>
      if existsb (String.eqb key) Object_prototype then JObject key
      else JUndefined
  end.

(** The property key a value is converted to.  The text of a native
    function is implementation-defined; it is never one of the keys used
    here. *)
Definition to_key (v : jsval) : string :=
  match v with
  | JNumber n => pretty n
  | JString s => s
  | JObject name => "function " +:+ name +:+ "() { [native code] }"
  | JUndefined => "undefined"
  end.

(** ** ParticleShaderMaterial *)

Module ParticleShaderMaterial.

Record uniforms : Type := mkUniforms {
  u_time : num;
  globalSize : num;
  u_baseColor : THREE.Color;
  u_accentColor : THREE.Color;
  shapeType : jsval
}.

Definition shapeMap : gmap string jsval :=
  list_to_map [("circle", JNumber 0); ("square", JNumber 1);
               ("star", JNumber 2); ("heart", JNumber 3)].

Definition getShapeType (shapeName : string) : jsval :=
  js_or (property shapeMap shapeName) (JNumber 0).

Definition typeMap : gmap string jsval :=
  list_to_map [("0", JString "circle"); ("1", JString "square");
               ("2", JString "star"); ("3", JString "heart")].

Definition getShapeName (m : uniforms) : jsval :=
  js_or (property typeMap (to_key (shapeType m))) (JString "circle").

(** The constructor, with the options the engine passes (all four are
    given; a falsy [shape] falls back to ['circle'], a falsy [size] to 2). *)
Definition new (baseColor accentColor : THREE.Color) (size : num)
    (shape : string) : uniforms :=
  mkUniforms (Fin 0) (num_or size (Fin 2)) baseColor accentColor
    (getShapeType (if String.eqb shape "" then "circle" else shape)).

Definition updateTime (m : uniforms) (time : num) : uniforms :=
  mkUniforms time (globalSize m) (u_baseColor m) (u_accentColor m)
    (shapeType m).

(** [updateProperties({baseColor, accentColor, size})], as the engine calls
    it: the three given, no [shape]. *)
Definition updateProperties (m : uniforms)
    (baseColor accentColor : THREE.Color) (size : num) : uniforms :=
  mkUniforms (u_time m) size baseColor accentColor (shapeType m).

End ParticleShaderMaterial.


(** ** ParticleSystem

    The engine object.  The scene, camera, renderer and lights take no part
    in the particle state and are left out; [particles], [particleGeometry]
    and [particleMaterial] are assigned together by [createParticles] and
    are one optional field here.  The last three fields are the host the
    engine runs in: the animation-frame requests that are pending, the next
    request identifier, and the sequence [Math.random()] will return. *)

Record Geometry : Type := mkGeometry {
  position : list num;
  color : list num;
  size : list num;
  velocity : list num;
  phase : list num
}.

Record Points : Type := mkPoints {
  particleGeometry : Geometry;
  particleMaterial : ParticleShaderMaterial.uniforms
}.

Record ParticleSystem : Type := mkParticleSystem {
  animationId : option nat;
  isPlaying : bool;
  time : num;
  speed : num;
  rotationSpeed : num;
  particleCount : nat;
  particleSize : num;
  particleShape : string;
  baseColor : THREE.Color;
  accentColor : THREE.Color;
  colorTransition : bool;
  mouse : THREE.Vector2;
  mouseInfluence : num;
  mouseInteraction : bool;
  currentPreset : string;
  particles : option Points;
  frameRequests : list nat;
  nextRequestId : nat;
  random : nat -> R
}.

Definition set_animationId (v : option nat) (s : ParticleSystem) :=
  mkParticleSystem v (isPlaying s) (time s) (speed s) (rotationSpeed s)
    (particleCount s) (particleSize s) (particleShape s) (baseColor s)
    (accentColor s) (colorTransition s) (mouse s) (mouseInfluence s)
    (mouseInteraction s) (currentPreset s) (particles s) (frameRequests s)
    (nextRequestId s) (random s).

Definition set_isPlaying (v : bool) (s : ParticleSystem) :=
  mkParticleSystem (animationId s) v (time s) (speed s) (rotationSpeed s)
    (particleCount s) (particleSize s) (particleShape s) (baseColor s)
    (accentColor s) (colorTransition s) (mouse s) (mouseInfluence s)
    (mouseInteraction s) (currentPreset s) (particles s) (frameRequests s)
    (nextRequestId s) (random s).

Definition set_time (v : num) (s : ParticleSystem) :=
  mkParticleSystem (animationId s) (isPlaying s) v (speed s) (rotationSpeed s)
    (particleCount s) (particleSize s) (particleShape s) (baseColor s)
    (accentColor s) (colorTransition s) (mouse s) (mouseInfluence s)
    (mouseInteraction s) (currentPreset s) (particles s) (frameRequests s)
    (nextRequestId s) (random s).

Definition set_mouse (v : THREE.Vector2) (s : ParticleSystem) :=
  mkParticleSystem (animationId s) (isPlaying s) (time s) (speed s)
    (rotationSpeed s) (particleCount s) (particleSize s) (particleShape s)
    (baseColor s) (accentColor s) (colorTransition s) v (mouseInfluence s)
    (mouseInteraction s) (currentPreset s) (particles s) (frameRequests s)
    (nextRequestId s) (random s).

Definition set_currentPreset (v : string) (s : ParticleSystem) :=
  mkParticleSystem (animationId s) (isPlaying s) (time s) (speed s)
    (rotationSpeed s) (particleCount s) (particleSize s) (particleShape s)
    (baseColor s) (accentColor s) (colorTransition s) (mouse s)
    (mouseInfluence s) (mouseInteraction s) v (particles s) (frameRequests s)
    (nextRequestId s) (random s).

Definition set_particles (v : option Points) (s : ParticleSystem) :=
  mkParticleSystem (animationId s) (isPlaying s) (time s) (speed s)
    (rotationSpeed s) (particleCount s) (particleSize s) (particleShape s)
    (baseColor s) (accentColor s) (colorTransition s) (mouse s)
    (mouseInfluence s) (mouseInteraction s) (currentPreset s) v
    (frameRequests s) (nextRequestId s) (random s).

Definition set_frameRequests (v : list nat) (s : ParticleSystem) :=
  mkParticleSystem (animationId s) (isPlaying s) (time s) (speed s)
    (rotationSpeed s) (particleCount s) (particleSize s) (particleShape s)
    (baseColor s) (accentColor s) (colorTransition s) (mouse s)
    (mouseInfluence s) (mouseInteraction s) (currentPreset s) (particles s)
    v (nextRequestId s) (random s).

Definition set_nextRequestId (v : nat) (s : ParticleSystem) :=
  mkParticleSystem (animationId s) (isPlaying s) (time s) (speed s)
    (rotationSpeed s) (particleCount s) (particleSize s) (particleShape s)
    (baseColor s) (accentColor s) (colorTransition s) (mouse s)
    (mouseInfluence s) (mouseInteraction s) (currentPreset s) (particles s)
    (frameRequests s) v (random s).

Definition set_random (v : nat -> R) (s : ParticleSystem) :=
  mkParticleSystem (animationId s) (isPlaying s) (time s) (speed s)
    (rotationSpeed s) (particleCount s) (particleSize s) (particleShape s)
    (baseColor s) (accentColor s) (colorTransition s) (mouse s)
    (mouseInfluence s) (mouseInteraction s) (currentPreset s) (particles s)
    (frameRequests s) (nextRequestId s) v.

(** *** The host: animation frames and random numbers *)

(** [requestAnimationFrame(() => this.animate())]: the request is queued
    and its identifier returned. *)
Definition requestAnimationFrame (s : ParticleSystem) : nat * ParticleSystem :=
  (nextRequestId s,
   set_nextRequestId (S (nextRequestId s))
     (set_frameRequests (frameRequests s ++ [nextRequestId s]) s)).

Definition cancelAnimationFrame (id : nat) (s : ParticleSystem) : ParticleSystem :=
  set_frameRequests (filter (fun k => k <> id) (frameRequests s)) s.

(** [Math.random()]: the next number of the sequence, and the sequence
    that is left. *)
Definition Math_random (rnd : nat -> R) : num * (nat -> R) :=
  (Fin (rnd 0), fun n => rnd (S n)).

(** A [for (let i = start; i < start + n; i++) body] loop over a state. *)
Fixpoint for_loop {A : Type} (n start : nat) (body : nat -> A -> A) (a : A) : A :=
  match n with
  | O => a
  | S n' => for_loop n' (S start) body (body start a)
  end.

Section Engine.

Local Open Scope R_scope.
Local Open Scope num_scope.

Import THREE.

(** *** createParticles *)

(** One turn of the creation loop: nine calls of [Math.random()], in the
    order of the source. *)
Definition createParticle (s : ParticleSystem) (i : nat)
    (rg : (nat -> R) * Geometry) : (nat -> R) * Geometry :=
  let '(rnd, geo) := rg in
  let i3 := (i * 3)%nat in
  (* Spherical distribution *)
  let '(u, rnd) := Math_random rnd in
  let radius := u * 80 + 20 in
  let '(u, rnd) := Math_random rnd in
  let theta := u * Math_PI * 2 in
  let '(u, rnd) := Math_random rnd in
  let phi := Math_acos (2 * u - 1) in
  let positions := <[i3 := radius * Math_sin phi * Math_cos theta]> (position geo) in
  let positions := <[(i3 + 1)%nat := radius * Math_sin phi * Math_sin theta]> positions in
  let positions := <[(i3 + 2)%nat := radius * Math_cos phi]> positions in
  (* Random velocities *)
  let '(u, rnd) := Math_random rnd in
  let velocities := <[i3 := (u - 0.5) * 0.02]> (velocity geo) in
  let '(u, rnd) := Math_random rnd in
  let velocities := <[(i3 + 1)%nat := (u - 0.5) * 0.02]> velocities in
  let '(u, rnd) := Math_random rnd in
  let velocities := <[(i3 + 2)%nat := (u - 0.5) * 0.02]> velocities in
  (* Random colors *)
  let '(u, rnd) := Math_random rnd in
  let c := lerpColors (baseColor s) (accentColor s) u in
  let colors := <[i3 := r c]> (color geo) in
  let colors := <[(i3 + 1)%nat := g c]> colors in
  let colors := <[(i3 + 2)%nat := b c]> colors in
  (* Random sizes *)
  let '(u, rnd) := Math_random rnd in
  let sizes := <[i := u * particleSize s + 0.5]> (size geo) in
  (* Random phases for animation *)
  let '(u, rnd) := Math_random rnd in
  let phases := <[i := u * Math_PI * 2]> (phase geo) in
  (rnd, mkGeometry positions colors sizes velocities phases).

(** The five fresh, zero-filled [Float32Array]s. *)
Definition emptyGeometry (count : nat) : Geometry :=
  mkGeometry (replicate (count * 3) (Fin 0)) (replicate (count * 3) (Fin 0))
    (replicate count (Fin 0)) (replicate (count * 3) (Fin 0))
    (replicate count (Fin 0)).

Definition createParticles (s : ParticleSystem) : ParticleSystem :=
  let '(rnd, geo) :=
    for_loop (particleCount s) 0 (createParticle s)
      (random s, emptyGeometry (particleCount s)) in
  set_random rnd
    (set_particles
       (Some (mkPoints geo
          (ParticleShaderMaterial.new (baseColor s) (accentColor s)
             (particleSize s) (particleShape s)))) s).

(** *** The motion presets *)

Definition applyGalaxyAnimation (position : Vector3) (index : nat) (time : num)
    : Vector3 :=
  let distance := Math_sqrt (x position * x position + z position * z position) in
  let angle := Math_atan2 (z position) (x position) in
  let rotationSpeed := 0.001 / (distance * 0.01 + 1) in
  let newAngle := angle + rotationSpeed * time in
  let position := set_x position (distance * Math_cos newAngle) in
  let position := set_z position (distance * Math_sin newAngle) in
  set_y position
    (y position + Math_sin (time * 0.5 + of_nat index * 0.01) * 0.1).

Definition applyNebulaAnimation (position : Vector3) (index : nat) (time : num)
    : Vector3 :=
  let noise := Math_sin (time * 0.3 + of_nat index * 0.1)
               * Math_cos (time * 0.2 + of_nat index * 0.05) in
  let position := set_x position (x position + noise * 0.2) in
  let position :=
    set_y position
      (y position + Math_sin (time * 0.4 + of_nat index * 0.08) * 0.15) in
  set_z position
    (z position + Math_cos (time * 0.35 + of_nat index * 0.06) * 0.18).

Definition applyExplosionAnimation (position : Vector3) (index : nat) (time : num)
    : Vector3 :=
  let explosionFactor := Math_sin (time * 0.5) * 0.5 + 0.5 in
  let direction := normalize (clone position) in
  addv position (multiplyScalar direction (explosionFactor * 2)).

Definition applyWaveAnimation (position : Vector3) (index : nat) (time : num)
    : Vector3 :=
  let waveHeight := Math_sin (x position * 0.05 + time) * 10 in
  set_y position (waveHeight + Math_sin (time * 2 + of_nat index * 0.1) * 2).

Definition applySpiralAnimation (position : Vector3) (index : nat) (time : num)
    : Vector3 :=
  let height := y position in
  let radius := Math_sqrt (x position * x position + z position * z position) in
  let angle := Math_atan2 (z position) (x position) + time * 0.5 + height * 0.01 in
  let position := set_x position (radius * Math_cos angle) in
  set_z position (radius * Math_sin angle).

Definition applyAuroraAnimation (position : Vector3) (index : nat) (time : num)
    : Vector3 :=
  let wave1 := Math_sin (x position * 0.02 + time * 2) * 5 in
  let wave2 := Math_cos (z position * 0.03 + time * 1.5) * 3 in
  set_y position (wave1 + wave2 + Math_sin (time + of_nat index * 0.1) * 2).

(** The [switch] on the preset name; its [default] branch does nothing. *)
Definition applyPresetAnimation (preset : string) (position : Vector3)
    (index : nat) (time : num) : Vector3 :=
  if String.eqb preset "galaxy" then applyGalaxyAnimation position index time
  else if String.eqb preset "nebula" then applyNebulaAnimation position index time
  else if String.eqb preset "explosion" then applyExplosionAnimation position index time
  else if String.eqb preset "wave" then applyWaveAnimation position index time
  else if String.eqb preset "spiral" then applySpiralAnimation position index time
  else if String.eqb preset "aurora" then applyAuroraAnimation position index time
  else position.

(** *** updateParticles *)

(** The pointer repulsion, applied when [mouseInteraction] is set. *)
Definition applyMouseInteraction (s : ParticleSystem) (position : Vector3)
    : Vector3 :=
  let mouseInfluenceVector :=
    mkVector3 (x2 (mouse s) * 10) (y2 (mouse s) * 10) 0 in
  let distance := distanceTo position mouseInfluenceVector in
  let influence := Math_max 0 (1 - distance / 50) in
  let direction := normalize (subv (clone position) mouseInfluenceVector) in
  addv position (multiplyScalar direction (influence * mouseInfluence s)).

(** One turn of the update loop, on the attribute arrays. *)
Definition updateParticle (s : ParticleSystem) (i : nat) (geo : Geometry)
    : Geometry :=
  let positions := position geo in
  let phases := phase geo in
  let colors := color geo in
  let i3 := (i * 3)%nat in
  (* Get current position *)
  let pos :=
    mkVector3 (get positions i3) (get positions (i3 + 1)) (get positions (i3 + 2)) in
  (* Apply preset-specific animations *)
  let pos := applyPresetAnimation (currentPreset s) pos i (time s) in
  (* Apply mouse interaction *)
  let pos := if mouseInteraction s then applyMouseInteraction s pos else pos in
  (* Apply velocities with some randomness *)
  let positions :=
    <[i3 := x pos + Math_sin (time s + get phases i) * 0.5]> positions in
  let positions :=
    <[(i3 + 1)%nat := y pos + Math_cos (time s + get phases i) * 0.5]> positions in
  let positions :=
    <[(i3 + 2)%nat := z pos + Math_sin (time s * 0.5 + get phases i) * 0.3]> positions in
  (* Update colors if color transition is enabled *)
  let colors :=
    if colorTransition s then
      let factor := (Math_sin (time s * 0.5 + get phases i) + 1) / 2 in
      let c := lerpColors (baseColor s) (accentColor s) factor in
      <[(i3 + 2)%nat := b c]> (<[(i3 + 1)%nat := g c]> (<[i3 := r c]> colors))
    else colors in
  mkGeometry positions colors (size geo) (velocity geo) phases.

Definition updateParticles (s : ParticleSystem) : ParticleSystem :=
  match particles s with
  | None => s
  | Some p =>
      let geo := for_loop (particleCount s) 0 (updateParticle s) (particleGeometry p) in
      set_particles
        (Some (mkPoints geo
           (ParticleShaderMaterial.updateTime (particleMaterial p) (time s)))) s
  end.

(** *** Playback *)

Definition animate (s : ParticleSystem) : ParticleSystem :=
  if negb (isPlaying s) then s
  else
    let '(id, s) := requestAnimationFrame s in
    let s := set_animationId (Some id) s in
    let s := set_time (time s + 0.016 * speed s) s in (* Roughly 60fps *)
    updateParticles s.

Definition start (s : ParticleSystem) : ParticleSystem :=
  animate (set_isPlaying true s).

Definition pause (s : ParticleSystem) : ParticleSystem :=
  let s := set_isPlaying false s in
  match animationId s with
  | Some id =>
      if Nat.eqb id 0 then s
      else set_animationId None (cancelAnimationFrame id s)
  | None => s
  end.

Definition resume (s : ParticleSystem) : ParticleSystem :=
  if negb (isPlaying s) then animate (set_isPlaying true s) else s.

Definition reset (s : ParticleSystem) : ParticleSystem :=
  createParticles (set_time 0 s).

Definition setPreset (presetName : string) (s : ParticleSystem) : ParticleSystem :=
  set_currentPreset presetName s.

Definition getParticleCount (s : ParticleSystem) : nat := particleCount s.

(** The host runs the callbacks requested for this frame; each is
    [() => this.animate()], which drops the timestamp it is called with. *)
Definition frameCallback (timestamp : num) (s : ParticleSystem) : ParticleSystem :=
  animate s.

Definition hostFrame (timestamp : num) (s : ParticleSystem) : ParticleSystem :=
  fold_left (fun s _ => frameCallback timestamp s) (frameRequests s)
    (set_frameRequests [] s).

(** *** Pointer input *)

Record DOMRect : Type := mkDOMRect {
  left : num; top : num; width : num; height : num
}.

(** The [mousemove] listener; the [touchmove] listener does the same with
    the first touch point. *)
Definition mousemove (clientX clientY : num) (rect : DOMRect)
    (s : ParticleSystem) : ParticleSystem :=
  if negb (mouseInteraction s) then s
  else
    set_mouse
      (mkVector2 (((clientX - left rect) / width rect) * 2 - 1)
                 (neg ((clientY - top rect) / height rect) * 2 + 1)) s.

(** *** updateProperties *)

(** The property bag: each key is present or absent.  A particle count
    is a natural number; [Object.assign] would store whatever the bag
    holds, and a count that is fractional, negative or no number is
    outside this model. *)
Record properties : Type := mkProperties {
  p_particleCount : option nat;
  p_particleSize : option num;
  p_particleShape : option string;
  p_baseColor : option Color;
  p_accentColor : option Color;
  p_speed : option num;
  p_rotationSpeed : option num;
  p_colorTransition : option bool;
  p_mouseInteraction : option bool;
  p_mouseInfluence : option num;
  p_currentPreset : option string
}.

Definition needsRecreate (s : ParticleSystem) (p : properties) : bool :=
  match p_particleCount p with
  | Some c => negb (Nat.eqb c (particleCount s))
  | None => false
  end
  || match p_particleShape p with
     | Some sh => negb (String.eqb sh (particleShape s))
     | None => false
     end.

(** [Object.assign(this, properties)] *)
Definition Object_assign (s : ParticleSystem) (p : properties) : ParticleSystem :=
  mkParticleSystem (animationId s) (isPlaying s) (time s)
    (default (speed s) (p_speed p))
    (default (rotationSpeed s) (p_rotationSpeed p))
    (default (particleCount s) (p_particleCount p))
    (default (particleSize s) (p_particleSize p))
    (default (particleShape s) (p_particleShape p))
    (default (baseColor s) (p_baseColor p))
    (default (accentColor s) (p_accentColor p))
    (default (colorTransition s) (p_colorTransition p))
    (mouse s)
    (default (mouseInfluence s) (p_mouseInfluence p))
    (default (mouseInteraction s) (p_mouseInteraction p))
    (default (currentPreset s) (p_currentPreset p))
    (particles s) (frameRequests s) (nextRequestId s) (random s).

Definition updateProperties (p : properties) (s : ParticleSystem)
    : ParticleSystem :=
  let recreate := needsRecreate s p in
  (* Update properties *)
  let s := Object_assign s p in
  (* Recreate particles if necessary *)
  if recreate then createParticles s
  else
    (* Update material properties *)
    match particles s with
    | Some pts =>
        set_particles
          (Some (mkPoints (particleGeometry pts)
             (ParticleShaderMaterial.updateProperties (particleMaterial pts)
                (baseColor s) (accentColor s) (particleSize s)))) s
    | None => s
    end.

(** *** Everything that can happen to an engine *)

Inductive event : Type :=
| Frame (timestamp : num)
| MouseMove (clientX clientY : num) (rect : DOMRect)
| SetPreset (presetName : string)
| UpdateProperties (p : properties)
| Start
| Pause
| Resume
| Reset.

Definition step (s : ParticleSystem) (e : event) : ParticleSystem :=
  match e with
  | Frame timestamp => hostFrame timestamp s
  | MouseMove clientX clientY rect => mousemove clientX clientY rect s
  | SetPreset presetName => setPreset presetName s
  | UpdateProperties p => updateProperties p s
  | Start => start s
  | Pause => pause s
  | Resume => resume s
  | Reset => reset s
  end.

Definition run (es : list event) (s : ParticleSystem) : ParticleSystem :=
  fold_left step es s.

(** Does the event make the engine call [createParticles]? *)
Definition recreates (s : ParticleSystem) (e : event) : bool :=
  match e with
  | Reset => true
  | UpdateProperties p => needsRecreate s p
  | _ => false
  end.

End Engine.

(** The attribute arrays of an engine, when it has a population. *)
Definition geometry (s : ParticleSystem) : option Geometry :=
  particleGeometry <$> particles s.

Definition phases (s : ParticleSystem) : option (list num) :=
  phase <$> geometry s.

Definition colors (s : ParticleSystem) : option (list num) :=
  color <$> geometry s.

Definition positions (s : ParticleSystem) : option (list num) :=
  position <$> geometry s.

(** * The vocabulary of the properties *)

(** The pulsing factor of the explosion preset at a time. *)
Definition explosionFactor (t : R) : R := (sin (t * 0.5) * 0.5 + 0.5)%R.

(** The distance of a point from the origin. *)
Definition norm (px py pz : R) : R := sqrt (px * px + py * py + pz * pz)%R.

(** Successive applications of the explosion preset to one particle, at the
    times [ts], with nothing in between. *)
Definition explosions (i : nat) (ts : list R) (p : THREE.Vector3)
    : THREE.Vector3 :=
  fold_left (fun q t => applyExplosionAnimation q i (Fin t)) ts p.

(** The sum of the displacements at the times [ts]. *)
Definition totalPush (ts : list R) : R :=
  fold_right (fun t acc => (explosionFactor t * 2 + acc)%R) 0%R ts.

(** A small engine to evaluate the definitions on: one particle at
    [(30, 0, 40)], playing, its animation loop live. *)
Definition sampleGeometry : Geometry :=
  mkGeometry [Fin 30; Fin 0; Fin 40] [Fin 1; Fin 0.5; Fin 0.25] [Fin 1.5]
    [Fin 0.01; Fin 0; Fin (-0.01)] [Fin 1].

(** Its material: the default colors, a circle. *)
Definition sampleMaterial : ParticleShaderMaterial.uniforms :=
  ParticleShaderMaterial.mkUniforms (Fin 0) (Fin 2)
    (THREE.mkColor (Fin 1) (Fin (107 / 255)) (Fin (107 / 255)))
    (THREE.mkColor (Fin (78 / 255)) (Fin (205 / 255)) (Fin (196 / 255)))
    (JNumber 0).

(** The engine itself, with the constructor's settings, a count of one,
    and a random source that always answers 1/2. *)
Definition sampleEngine : ParticleSystem :=
  mkParticleSystem (Some 1) true (Fin 0) (Fin 1) (Fin 0.5) 1 (Fin 2) "circle"
    (THREE.mkColor (Fin 1) (Fin (107 / 255)) (Fin (107 / 255)))
    (THREE.mkColor (Fin (78 / 255)) (Fin (205 / 255)) (Fin (196 / 255)))
    true (THREE.mkVector2 (Fin 0) (Fin 0)) (Fin 0.1) true "default"
    (Some (mkPoints sampleGeometry sampleMaterial))
    [1] 2 (fun _ => (1 / 2)%R).

(** The point of the sphere that [createParticles] computes from three
    random numbers: radius, azimuth, and polar angle by inverse transform. *)
Definition sphericalPoint (u0 u1 u2 : R) : THREE.Vector3 :=
  let radius := (Fin u0 * Fin 80 + Fin 20)%num in
  let theta := (Fin u1 * Math_PI * Fin 2)%num in
  let phi := Math_acos (Fin 2 * Fin u2 - Fin 1)%num in
  THREE.mkVector3 (radius * Math_sin phi * Math_cos theta)%num
                  (radius * Math_sin phi * Math_sin theta)%num
                  (radius * Math_cos phi)%num.

(** The frame callback run once per timestamp of a list. *)
Definition callbacks (timestamps : list num) (s : ParticleSystem)
    : ParticleSystem :=
  fold_left (fun s' ts => frameCallback ts s') timestamps s.

(** One host frame per timestamp of a list. *)
Definition hostFrames (timestamps : list num) (s : ParticleSystem)
    : ParticleSystem :=
  fold_left (fun s' ts => hostFrame ts s') timestamps s.

(** The preset names the [switch] knows and the shape names [shapeMap]
    holds. *)
Definition presetNames : list string :=
  ["galaxy"; "nebula"; "explosion"; "wave"; "spiral"; "aurora"].

Definition shapeNames : list string := ["circle"; "square"; "star"; "heart"].

(** Membership of a name in a list of names. *)
Definition mem (name : string) (names : list string) : bool :=
  existsb (String.eqb name) names.

(** The material whose shape uniform holds [v]. *)
Definition materialOfType (v : jsval) : ParticleShaderMaterial.uniforms :=
  ParticleShaderMaterial.mkUniforms (Fin 0) (Fin 2)
    (THREE.mkColor (Fin 1) (Fin 1) (Fin 1))
    (THREE.mkColor (Fin 1) (Fin 1) (Fin 1)) v.

(** A shape name converted to its type by [getShapeType] and read back
    by [getShapeName]. *)
Definition roundTrip (name : string) : jsval :=
  ParticleShaderMaterial.getShapeName
    (materialOfType (ParticleShaderMaterial.getShapeType name)).

(** Finite vectors, arrays and settings. *)
Definition fin_vec (v : THREE.Vector3) : bool :=
  is_fin (THREE.x v) && is_fin (THREE.y v) && is_fin (THREE.z v).

Definition fin_list (l : list num) : bool := forallb is_fin l.

Definition settings_finite (s : ParticleSystem) : bool :=
  is_fin (time s) && is_fin (speed s) && is_fin (mouseInfluence s)
  && is_fin (THREE.x2 (mouse s)) && is_fin (THREE.y2 (mouse s)).

(** The position and phase arrays have the lengths the particle count
    asks for, and hold finite numbers only. *)
Definition geometry_ok (count : nat) (geo : Geometry) : bool :=
  Nat.eqb (length (position geo)) (count * 3)
  && Nat.eqb (length (phase geo)) count
  && fin_list (position geo) && fin_list (phase geo).

(** The engine has a population, and its arrays are well-formed. *)
Definition population_ok (s : ParticleSystem) : bool :=
  match particles s with
  | Some pts => geometry_ok (particleCount s) (particleGeometry pts)
  | None => false
  end.

(** [Math.random()] answers in [0,1). *)
Definition random_in_range (rnd : nat -> R) : Prop :=
  forall n, (0 <= rnd n < 1)%R.

(** The invariant of an engine that has been created. *)
Definition engine_ok (s : ParticleSystem) : Prop :=
  settings_finite s = true /\ population_ok s = true
  /\ random_in_range (random s).

(** A pointer event comes with finite coordinates, over a canvas whose
    bounding rectangle is finite and not empty. *)
Definition rect_ok (rect : DOMRect) : Prop :=
  is_fin (left rect) = true /\ is_fin (top rect) = true
  /\ (exists w : R, width rect = Fin w /\ w <> 0%R)
  /\ (exists h : R, height rect = Fin h /\ h <> 0%R).

(** A property bag whose speed and pointer strength, when given, are
    finite. *)
Definition properties_finite (p : properties) : bool :=
  from_option is_fin true (p_speed p)
  && from_option is_fin true (p_mouseInfluence p).

(** The events whose arguments are well-formed. *)
Definition event_ok (e : event) : Prop :=
  match e with
  | MouseMove clientX clientY rect =>
      is_fin clientX = true /\ is_fin clientY = true /\ rect_ok rect
  | UpdateProperties p => properties_finite p = true
  | _ => True
  end.

(** * More vocabulary: the rest of the engine *)

(** The five attribute arrays have the lengths a particle count asks for. *)
Definition lengths_ok (count : nat) (geo : Geometry) : bool :=
  Nat.eqb (length (position geo)) (count * 3)
  && Nat.eqb (length (color geo)) (count * 3)
  && Nat.eqb (length (size geo)) count
  && Nat.eqb (length (velocity geo)) (count * 3)
  && Nat.eqb (length (phase geo)) count.

(** The arrays of the engine's population, if it has one, match its
    particle count. *)
Definition arrays_match (s : ParticleSystem) : bool :=
  match particles s with
  | Some pts => lengths_ok (particleCount s) (particleGeometry pts)
  | None => true
  end.

(** [x] lies between [a] and [b], whichever is the larger. *)
Definition between (a b x : R) : Prop := (Rmin a b <= x <= Rmax a b)%R.

(** The blend factor of the color transition at a time, for a phase. *)
Definition colorFactor (t ph : R) : R := ((sin (t * 0.5 + ph) + 1) / 2)%R.

(** The strength of the pointer repulsion at distance [d] of the pointer. *)
Definition influenceAt (d : R) : R := Rmax 0 (1 - d / 50).

(** The rotation rate of the galaxy preset at distance [d] of the axis. *)
Definition galaxyRate (d : R) : R := (0.001 / (d * 0.01 + 1))%R.

(** The shape uniform of the material is the type of the engine's shape
    name (of ['circle'] when the name is empty). *)
Definition shape_synced (s : ParticleSystem) : Prop :=
  match particles s with
  | Some pts =>
      ParticleShaderMaterial.shapeType (particleMaterial pts)
      = ParticleShaderMaterial.getShapeType
          (if String.eqb (particleShape s) "" then "circle"
           else particleShape s)
  | None => True
  end.

(** The uniforms of the engine's material, when it has a population. *)
Definition material (s : ParticleSystem)
    : option ParticleShaderMaterial.uniforms :=
  particleMaterial <$> particles s.

(** ** The camera *)

(** [a > b] on numbers; a comparison with NaN is false. *)
Definition num_gt (a b : num) : bool :=
  match a, b with
  | Fin u, Fin v => if Rlt_dec v u then true else false
  | _, _ => false
  end.

(** [updateCamera()], on the position of the camera: it is put on a circle
    of radius 100 about the vertical axis when the rotation speed is
    positive ([camera.lookAt] turns the camera and moves nothing). *)
Definition updateCamera (s : ParticleSystem) (camera : THREE.Vector3)
    : THREE.Vector3 :=
  if num_gt (rotationSpeed s) (Fin 0) then
    let radius := Fin 100 in
    let camera :=
      THREE.set_x camera
        (Math_cos (time s * rotationSpeed s * Fin 0.1) * radius)%num in
    THREE.set_z camera
      (Math_sin (time s * rotationSpeed s * Fin 0.1) * radius)%num
  else camera.

(** The position [setupCamera()] gives the camera. *)
Definition initialCamera : THREE.Vector3 :=
  THREE.mkVector3 (Fin 0) (Fin 0) (Fin 100).

(** ** Cloning a material *)

(** The constructor of [ParticleShaderMaterial] given any value as its
    [shape] option: [getShapeType(options.shape || 'circle')], the value
    being converted to a property key by the lookup. *)
Definition newMaterial (baseColor accentColor : THREE.Color) (size : num)
    (shape : jsval) : ParticleShaderMaterial.uniforms :=
  ParticleShaderMaterial.mkUniforms (Fin 0) (num_or size (Fin 2)) baseColor
    accentColor
    (js_or (property ParticleShaderMaterial.shapeMap
              (to_key (js_or shape (JString "circle"))))
       (JNumber 0)).

(** [clone()]: a new material from this one's colors, global size and
    shape name, then given this one's time. *)
Definition cloneMaterial (m : ParticleShaderMaterial.uniforms)
    : ParticleShaderMaterial.uniforms :=
  let material :=
    newMaterial (ParticleShaderMaterial.u_baseColor m)
      (ParticleShaderMaterial.u_accentColor m)
      (ParticleShaderMaterial.globalSize m)
      (ParticleShaderMaterial.getShapeName m) in
  ParticleShaderMaterial.updateTime material (ParticleShaderMaterial.u_time m).

(** ** PresetManager

    The presets are kept in a [Map], which remembers insertion order: an
    association list with at most one entry per key.  A preset name is a
    string of 8-bit characters, which covers the names written in ASCII.
    The properties of a preset are the nine keys the manager itself
    writes, each present or absent; a color key that is present holds a
    color string that is not empty.  [localStorage] and the controls of
    the page are left out.  Two conversions of three.js are parameters:
    the color a color string denotes, and the hexadecimal string of a
    color. *)

(** The engine's [currentPreset], under a name the manager's own
    [currentPreset] field does not hide. *)
Definition engineCurrentPreset (engine : ParticleSystem) : string :=
  currentPreset engine.

Module PresetManager.

Record presetProperties : Type := mkPresetProperties {
  pp_baseColor : option string;
  pp_accentColor : option string;
  pp_particleSize : option num;
  pp_particleCount : option nat;
  pp_speed : option num;
  pp_rotationSpeed : option num;
  pp_colorTransition : option bool;
  pp_mouseInteraction : option bool;
  pp_particleShape : option string
}.

Record preset : Type := mkPreset {
  name : string;
  description : string;
  presetProps : presetProperties;
  animation : option string;
  isDefault : bool;
  stamp : option string          (* [created] or [imported] *)
}.

(** *** The [Map] *)

Fixpoint map_get (m : list (string * preset)) (key : string) : option preset :=
  match m with
  | [] => None
  | (k, v) :: m' => if String.eqb k key then Some v else map_get m' key
  end.

Definition map_has (m : list (string * preset)) (key : string) : bool :=
  match map_get m key with Some _ => true | None => false end.

(** [set]: the value of an existing key is replaced where it is, a new key
    goes to the end. *)
Fixpoint map_set (m : list (string * preset)) (key : string) (v : preset)
    : list (string * preset) :=
  match m with
  | [] => [(key, v)]
  | (k, w) :: m' =>
      if String.eqb k key then (k, v) :: m' else (k, w) :: map_set m' key v
  end.

Fixpoint map_delete (m : list (string * preset)) (key : string)
    : list (string * preset) :=
  match m with
  | [] => []
  | (k, w) :: m' =>
      if String.eqb k key then m' else (k, w) :: map_delete m' key
  end.

Record manager : Type := mkManager {
  presets : list (string * preset);
  currentPreset : option string
}.

(** *** loadDefaultPresets *)

Definition defaultPresets : list (string * preset) :=
  [("galaxy",
    mkPreset "Galaxy" "Rotating spiral galaxy with dynamic particles"
      (mkPresetProperties (Some "#667eea") (Some "#764ba2") (Some (Fin 1.5))
         (Some (8 * 1000)) (Some (Fin 0.8)) (Some (Fin 0.3)) (Some true) (Some true)
         (Some "circle"))
      (Some "galaxy") false None);
   ("nebula",
    mkPreset "Nebula" "Floating cosmic dust with organic movement"
      (mkPresetProperties (Some "#ff6b6b") (Some "#f093fb") (Some (Fin 2.5))
         (Some (6 * 1000)) (Some (Fin 1.2)) (Some (Fin 0.1)) (Some true) (Some true)
         (Some "circle"))
      (Some "nebula") false None);
   ("explosion",
    mkPreset "Explosion" "Explosive particle burst with high energy"
      (mkPresetProperties (Some "#feca57") (Some "#ff6b6b") (Some (Fin 3.0))
         (Some (10 * 1000)) (Some (Fin 2.0)) (Some (Fin 0.8)) (Some true)
         (Some false) (Some "star"))
      (Some "explosion") false None);
   ("wave",
    mkPreset "Wave" "Rhythmic wave patterns with fluid motion"
      (mkPresetProperties (Some "#4ecdc4") (Some "#44a08d") (Some (Fin 1.8))
         (Some (7 * 1000)) (Some (Fin 1.5)) (Some (Fin 0.2)) (Some true) (Some true)
         (Some "circle"))
      (Some "wave") false None);
   ("spiral",
    mkPreset "Spiral" "Mathematical spiral with precise geometry"
      (mkPresetProperties (Some "#a8edea") (Some "#fed6e3") (Some (Fin 2.2))
         (Some (5 * 1000)) (Some (Fin 1.0)) (Some (Fin 0.6)) (Some true) (Some true)
         (Some "square"))
      (Some "spiral") false None);
   ("aurora",
    mkPreset "Aurora" "Northern lights with ethereal beauty"
      (mkPresetProperties (Some "#00c9ff") (Some "#92fe9d") (Some (Fin 1.5))
         (Some (4 * 1000)) (Some (Fin 0.7)) (Some (Fin 0.1)) (Some true) (Some true)
         (Some "heart"))
      (Some "aurora") false None)].

(** [{ ...preset, isDefault: flag }] *)
Definition withDefault (flag : bool) (p : preset) : preset :=
  mkPreset (name p) (description p) (presetProps p) (animation p) flag
    (stamp p).

Definition loadDefaultPresets (mgr : manager) : manager :=
  mkManager
    (fold_left (fun m kp => map_set m (fst kp) (withDefault true (snd kp)))
       defaultPresets (presets mgr))
    (currentPreset mgr).

(** The constructor, without the user presets of [localStorage]. *)
Definition newManager : manager := loadDefaultPresets (mkManager [] None).

(** *** generatePresetKey *)

(** [toLowerCase()] on a character, then [/[^a-z0-9]/] replaced by ['_']. *)
Definition toLowerCase (c : Ascii.ascii) : Ascii.ascii :=
  let n := Ascii.nat_of_ascii c in
  if (65 <=? n) && (n <=? 90) then Ascii.ascii_of_nat (n + 32) else c.

Definition isKeyChar (c : Ascii.ascii) : bool :=
  let n := Ascii.nat_of_ascii c in
  ((97 <=? n) && (n <=? 122)) || ((48 <=? n) && (n <=? 57)).

(** The character ['_']. *)
Definition underscore : Ascii.ascii := Ascii.ascii_of_nat 95.

Fixpoint baseKeyOf (name : string) : string :=
  match name with
  | EmptyString => EmptyString
  | String c rest =>
      String (if isKeyChar (toLowerCase c) then toLowerCase c else underscore)
        (baseKeyOf rest)
  end.

(** The key tried at a value of the counter: [`${baseKey}_${counter}`]. *)
Definition numberedKey (baseKey : string) (counter : nat) : string :=
  baseKey +:+ "_" +:+ pretty counter.

(** The [while (this.presets.has(key))] loop, run for at most [fuel] more
    turns. *)
Fixpoint nextKey (fuel : nat) (m : list (string * preset))
    (baseKey key : string) (counter : nat) : option string :=
  if map_has m key then
    match fuel with
    | O => None
    | S fuel' =>
        nextKey fuel' m baseKey (numberedKey baseKey counter) (S counter)
    end
  else Some key.

Definition generatePresetKey (m : list (string * preset)) (name : string)
    : option string :=
  let baseKey := baseKeyOf name in
  nextKey (length m) m baseKey baseKey 1.

(** *** deletePreset *)

Definition deletePreset (presetKey : string) (mgr : manager) : bool * manager :=
  match map_get (presets mgr) presetKey with
  | None => (false, mgr)
  | Some p =>
      if isDefault p then (false, mgr)
      else (true, mkManager (map_delete (presets mgr) presetKey)
                    (currentPreset mgr))
  end.

Definition getPreset (presetKey : string) (mgr : manager) : option preset :=
  map_get (presets mgr) presetKey.

(** *** importPresets *)

(** A preset as the parsed JSON gives it: the name and the properties may
    be missing. *)
Record importedPreset : Type := mkImportedPreset {
  i_name : option string;
  i_description : string;
  i_properties : option presetProperties;
  i_animation : option string
}.

(** One turn of the [forEach] over [Object.entries(data.presets)], on the
    map and the count.  (The last branch is never taken: the key
    generation always returns.) *)
Definition importOne (now : string) (acc : list (string * preset) * nat)
    (entry : string * importedPreset) : list (string * preset) * nat :=
  let '(m, importedCount) := acc in
  match i_name (snd entry), i_properties (snd entry) with
  | Some nm, Some props =>
      if String.eqb nm "" then acc
      else
        match generatePresetKey m nm with
        | Some newKey =>
            (map_set m newKey
               (mkPreset nm (i_description (snd entry)) props
                  (i_animation (snd entry)) false (Some now)),
             S importedCount)
        | None => acc
        end
  | _, _ => acc
  end.

(** [importPresets], from the parsed data: [data.presets] may be missing. *)
Definition importPresets (now : string)
    (data : option (list (string * importedPreset))) (mgr : manager)
    : nat * manager :=
  match data with
  | Some entries =>
      let '(m, importedCount) :=
        fold_left (importOne now) entries (presets mgr, 0) in
      (importedCount, mkManager m (currentPreset mgr))
  | None => (0, mgr)
  end.

Section WithThree.

(** [new THREE.Color(string)] and [color.getHexString()]. *)
Variable Color_of_string : string -> THREE.Color.
Variable getHexString : THREE.Color -> string.

(** *** applyPreset *)

(** The property bag handed to the engine: the preset's properties, the
    color strings made colors. *)
Definition engineProperties (pp : presetProperties) : properties :=
  mkProperties (pp_particleCount pp) (pp_particleSize pp)
    (pp_particleShape pp)
    (Color_of_string <$> pp_baseColor pp)
    (Color_of_string <$> pp_accentColor pp)
    (pp_speed pp) (pp_rotationSpeed pp) (pp_colorTransition pp)
    (pp_mouseInteraction pp) None None.

Definition applyPreset (presetKey : string) (mgr : manager)
    (engine : ParticleSystem) : bool * manager * ParticleSystem :=
  match map_get (presets mgr) presetKey with
  | None => (false, mgr, engine)
  | Some p =>
      (* Apply properties to particle system *)
      let engine := updateProperties (engineProperties (presetProps p)) engine in
      (* Apply animation preset *)
      let engine :=
        match animation p with
        | Some a => if String.eqb a "" then engine else setPreset a engine
        | None => engine
        end in
      (true, mkManager (presets mgr) (Some presetKey), engine)
  end.

Definition resetToDefault (mgr : manager) (engine : ParticleSystem)
    : bool * manager * ParticleSystem :=
  applyPreset "galaxy" mgr engine.

(** *** createPreset *)

Definition getCurrentProperties (engine : ParticleSystem) : presetProperties :=
  mkPresetProperties
    (Some ("#" +:+ getHexString (baseColor engine)))
    (Some ("#" +:+ getHexString (accentColor engine)))
    (Some (particleSize engine)) (Some (particleCount engine))
    (Some (speed engine)) (Some (rotationSpeed engine))
    (Some (colorTransition engine)) (Some (mouseInteraction engine))
    (Some (particleShape engine)).

Definition createPreset (now : string) (nm descr : string) (mgr : manager)
    (engine : ParticleSystem) : option (string * manager) :=
  match generatePresetKey (presets mgr) nm with
  | Some presetKey =>
      Some (presetKey,
            mkManager
              (map_set (presets mgr) presetKey
                 (mkPreset nm descr (getCurrentProperties engine)
                    (Some (engineCurrentPreset engine)) false (Some now)))
              (currentPreset mgr))
  | None => None
  end.

End WithThree.

End PresetManager.

(** ** Vocabulary for the preset manager *)

(** Every character of a string is a lower-case letter, a digit or ['_']. *)
Fixpoint keyChars (s : string) : bool :=
  match s with
  | EmptyString => true
  | String c rest =>
      (PresetManager.isKeyChar c
       || Nat.eqb (Ascii.nat_of_ascii c) 95) && keyChars rest
  end.

(** An imported entry that [importPresets] accepts: it has a name that is
    not empty, and properties. *)
Definition acceptedEntry (entry : string * PresetManager.importedPreset)
    : bool :=
  match PresetManager.i_name (snd entry),
        PresetManager.i_properties (snd entry) with
  | Some nm, Some _ => negb (String.eqb nm "")
  | _, _ => false
  end.

(** What a user can do to the presets of a manager. *)
Inductive presetAction : Type :=
| ImportPresets (now : string)
    (data : option (list (string * PresetManager.importedPreset)))
| DeletePreset (presetKey : string)
| CreatePreset (now name description : string) (engine : ParticleSystem).

Definition performAction (getHexString : THREE.Color -> string)
    (mgr : PresetManager.manager) (a : presetAction)
    : PresetManager.manager :=
  match a with
  | ImportPresets now data => snd (PresetManager.importPresets now data mgr)
  | DeletePreset presetKey => snd (PresetManager.deletePreset presetKey mgr)
  | CreatePreset now name description engine =>
      match PresetManager.createPreset getHexString now name description mgr
              engine with
      | Some (_, mgr') => mgr'
      | None => mgr
      end
  end.

(** ** PerformanceMonitor (src/js/utils/PerformanceMonitor.js)

    Clock readings ([performance.now()]) are reals.  A rate is 1000
    divided by the difference of two readings: a real, or [Infinity] when
    the two readings coincide.  Sums, quotients by a length, minima,
    maxima and roundings of such rates are again reals or [Infinity], so
    these are all the numbers the monitor holds; as everywhere in this
    development, arithmetic is exact.

    A callback is a function, known by its identity; what it does with the
    statistics it is given is its own business, and it is taken not to
    call back into the monitor.  The calls made are recorded in [calls]. *)
Module PerformanceMonitor.

Inductive rate : Type :=
| Rate (r : R)
| Infinity.

(** [1000 / deltaTime] *)
Definition rate_of_delta (deltaTime : R) : rate :=
  if Req_dec_T deltaTime 0 then Infinity else Rate (1000 / deltaTime)%R.

Definition rate_add (a b : rate) : rate :=
  match a, b with
  | Rate x, Rate y => Rate (x + y)%R
  | _, _ => Infinity
  end.

(** [sum / length], for a length that is not zero *)
Definition rate_div (a : rate) (n : nat) : rate :=
  match a with
  | Rate x => Rate (x / INR n)%R
  | Infinity => Infinity
  end.

(** [Math.round]: the nearest integer, halves going up. *)
Definition Math_round (a : rate) : rate :=
  match a with
  | Rate x => Rate (IZR (Zfloor (x + 1 / 2)))
  | Infinity => Infinity
  end.

Definition min2 (a b : rate) : rate :=
  match a, b with
  | Rate x, Rate y => Rate (Rmin x y)
  | Rate x, Infinity => Rate x
  | Infinity, _ => b
  end.

Definition max2 (a b : rate) : rate :=
  match a, b with
  | Rate x, Rate y => Rate (Rmax x y)
  | _, _ => Infinity
  end.

(** [Math.min(...values)] starts from [Infinity]. *)
Definition Math_min (values : list rate) : rate :=
  fold_left min2 values Infinity.

(** [Math.max(...values)] of a list that is not empty, given as its first
    value and the rest. *)
Definition Math_max (value : rate) (values : list rate) : rate :=
  fold_left max2 values value.

(** [values.reduce((sum, fps) => sum + fps, 0)] *)
Definition reduce_sum (values : list rate) : rate :=
  fold_left rate_add values (Rate 0).

Module Stats.
Record t : Type := mk {
  fps : rate;
  avgFps : rate;
  minFps : rate;
  maxFps : rate;
  frameTime : R
}.
End Stats.

Definition initialStats : Stats.t :=
  Stats.mk (Rate 60) (Rate 60) (Rate 60) (Rate 60) (1667 / 100)%R.

Record monitor : Type := mkMonitor {
  isRunning : bool;
  frameCount : nat;
  lastTime : R;
  deltaTime : R;
  fps : rate;
  fpsHistory : list rate;
  maxHistoryLength : nat;
  callbacks : list nat;
  stats : Stats.t;
  animationId : option nat;
  (* the host *)
  frameRequests : list nat;
  nextRequestId : nat;
  calls : list (nat * Stats.t)
}.

Definition set_isRunning (v : bool) (m : monitor) : monitor :=
  mkMonitor v (frameCount m) (lastTime m) (deltaTime m) (fps m)
    (fpsHistory m) (maxHistoryLength m) (callbacks m) (stats m)
    (animationId m) (frameRequests m) (nextRequestId m) (calls m).

Definition set_frameCount (v : nat) (m : monitor) : monitor :=
  mkMonitor (isRunning m) v (lastTime m) (deltaTime m) (fps m)
    (fpsHistory m) (maxHistoryLength m) (callbacks m) (stats m)
    (animationId m) (frameRequests m) (nextRequestId m) (calls m).

Definition set_lastTime (v : R) (m : monitor) : monitor :=
  mkMonitor (isRunning m) (frameCount m) v (deltaTime m) (fps m)
    (fpsHistory m) (maxHistoryLength m) (callbacks m) (stats m)
    (animationId m) (frameRequests m) (nextRequestId m) (calls m).

Definition set_deltaTime (v : R) (m : monitor) : monitor :=
  mkMonitor (isRunning m) (frameCount m) (lastTime m) v (fps m)
    (fpsHistory m) (maxHistoryLength m) (callbacks m) (stats m)
    (animationId m) (frameRequests m) (nextRequestId m) (calls m).

Definition set_fps (v : rate) (m : monitor) : monitor :=
  mkMonitor (isRunning m) (frameCount m) (lastTime m) (deltaTime m) v
    (fpsHistory m) (maxHistoryLength m) (callbacks m) (stats m)
    (animationId m) (frameRequests m) (nextRequestId m) (calls m).

Definition set_fpsHistory (v : list rate) (m : monitor) : monitor :=
  mkMonitor (isRunning m) (frameCount m) (lastTime m) (deltaTime m) (fps m)
    v (maxHistoryLength m) (callbacks m) (stats m)
    (animationId m) (frameRequests m) (nextRequestId m) (calls m).

Definition set_callbacks (v : list nat) (m : monitor) : monitor :=
  mkMonitor (isRunning m) (frameCount m) (lastTime m) (deltaTime m) (fps m)
    (fpsHistory m) (maxHistoryLength m) v (stats m)
    (animationId m) (frameRequests m) (nextRequestId m) (calls m).

Definition set_stats (v : Stats.t) (m : monitor) : monitor :=
  mkMonitor (isRunning m) (frameCount m) (lastTime m) (deltaTime m) (fps m)
    (fpsHistory m) (maxHistoryLength m) (callbacks m) v
    (animationId m) (frameRequests m) (nextRequestId m) (calls m).

Definition set_animationId (v : option nat) (m : monitor) : monitor :=
  mkMonitor (isRunning m) (frameCount m) (lastTime m) (deltaTime m) (fps m)
    (fpsHistory m) (maxHistoryLength m) (callbacks m) (stats m)
    v (frameRequests m) (nextRequestId m) (calls m).

Definition set_frameRequests (v : list nat) (m : monitor) : monitor :=
  mkMonitor (isRunning m) (frameCount m) (lastTime m) (deltaTime m) (fps m)
    (fpsHistory m) (maxHistoryLength m) (callbacks m) (stats m)
    (animationId m) v (nextRequestId m) (calls m).

Definition set_nextRequestId (v : nat) (m : monitor) : monitor :=
  mkMonitor (isRunning m) (frameCount m) (lastTime m) (deltaTime m) (fps m)
    (fpsHistory m) (maxHistoryLength m) (callbacks m) (stats m)
    (animationId m) (frameRequests m) v (calls m).

Definition set_calls (v : list (nat * Stats.t)) (m : monitor) : monitor :=
  mkMonitor (isRunning m) (frameCount m) (lastTime m) (deltaTime m) (fps m)
    (fpsHistory m) (maxHistoryLength m) (callbacks m) (stats m)
    (animationId m) (frameRequests m) (nextRequestId m) v.

(** The constructor; [firstId] is the identifier the host will give to the
    next animation frame request. *)
Definition new (firstId : nat) : monitor :=
  mkMonitor false 0 0%R 0%R (Rate 60) [] 60 [] initialStats None
    [] firstId [].

Definition requestAnimationFrame (m : monitor) : nat * monitor :=
  (nextRequestId m,
   set_nextRequestId (S (nextRequestId m))
     (set_frameRequests (frameRequests m ++ [nextRequestId m]) m)).

Definition cancelAnimationFrame (id : nat) (m : monitor) : monitor :=
  set_frameRequests (filter (fun k => k <> id) (frameRequests m)) m.

Definition updateStats (m : monitor) : monitor :=
  let s := stats m in
  let s := Stats.mk (Math_round (fps m)) (Stats.avgFps s) (Stats.minFps s)
             (Stats.maxFps s) (Stats.frameTime s) in
  let s := Stats.mk (Stats.fps s) (Stats.avgFps s) (Stats.minFps s)
             (Stats.maxFps s) (deltaTime m) in
  match fpsHistory m with
  | [] => set_stats s m
  | value :: values =>
      let avg :=
        Math_round (rate_div (reduce_sum (fpsHistory m))
                      (length (fpsHistory m))) in
      let s := Stats.mk (Stats.fps s) avg (Stats.minFps s) (Stats.maxFps s)
                 (Stats.frameTime s) in
      let s := Stats.mk (Stats.fps s) (Stats.avgFps s)
                 (Math_round (Math_min (fpsHistory m))) (Stats.maxFps s)
                 (Stats.frameTime s) in
      let s := Stats.mk (Stats.fps s) (Stats.avgFps s) (Stats.minFps s)
                 (Math_round (Math_max value values)) (Stats.frameTime s) in
      set_stats s m
  end.

Definition notifyCallbacks (m : monitor) : monitor :=
  set_calls (calls m ++ map (fun callback => (callback, stats m))
                          (callbacks m)) m.

(** [update()], with the clock reading it takes. *)
Definition update (currentTime : R) (m : monitor) : monitor :=
  if negb (isRunning m) then m
  else
    let m := set_deltaTime (currentTime - lastTime m)%R m in
    let m := set_lastTime currentTime m in
    let m := set_fps (rate_of_delta (deltaTime m)) m in
    let m := set_fpsHistory (fpsHistory m ++ [fps m]) m in
    let m :=
      if (maxHistoryLength m <? length (fpsHistory m))%nat
      then set_fpsHistory (tail (fpsHistory m)) m
      else m in
    let m := set_frameCount (S (frameCount m)) m in
    let m :=
      if (frameCount m mod 10 =? 0)%nat
      then notifyCallbacks (updateStats m)
      else m in
    let '(id, m) := requestAnimationFrame m in
    set_animationId (Some id) m.

(** [start(callback)]: [now] is the clock reading [start] takes and
    [currentTime] the one [update] takes right after; [callback] is [None]
    when the argument is missing or no function. *)
Definition start (now currentTime : R) (callback : option nat)
    (m : monitor) : monitor :=
  if isRunning m then m
  else
    let m := set_isRunning true m in
    let m := set_lastTime now m in
    let m :=
      match callback with
      | Some c => set_callbacks (callbacks m ++ [c]) m
      | None => m
      end in
    update currentTime m.

Definition stop (m : monitor) : monitor :=
  if negb (isRunning m) then m
  else
    let m := set_isRunning false m in
    match animationId m with
    | Some id =>
        if Nat.eqb id 0 then m
        else set_animationId None (cancelAnimationFrame id m)
    | None => m
    end.

Definition addCallback (callback : option nat) (m : monitor) : monitor :=
  match callback with
  | Some c => set_callbacks (callbacks m ++ [c]) m
  | None => m
  end.

Fixpoint indexOf (c : nat) (l : list nat) : option nat :=
  match l with
  | [] => None
  | x :: l' => if Nat.eqb x c then Some 0%nat else S <$> indexOf c l'
  end.

Definition removeCallback (callback : nat) (m : monitor) : monitor :=
  match indexOf callback (callbacks m) with
  | Some index => set_callbacks (delete index (callbacks m)) m
  | None => m
  end.

Definition getStats (m : monitor) : Stats.t := stats m.

Definition reset (m : monitor) : monitor :=
  set_stats initialStats (set_fpsHistory [] (set_frameCount 0 m)).

(** The host runs the oldest request, [() => this.update()]. *)
Definition hostFrame (currentTime : R) (m : monitor) : monitor :=
  match frameRequests m with
  | [] => m
  | _ :: requests => update currentTime (set_frameRequests requests m)
  end.

Inductive event : Type :=
| Start (now currentTime : R) (callback : option nat)
| Stop
| Frame (currentTime : R)
| AddCallback (callback : option nat)
| RemoveCallback (callback : nat)
| Reset.

Definition step (m : monitor) (e : event) : monitor :=
  match e with
  | Start now currentTime callback => start now currentTime callback m
  | Stop => stop m
  | Frame currentTime => hostFrame currentTime m
  | AddCallback callback => addCallback callback m
  | RemoveCallback callback => removeCallback callback m
  | Reset => reset m
  end.

Definition run (events : list event) (m : monitor) : monitor :=
  fold_left step events m.

(** Successive calls of [update], one per clock reading. *)
Definition updates (readings : list R) (m : monitor) : monitor :=
  fold_left (fun m currentTime => update currentTime m) readings m.

(** The rates measured between successive clock readings. *)
Fixpoint samples (lastTime : R) (readings : list R) : list rate :=
  match readings with
  | [] => []
  | t :: readings' => rate_of_delta (t - lastTime) :: samples t readings'
  end.

(** The last [n] elements of a list. *)
Definition lastn {A} (n : nat) (l : list A) : list A :=
  drop (length l - n) l.

Definition rate_le (a b : rate) : Prop :=
  match a, b with
  | Rate x, Rate y => (x <= y)%R
  | _, Infinity => True
  | Infinity, Rate _ => False
  end.

(** The history after one call of [update]. *)
Definition pushed (t : R) (m : monitor) : list rate :=
  let h := fpsHistory m ++ [rate_of_delta (t - lastTime m)] in
  if (maxHistoryLength m <? length h)%nat then tail h else h.

(** One frame loop: while the monitor runs, the host holds exactly the
    request the monitor remembers; while it does not, none. *)
Definition loop_ok (m : monitor) : Prop :=
  (0 < nextRequestId m)%nat
  /\ if isRunning m
     then exists id, (0 < id)%nat /\ animationId m = Some id
                     /\ frameRequests m = [id]
     else animationId m = None /\ frameRequests m = [].

End PerformanceMonitor.

(** * Properties *)

(** ** Arithmetic on finite numbers *)

Lemma Math_sqrt_nonneg (u : R) :
  (0 <= u)%R -> Math_sqrt (Fin u) = Fin (sqrt u).
Proof.
  intros Hu. unfold Math_sqrt.
  destruct (Rlt_dec u 0) as [Hneg | _]; [lra | reflexivity].
Qed.

Lemma div_nonzero (u v : R) :
  v <> 0%R -> (Fin u / Fin v)%num = Fin (u / v).
Proof.
  intros Hv. unfold div.
  destruct (Req_dec_T v 0) as [Hz | _]; [contradiction | reflexivity].
Qed.

Lemma num_or_one (u : R) :
  exists w : R, num_or (Fin u) (Fin 1) = Fin w /\ w <> 0%R
                /\ (u <> 0%R -> w = u) /\ (u = 0%R -> w = 1%R).
Proof.
  unfold num_or. destruct (Req_dec_T u 0) as [Hz | Hnz].
  - exists 1%R. repeat split; [lra | intros; contradiction].
  - exists u. repeat split; [assumption | intros; contradiction].
Qed.

Lemma sumsq2_nonneg (u v : R) : (0 <= u * u + v * v)%R.
Proof. nra. Qed.

Lemma sumsq3_nonneg (u v w : R) : (0 <= u * u + v * v + w * w)%R.
Proof. nra. Qed.

Lemma sin_cos_sq (a : R) : (sin a * sin a + cos a * cos a = 1)%R.
Proof. generalize (sin2_cos2 a). unfold Rsqr. lra. Qed.

(** Rotating a point of the plane about the origin keeps its distance. *)
Lemma polar_radius (rad a : R) :
  (0 <= rad)%R ->
  sqrt (rad * cos a * (rad * cos a) + rad * sin a * (rad * sin a))%R = rad.
Proof.
  intros Hr.
  replace (rad * cos a * (rad * cos a) + rad * sin a * (rad * sin a))%R
    with (rad * rad)%R.
  - apply sqrt_square, Hr.
  - generalize (sin_cos_sq a). intros H. nra.
Qed.

(** ** The spiral preset *)

(** C2. One application of the spiral preset to a position [(px, py, pz)]
    at any time and index keeps [py] and keeps the distance of [(px, pz)]
    from the vertical axis: the radius recomputed from the new coordinates
    is the radius before (exactly so in real arithmetic). *)
Theorem spiral_preserves_height_and_radius (px py pz t : R) (i : nat) :
  exists px' pz' : R,
    applySpiralAnimation (THREE.mkVector3 px py pz) i t = THREE.mkVector3 px' py pz'
    /\ sqrt (px' * px' + pz' * pz') = sqrt (px * px + pz * pz)
    /\ Math_sqrt (Fin px' * Fin px' + Fin pz' * Fin pz')%num
       = Math_sqrt (Fin px * Fin px + Fin pz * Fin pz)%num.
Proof.
  set (rad := sqrt (px * px + pz * pz)%R).
  set (a := (atan2 pz px + t * 0.5 + py * 0.01)%R).
  exists (rad * cos a)%R, (rad * sin a)%R.
  assert (Hrad : (0 <= rad)%R) by apply sqrt_pos.
  assert (Hkeep : sqrt (rad * cos a * (rad * cos a) + rad * sin a * (rad * sin a))%R
                  = rad) by (apply polar_radius, Hrad).
  split; [| split].
  - unfold applySpiralAnimation. cbn.
    destruct (Rlt_dec (px * px + pz * pz) 0) as [Hneg | _]; [| reflexivity].
    exfalso. generalize (sumsq2_nonneg px pz). lra.
  - exact Hkeep.
  - change (Math_sqrt (Fin (rad * cos a * (rad * cos a)
                            + rad * sin a * (rad * sin a)))
            = Math_sqrt (Fin (px * px + pz * pz))).
    rewrite !Math_sqrt_nonneg by apply sumsq2_nonneg.
    f_equal. exact Hkeep.
Qed.

(** ** The explosion preset *)

Lemma explosionFactor_bounds (t : R) : (0 <= explosionFactor t <= 1)%R.
Proof.
  unfold explosionFactor. generalize (SIN_bound (t * 0.5)). lra.
Qed.

Lemma norm_nonneg (px py pz : R) : (0 <= norm px py pz)%R.
Proof. apply sqrt_pos. Qed.

Lemma norm_sq (px py pz : R) :
  (norm px py pz * norm px py pz = px * px + py * py + pz * pz)%R.
Proof. apply sqrt_sqrt, sumsq3_nonneg. Qed.

(** Moving a point away from the origin by [c] along its own direction
    adds [c] to its distance from the origin. *)
Lemma norm_pushed (px py pz c : R) :
  norm px py pz <> 0%R -> (0 <= c)%R ->
  norm (px + px * (1 / norm px py pz) * c)
       (py + py * (1 / norm px py pz) * c)
       (pz + pz * (1 / norm px py pz) * c)
  = (norm px py pz + c)%R.
Proof.
  intros Hnz Hc.
  set (len := norm px py pz) in *.
  assert (Hlen : (0 <= len)%R) by apply norm_nonneg.
  assert (Hsq : (len * len = px * px + py * py + pz * pz)%R) by apply norm_sq.
  assert (Hk : (len * (1 / len) = 1)%R) by (field; exact Hnz).
  set (k := (1 / len)%R) in *.
  unfold norm at 1.
  replace ((px + px * k * c) * (px + px * k * c)
           + (py + py * k * c) * (py + py * k * c)
           + (pz + pz * k * c) * (pz + pz * k * c))%R
    with ((px * px + py * py + pz * pz) * ((1 + k * c) * (1 + k * c)))%R by ring.
  rewrite <- Hsq.
  replace (len * len * ((1 + k * c) * (1 + k * c)))%R
    with ((len + len * k * c) * (len + len * k * c))%R by ring.
  rewrite Hk, Rmult_1_l. apply sqrt_square. lra.
Qed.

(** One application of the preset away from the origin. *)
Lemma explosion_apply (px py pz t : R) (i : nat) :
  norm px py pz <> 0%R ->
  applyExplosionAnimation (THREE.mkVector3 px py pz) i t
  = THREE.mkVector3
      (px + px * (1 / norm px py pz) * (explosionFactor t * 2))%R
      (py + py * (1 / norm px py pz) * (explosionFactor t * 2))%R
      (pz + pz * (1 / norm px py pz) * (explosionFactor t * 2))%R.
Proof.
  intros Hnz.
  unfold applyExplosionAnimation, THREE.normalize, THREE.clone,
    THREE.divideScalar, THREE.length.
  cbn.
  destruct (Rlt_dec (px * px + py * py + pz * pz) 0) as [Hneg | _].
  { exfalso. generalize (sumsq3_nonneg px py pz). lra. }
  cbn. fold (norm px py pz).
  destruct (Req_dec_T (norm px py pz) 0) as [Hz | _]; [contradiction |].
  cbn.
  destruct (Req_dec_T (norm px py pz) 0) as [Hz | _]; [contradiction |].
  reflexivity.
Qed.

(** At the origin the direction is the zero vector: nothing moves. *)
Lemma explosion_apply_origin (t : R) (i : nat) :
  applyExplosionAnimation (THREE.mkVector3 0%R 0%R 0%R) i t
  = THREE.mkVector3 (0 + 0 * (1 / 1) * (explosionFactor t * 2))%R
              (0 + 0 * (1 / 1) * (explosionFactor t * 2))%R
              (0 + 0 * (1 / 1) * (explosionFactor t * 2))%R.
Proof.
  unfold applyExplosionAnimation, THREE.normalize, THREE.clone,
    THREE.divideScalar, THREE.length.
  cbn.
  destruct (Rlt_dec (0 * 0 + 0 * 0 + 0 * 0) 0) as [Hneg | _]; [lra |].
  cbn.
  destruct (Req_dec_T (sqrt (0 * 0 + 0 * 0 + 0 * 0)) 0) as [_ | Hnz].
  - cbn. destruct (Req_dec_T 1 0) as [H10 | _]; [lra | reflexivity].
  - exfalso. apply Hnz.
    replace (0 * 0 + 0 * 0 + 0 * 0)%R with 0%R by ring. apply sqrt_0.
Qed.

(** ** The update loop, particle by particle *)

Lemma for_loop_invariant {A : Type} (P : A -> Prop) (body : nat -> A -> A)
    (n start : nat) (a : A) :
  (forall i a', start <= i < start + n -> P a' -> P (body i a')) ->
  P a -> P (for_loop n start body a).
Proof.
  revert start a. induction n as [| n IH]; intros start a Hbody Ha; cbn.
  - exact Ha.
  - apply IH.
    + intros i a' Hi. apply Hbody. lia.
    + apply Hbody; [lia | exact Ha].
Qed.

Lemma updateParticle_phase (s : ParticleSystem) (i : nat) (geo : Geometry) :
  phase (updateParticle s i geo) = phase geo.
Proof. reflexivity. Qed.

Lemma updateParticle_size (s : ParticleSystem) (i : nat) (geo : Geometry) :
  size (updateParticle s i geo) = size geo.
Proof. reflexivity. Qed.

Lemma updateParticle_velocity (s : ParticleSystem) (i : nat) (geo : Geometry) :
  velocity (updateParticle s i geo) = velocity geo.
Proof. reflexivity. Qed.

Lemma updateParticle_position_length (s : ParticleSystem) (i : nat)
    (geo : Geometry) :
  length (position (updateParticle s i geo)) = length (position geo).
Proof. unfold updateParticle. cbn. rewrite !length_insert. reflexivity. Qed.

Lemma updateParticle_color_length (s : ParticleSystem) (i : nat)
    (geo : Geometry) :
  length (color (updateParticle s i geo)) = length (color geo).
Proof.
  unfold updateParticle. cbn.
  destruct (colorTransition s); [rewrite !length_insert |]; reflexivity.
Qed.

(** A turn of the loop writes the three coordinates of its own particle
    only. *)
Lemma updateParticle_position_other (s : ParticleSystem) (j : nat)
    (geo : Geometry) (idx : nat) :
  ~ (j * 3 <= idx < j * 3 + 3) ->
  position (updateParticle s j geo) !! idx = position geo !! idx.
Proof.
  intros Hout. unfold updateParticle. cbn.
  rewrite !list_lookup_insert_ne by lia. reflexivity.
Qed.

(** What a turn writes depends on the arrays only through the coordinates
    and the phase of its own particle. *)
Lemma updateParticle_position_local (s : ParticleSystem) (i : nat)
    (geo geo' : Geometry) (idx : nat) :
  phase geo = phase geo' ->
  length (position geo) = length (position geo') ->
  (forall k, i * 3 <= k < i * 3 + 3 -> position geo !! k = position geo' !! k) ->
  i * 3 <= idx < i * 3 + 3 ->
  position (updateParticle s i geo) !! idx
  = position (updateParticle s i geo') !! idx.
Proof.
  intros Hph Hlen Hsame Hidx. unfold updateParticle. cbn.
  unfold get. rewrite <- Hph.
  rewrite <- !(Hsame (i * 3)) by lia.
  rewrite <- !(Hsame (i * 3 + 1)) by lia.
  rewrite <- !(Hsame (i * 3 + 2)) by lia.
  rewrite !list_lookup_insert, !length_insert, <- Hlen.
  repeat case_decide; try reflexivity; try lia.
  apply Hsame, Hidx.
Qed.

(** Later turns leave the coordinates of an earlier particle alone. *)
Lemma for_loop_position_before (s : ParticleSystem) (n start : nat)
    (geo : Geometry) (idx : nat) :
  idx < start * 3 ->
  position (for_loop n start (updateParticle s) geo) !! idx
  = position geo !! idx.
Proof.
  revert start geo. induction n as [| n IH]; intros start geo Hidx; cbn.
  - reflexivity.
  - rewrite IH by lia. apply updateParticle_position_other. lia.
Qed.

Lemma for_loop_phase (s : ParticleSystem) (n start : nat) (geo : Geometry) :
  phase (for_loop n start (updateParticle s) geo) = phase geo.
Proof.
  apply (for_loop_invariant (fun g => phase g = phase geo)); [| reflexivity].
  intros i g _ Hg. rewrite updateParticle_phase. exact Hg.
Qed.

Lemma for_loop_position_length (s : ParticleSystem) (n start : nat)
    (geo : Geometry) :
  length (position (for_loop n start (updateParticle s) geo))
  = length (position geo).
Proof.
  apply (for_loop_invariant
           (fun g => length (position g) = length (position geo)));
    [| reflexivity].
  intros i g _ Hg. rewrite updateParticle_position_length. exact Hg.
Qed.

(** After the loop, the coordinates of particle [i] are those that turn
    [i] computes from the arrays as they were before the loop. *)
Lemma for_loop_position_at (s : ParticleSystem) (n start : nat)
    (geo : Geometry) (i idx : nat) :
  start <= i < start + n ->
  i * 3 <= idx < i * 3 + 3 ->
  position (for_loop n start (updateParticle s) geo) !! idx
  = position (updateParticle s i geo) !! idx.
Proof.
  revert start geo. induction n as [| n IH]; intros start geo Hi Hidx; cbn.
  - lia.
  - destruct (decide (i = start)) as [-> | Hne].
    + apply for_loop_position_before. lia.
    + rewrite IH by lia.
      apply updateParticle_position_local.
      * apply updateParticle_phase.
      * apply updateParticle_position_length.
      * intros k Hk. apply updateParticle_position_other. lia.
      * exact Hidx.
Qed.

Lemma lookup_insert3 (l : list num) (i3 : nat) (a b c : num) :
  i3 + 2 < length l ->
  let l' := <[i3 + 2 := c]> (<[i3 + 1 := b]> (<[i3 := a]> l)) in
  l' !! i3 = Some a /\ l' !! (i3 + 1) = Some b /\ l' !! (i3 + 2) = Some c.
Proof.
  intros Hlen l'. unfold l'.
  rewrite !list_lookup_insert, !length_insert.
  repeat case_decide; try lia. auto.
Qed.

Lemma positions_updateParticles (s : ParticleSystem) (pts : Points) :
  particles s = Some pts ->
  positions (updateParticles s)
  = Some (position (for_loop (particleCount s) 0 (updateParticle s)
                      (particleGeometry pts))).
Proof.
  intros Hp. unfold updateParticles. rewrite Hp. reflexivity.
Qed.

(** The explosion preset inside a frame: with the pointer repulsion off,
    [updateParticles] stores, for a particle held at [(px, py, pz)] away
    from the origin, that position displaced by the preset, plus the
    jitter. *)
Lemma updateParticles_explosion (s : ParticleSystem) (pts : Points)
    (i : nat) (px py pz ph t : R) :
  currentPreset s = "explosion" ->
  mouseInteraction s = false ->
  time s = Fin t ->
  particles s = Some pts ->
  i < particleCount s ->
  position (particleGeometry pts) !! (i * 3) = Some (Fin px) ->
  position (particleGeometry pts) !! (i * 3 + 1) = Some (Fin py) ->
  position (particleGeometry pts) !! (i * 3 + 2) = Some (Fin pz) ->
  phase (particleGeometry pts) !! i = Some (Fin ph) ->
  norm px py pz <> 0%R ->
  exists l : list num,
    positions (updateParticles s) = Some l
    /\ l !! (i * 3)
       = Some (Fin (px + px * (1 / norm px py pz) * (explosionFactor t * 2)
                    + sin (t + ph) * 0.5)%R)
    /\ l !! (i * 3 + 1)
       = Some (Fin (py + py * (1 / norm px py pz) * (explosionFactor t * 2)
                    + cos (t + ph) * 0.5)%R)
    /\ l !! (i * 3 + 2)
       = Some (Fin (pz + pz * (1 / norm px py pz) * (explosionFactor t * 2)
                    + sin (t * 0.5 + ph) * 0.3)%R).
Proof.
  intros Hpreset Hmouse Htime Hpts Hi Hx Hy Hz Hph Hnz.
  eexists. split; [apply positions_updateParticles, Hpts |].
  assert (Hlen : i * 3 + 2 < length (position (particleGeometry pts))).
  { apply lookup_lt_is_Some. eauto. }
  rewrite !(for_loop_position_at s _ 0 _ i) by lia.
  unfold updateParticle.
  rewrite Hpreset, Hmouse, Htime. unfold get. rewrite Hx, Hy, Hz, Hph.
  cbn [default from_option applyPresetAnimation String.eqb Ascii.eqb Bool.eqb].
  unfold Datatypes.id.
  rewrite (explosion_apply px py pz t i Hnz).
  cbn [position THREE.x THREE.y THREE.z].
  apply lookup_insert3. exact Hlen.
Qed.

Lemma explosions_norm (i : nat) (ts : list R) (px py pz : R) :
  (0 < norm px py pz)%R ->
  exists qx qy qz : R,
    explosions i ts (THREE.mkVector3 px py pz) = THREE.mkVector3 qx qy qz
    /\ norm qx qy qz = (norm px py pz + totalPush ts)%R.
Proof.
  revert px py pz. induction ts as [| t ts IH]; intros px py pz Hpos.
  - exists px, py, pz. cbn. split; [reflexivity | lra].
  - assert (Hnz : norm px py pz <> 0%R) by lra.
    assert (Hf := explosionFactor_bounds t).
    assert (Hstep : norm (px + px * (1 / norm px py pz) * (explosionFactor t * 2))
                         (py + py * (1 / norm px py pz) * (explosionFactor t * 2))
                         (pz + pz * (1 / norm px py pz) * (explosionFactor t * 2))
                    = (norm px py pz + explosionFactor t * 2)%R).
    { apply norm_pushed; [exact Hnz | lra]. }
    unfold explosions. cbn [fold_left].
    rewrite (explosion_apply px py pz t i Hnz).
    fold (explosions i ts).
    destruct (IH (px + px * (1 / norm px py pz) * (explosionFactor t * 2))%R
                 (py + py * (1 / norm px py pz) * (explosionFactor t * 2))%R
                 (pz + pz * (1 / norm px py pz) * (explosionFactor t * 2))%R)
      as (qx & qy & qz & Hq & Hn).
    { rewrite Hstep. lra. }
    exists qx, qy, qz. split; [exact Hq |].
    rewrite Hn, Hstep.
    change (totalPush (t :: ts)) with (explosionFactor t * 2 + totalPush ts)%R.
    lra.
Qed.

Lemma sample_norm : norm 30 0 40 <> 0%R.
Proof.
  assert (H : (0 < norm 30 0 40)%R) by (apply sqrt_lt_R0; lra). lra.
Qed.

(** C4. The explosion preset computes the factor [sin(time*0.5)*0.5 + 0.5],
    which lies in [0,1], and adds twice that factor along the particle's
    normalized direction from the origin to the position it is given; inside
    a frame that position is the one stored by the frame before (displaced
    already), so each frame adds twice its factor to the particle's
    distance from the origin and the displacements accumulate. *)
Theorem explosion_displacement_compounds (s : ParticleSystem) (pts : Points)
    (i : nat) (px py pz ph t : R) :
  currentPreset s = "explosion" ->
  mouseInteraction s = false ->
  time s = Fin t ->
  particles s = Some pts ->
  i < particleCount s ->
  position (particleGeometry pts) !! (i * 3) = Some (Fin px) ->
  position (particleGeometry pts) !! (i * 3 + 1) = Some (Fin py) ->
  position (particleGeometry pts) !! (i * 3 + 2) = Some (Fin pz) ->
  phase (particleGeometry pts) !! i = Some (Fin ph) ->
  norm px py pz <> 0%R ->
  let f := explosionFactor t in
  let qx := (px + px * (1 / norm px py pz) * (f * 2))%R in
  let qy := (py + py * (1 / norm px py pz) * (f * 2))%R in
  let qz := (pz + pz * (1 / norm px py pz) * (f * 2))%R in
  f = (sin (t * 0.5) * 0.5 + 0.5)%R
  /\ (0 <= f <= 1)%R
  /\ applyExplosionAnimation (THREE.mkVector3 px py pz) i t
     = THREE.mkVector3 qx qy qz
  /\ norm qx qy qz = (norm px py pz + f * 2)%R
  /\ (exists l : list num,
        positions (updateParticles s) = Some l
        /\ l !! (i * 3) = Some (Fin (qx + sin (t + ph) * 0.5)%R)
        /\ l !! (i * 3 + 1) = Some (Fin (qy + cos (t + ph) * 0.5)%R)
        /\ l !! (i * 3 + 2) = Some (Fin (qz + sin (t * 0.5 + ph) * 0.3)%R))
  /\ (forall ts : list R,
        exists rx ry rz : R,
          explosions i ts (THREE.mkVector3 px py pz) = THREE.mkVector3 rx ry rz
          /\ norm rx ry rz = (norm px py pz + totalPush ts)%R).
Proof.
  intros Hpreset Hmouse Htime Hpts Hi Hx Hy Hz Hph Hnz f qx qy qz.
  assert (Hf : (0 <= f <= 1)%R) by apply explosionFactor_bounds.
  split; [reflexivity |]. split; [exact Hf |].
  split; [apply explosion_apply, Hnz |].
  split; [apply norm_pushed; [exact Hnz | lra] |].
  split.
  - apply (updateParticles_explosion s pts i px py pz ph t); assumption.
  - intros ts. apply explosions_norm.
    generalize (norm_nonneg px py pz). lra.
Qed.

Lemma explosion_displacement_compounds_witness :
  let s := setPreset "explosion"
             (Object_assign sampleEngine
                (mkProperties None None None None None None None None
                   (Some false) None None)) in
  exists l : list num,
    positions (updateParticles s) = Some l
    /\ l !! 0
       = Some (Fin (30 + 30 * (1 / norm 30 0 40) * (explosionFactor 0 * 2)
                    + sin (0 + 1) * 0.5)%R).
Proof.
  intros s.
  destruct (explosion_displacement_compounds s
              (mkPoints sampleGeometry sampleMaterial) 0 30 0 40 1 0)
    as (_ & _ & _ & _ & (l & Hl & Hl0 & _) & _);
    try reflexivity.
  - cbn. lia.
  - exact sample_norm.
  - exists l. split; [exact Hl | exact Hl0].
Defined.

(** ** Playback: elapsed time, pause and resume *)

(** [updateParticles] assigns nothing but the population. *)
Lemma updateParticles_frame (s : ParticleSystem) :
  updateParticles s = set_particles (particles (updateParticles s)) s.
Proof.
  unfold updateParticles. destruct s as [? ? ? ? ? ? ? ? ? ? ? ? ? ? ? [pts |] ? ? ?];
    reflexivity.
Qed.

Lemma time_updateParticles (s : ParticleSystem) :
  time (updateParticles s) = time s.
Proof. rewrite updateParticles_frame. reflexivity. Qed.

Lemma animate_paused (s : ParticleSystem) :
  isPlaying s = false -> animate s = s.
Proof. intros H. unfold animate. rewrite H. reflexivity. Qed.

Lemma time_animate (s : ParticleSystem) :
  isPlaying s = true -> time (animate s) = (time s + Fin 0.016 * speed s)%num.
Proof.
  intros H. unfold animate. rewrite H. cbn.
  rewrite time_updateParticles. reflexivity.
Qed.

Lemma speed_animate (s : ParticleSystem) : speed (animate s) = speed s.
Proof.
  unfold animate. destruct (isPlaying s); [| reflexivity]. cbn.
  rewrite updateParticles_frame. reflexivity.
Qed.

Lemma isPlaying_animate (s : ParticleSystem) :
  isPlaying (animate s) = isPlaying s.
Proof.
  unfold animate. destruct (isPlaying s) eqn:H; [| exact H]. cbn.
  rewrite updateParticles_frame. cbn. exact H.
Qed.

Lemma colorTransition_animate (s : ParticleSystem) :
  colorTransition (animate s) = colorTransition s.
Proof.
  unfold animate. destruct (isPlaying s); [| reflexivity]. cbn.
  rewrite updateParticles_frame. reflexivity.
Qed.

Lemma callbacks_snoc (timestamps : list num) (ts : num) (s : ParticleSystem) :
  callbacks (timestamps ++ [ts]) s = animate (callbacks timestamps s).
Proof. unfold callbacks. rewrite fold_left_app. reflexivity. Qed.

Lemma callbacks_playing (timestamps : list num) (s : ParticleSystem) :
  isPlaying (callbacks timestamps s) = isPlaying s
  /\ speed (callbacks timestamps s) = speed s
  /\ colorTransition (callbacks timestamps s) = colorTransition s.
Proof.
  induction timestamps as [| ts timestamps IH] using rev_ind.
  - auto.
  - rewrite callbacks_snoc, isPlaying_animate, speed_animate,
      colorTransition_animate. exact IH.
Qed.

Lemma time_callbacks (timestamps : list num) (s : ParticleSystem) (t0 v : R) :
  isPlaying s = true -> time s = Fin t0 -> speed s = Fin v ->
  time (callbacks timestamps s)
  = Fin (t0 + INR (length timestamps) * (0.016 * v))%R.
Proof.
  intros Hplay Ht Hv.
  induction timestamps as [| ts timestamps IH] using rev_ind.
  - cbn. rewrite Ht. f_equal. lra.
  - destruct (callbacks_playing timestamps s) as (Hp & Hs & _).
    rewrite callbacks_snoc, time_animate by congruence.
    rewrite IH, Hs, Hv, length_app, Nat.add_1_r, S_INR. cbn. f_equal. lra.
Qed.

(** C5 as stated fails: with a frame interval of 1/60 and speed 1 a frame
    advances the elapsed time by 0.016, not by 1/60; and with a negative
    speed (no setter rejects one) the elapsed time decreases. *)
Lemma elapsed_time_counterexample :
  time (frameCallback (Fin (1000 / 60)) sampleEngine)
  <> (time sampleEngine + Fin (1 / 60) * speed sampleEngine)%num
  /\ (let s := Object_assign sampleEngine
                 (mkProperties None None None None None (Some (Fin (-1)))
                    None None None None None) in
      exists t0 t1 : R,
        time s = Fin t0 /\ time (frameCallback (Fin (1000 / 60)) s) = Fin t1
        /\ (t1 < t0)%R).
Proof.
  split.
  - unfold frameCallback. rewrite time_animate by reflexivity. cbn.
    intros H. injection H as H. lra.
  - cbn zeta. eexists _, _. split; [reflexivity |].
    unfold frameCallback. rewrite time_animate by reflexivity. cbn.
    split; [reflexivity | lra].
Qed.

(** C5, amended.  Every frame advances the elapsed time by the fixed step
    [0.016 * speed], whatever timestamps (hence frame intervals) the host
    calls back with; the elapsed time does not decrease when the speed is
    not negative; at speed 1, sixty frames take it from 0 to 0.96. *)
Theorem elapsed_time_fixed_step (timestamps : list num) (s : ParticleSystem)
    (t0 v : R) :
  isPlaying s = true -> time s = Fin t0 -> speed s = Fin v ->
  time (callbacks timestamps s)
  = Fin (t0 + INR (length timestamps) * (0.016 * v))%R
  /\ ((0 <= v)%R ->
      (t0 <= t0 + INR (length timestamps) * (0.016 * v))%R)
  /\ (length timestamps = 60 -> t0 = 0%R -> v = 1%R ->
      time (callbacks timestamps s) = Fin 0.96).
Proof.
  intros Hplay Ht Hv.
  assert (Htime := time_callbacks timestamps s t0 v Hplay Ht Hv).
  split; [exact Htime |]. split.
  - intros Hv0. assert (Hn := pos_INR (length timestamps)). nra.
  - intros Hlen -> ->. rewrite Htime, Hlen. f_equal.
    change (INR 60) with (INR (59 + 1)). rewrite plus_INR.
    replace (INR 59) with 59%R; [cbn; lra |].
    rewrite INR_IZR_INZ. reflexivity.
Qed.

Lemma elapsed_time_fixed_step_witness :
  time (callbacks (replicate 60 (Fin (1000 / 60))) sampleEngine) = Fin 0.96.
Proof.
  apply (elapsed_time_fixed_step (replicate 60 (Fin (1000 / 60))) sampleEngine
           0 1); reflexivity.
Defined.

(** *** Pause and resume *)

Lemma pause_fields (s : ParticleSystem) :
  isPlaying (pause s) = false
  /\ time (pause s) = time s
  /\ particles (pause s) = particles s.
Proof.
  unfold pause. cbn. destruct (animationId s) as [id |]; [| auto].
  destruct (Nat.eqb id 0); auto.
Qed.

Lemma callbacks_paused (timestamps : list num) (s : ParticleSystem) :
  isPlaying s = false -> callbacks timestamps s = s.
Proof.
  intros Hp. induction timestamps as [| ts timestamps IH] using rev_ind.
  - reflexivity.
  - rewrite callbacks_snoc, IH. apply animate_paused, Hp.
Qed.

(** A host frame of a paused engine runs the pending callbacks, which all
    return at once: only the request queue is emptied. *)
Lemma hostFrame_paused (ts : num) (s : ParticleSystem) :
  isPlaying s = false -> hostFrame ts s = set_frameRequests [] s.
Proof.
  intros Hp. unfold hostFrame.
  assert (Hq : isPlaying (set_frameRequests [] s) = false) by exact Hp.
  revert Hq. generalize (set_frameRequests [] s) as s'.
  induction (frameRequests s) as [| id ids IH]; intros s' Hq; cbn.
  - reflexivity.
  - unfold frameCallback. rewrite animate_paused by exact Hq. apply IH, Hq.
Qed.

Lemma hostFrames_paused (timestamps : list num) (s : ParticleSystem) :
  isPlaying s = false ->
  isPlaying (hostFrames timestamps s) = false
  /\ time (hostFrames timestamps s) = time s
  /\ particles (hostFrames timestamps s) = particles s.
Proof.
  revert s. induction timestamps as [| ts timestamps IH]; intros s Hp.
  - auto.
  - cbn. rewrite hostFrame_paused by exact Hp.
    destruct (IH (set_frameRequests [] s) Hp) as (H1 & H2 & H3). auto.
Qed.

(** [resume()] after [pause()] is one host frame of the engine that was
    never paused: it runs one update at once and requests the next. *)
Lemma resume_pause_is_one_frame (s : ParticleSystem) (id : nat) (ts : num) :
  isPlaying s = true ->
  animationId s = Some id -> id <> 0 -> frameRequests s = [id] ->
  resume (pause s) = hostFrame ts s.
Proof.
  intros Hplay Hid Hnz Hreq.
  destruct s as [aid playing t v rv n sz sh bc ac ct m mi mint pr pts reqs nxt rnd].
  cbn in Hplay, Hid, Hreq. subst aid playing reqs.
  unfold resume, pause, hostFrame, frameCallback, cancelAnimationFrame. cbn.
  destruct (Nat.eqb id 0) eqn:Hz; [apply Nat.eqb_eq in Hz; contradiction |].
  cbn. rewrite decide_False by (intros H; apply H; reflexivity).
  unfold animate. cbn. reflexivity.
Qed.

Lemma hostFrame_single (ts : num) (s : ParticleSystem) (id : nat) :
  frameRequests s = [id] -> hostFrame ts s = animate (set_frameRequests [] s).
Proof. intros H. unfold hostFrame. rewrite H. reflexivity. Qed.

Lemma frameRequests_animate (s : ParticleSystem) :
  isPlaying s = true ->
  frameRequests (animate s) = frameRequests s ++ [nextRequestId s].
Proof.
  intros H. unfold animate. rewrite H. cbn.
  rewrite updateParticles_frame. reflexivity.
Qed.

(** A host frame of a playing engine with one live loop is one update, and
    leaves the loop live. *)
Lemma hostFrame_live (ts : num) (s : ParticleSystem) (id : nat) :
  isPlaying s = true -> frameRequests s = [id] ->
  time (hostFrame ts s) = (time s + Fin 0.016 * speed s)%num
  /\ speed (hostFrame ts s) = speed s
  /\ isPlaying (hostFrame ts s) = true
  /\ frameRequests (hostFrame ts s) = [nextRequestId s].
Proof.
  intros Hplay Hreq. rewrite (hostFrame_single ts s id Hreq).
  rewrite time_animate, speed_animate, isPlaying_animate,
    frameRequests_animate by exact Hplay.
  auto.
Qed.

(** C3 as stated fails: after pause and resume, one host frame leaves the
    engine two updates ahead of where it was, while one host frame of the
    engine that was never paused leaves it one update ahead. *)
Lemma pause_resume_counterexample :
  time (hostFrame (Fin 0) (resume (pause sampleEngine)))
  = Fin (0 + 0.016 * 1 + 0.016 * 1)%R
  /\ time (hostFrame (Fin 0) sampleEngine) = Fin (0 + 0.016 * 1)%R
  /\ hostFrame (Fin 0) (resume (pause sampleEngine))
     <> hostFrame (Fin 0) sampleEngine.
Proof.
  destruct (hostFrame_live (Fin 0) sampleEngine 1 eq_refl eq_refl)
    as (Ht1 & Hv1 & Hp1 & Hr1).
  destruct (hostFrame_live (Fin 0) (hostFrame (Fin 0) sampleEngine) _ Hp1 Hr1)
    as (Ht2 & _).
  assert (H2 : time (hostFrame (Fin 0) (resume (pause sampleEngine)))
               = Fin (0 + 0.016 * 1 + 0.016 * 1)%R).
  { rewrite (resume_pause_is_one_frame sampleEngine 1 (Fin 0));
      [| reflexivity | reflexivity | lia | reflexivity].
    rewrite Ht2, Hv1, Ht1. reflexivity. }
  split; [exact H2 |]. split; [exact Ht1 |].
  intros Heq. rewrite Heq, Ht1 in H2. injection H2 as H2. lra.
Qed.

(** C3, amended.  After [pause()], calling the frame callback or letting
    the host advance, any number of times, changes neither the elapsed time
    nor the population (its five attribute arrays); [resume()] itself runs
    one frame update at once, and leaves exactly the state that one host
    frame would have produced without the pause and resume; the host frame
    after it is then a second update. *)
Theorem pause_freezes_resume_runs_a_frame (s : ParticleSystem) (id : nat)
    (timestamps : list num) (ts ts' : num) :
  isPlaying s = true ->
  animationId s = Some id -> id <> 0 -> frameRequests s = [id] ->
  callbacks timestamps (pause s) = pause s
  /\ time (hostFrames timestamps (pause s)) = time s
  /\ geometry (hostFrames timestamps (pause s)) = geometry s
  /\ resume (pause s) = hostFrame ts s
  /\ time (hostFrame ts' (resume (pause s)))
     = (time s + Fin 0.016 * speed s + Fin 0.016 * speed s)%num.
Proof.
  intros Hplay Hid Hnz Hreq.
  destruct (pause_fields s) as (Hp & Ht & Hpts).
  destruct (hostFrames_paused timestamps (pause s) Hp) as (_ & Ht' & Hpts').
  split; [apply callbacks_paused, Hp |].
  split; [congruence |].
  split; [unfold geometry; congruence |].
  split; [apply (resume_pause_is_one_frame s id ts); assumption |].
  rewrite (resume_pause_is_one_frame s id ts) by assumption.
  destruct (hostFrame_live ts s id Hplay Hreq) as (Ht1 & Hv1 & Hp1 & Hr1).
  destruct (hostFrame_live ts' (hostFrame ts s) _ Hp1 Hr1) as (Ht2 & _).
  rewrite Ht2, Hv1, Ht1. reflexivity.
Qed.

Lemma pause_freezes_resume_runs_a_frame_witness :
  callbacks [Fin 16; Fin 32; Fin 48] (pause sampleEngine) = pause sampleEngine
  /\ resume (pause sampleEngine) = hostFrame (Fin 16) sampleEngine.
Proof.
  destruct (pause_freezes_resume_runs_a_frame sampleEngine 1
              [Fin 16; Fin 32; Fin 48] (Fin 16) (Fin 32))
    as (H1 & _ & _ & H4 & _); try reflexivity; [lia |].
  split; [exact H1 | exact H4].
Defined.

(** ** Property updates *)

Lemma needsRecreate_iff (s : ParticleSystem) (p : properties) :
  needsRecreate s p = true
  <-> (exists c, p_particleCount p = Some c /\ c <> particleCount s)
      \/ (exists sh, p_particleShape p = Some sh /\ sh <> particleShape s).
Proof.
  unfold needsRecreate. rewrite orb_true_iff. split.
  - intros [H | H].
    + left. destruct (p_particleCount p) as [c |]; [| discriminate].
      exists c. split; [reflexivity |].
      apply negb_true_iff, Nat.eqb_neq in H. exact H.
    + right. destruct (p_particleShape p) as [sh |]; [| discriminate].
      exists sh. split; [reflexivity |].
      apply negb_true_iff, String.eqb_neq in H. exact H.
  - intros [(c & Hc & Hne) | (sh & Hsh & Hne)].
    + left. rewrite Hc. apply negb_true_iff, Nat.eqb_neq, Hne.
    + right. rewrite Hsh. apply negb_true_iff, String.eqb_neq, Hne.
Qed.

Lemma updateProperties_in_place (s : ParticleSystem) (p : properties) :
  needsRecreate s p = false ->
  geometry (updateProperties p s) = geometry s.
Proof.
  intros H. unfold updateProperties. rewrite H.
  change (particles (Object_assign s p)) with (particles s).
  unfold geometry. destruct (particles s) as [pts |] eqn:Hpts; cbn.
  - reflexivity.
  - rewrite Hpts. reflexivity.
Qed.

(** ** What creation writes *)

Lemma fst_createParticle (s : ParticleSystem) (i : nat) (rnd : nat -> R)
    (geo : Geometry) :
  fst (createParticle s i (rnd, geo)) = fun m => rnd (9 + m).
Proof. reflexivity. Qed.

Lemma phase_createParticle (s : ParticleSystem) (i : nat) (rnd : nat -> R)
    (geo : Geometry) :
  phase (snd (createParticle s i (rnd, geo)))
  = <[i := (Fin (rnd 8) * Math_PI * Fin 2)%num]> (phase geo).
Proof. reflexivity. Qed.

(** Later turns of the creation loop leave an earlier phase alone. *)
Lemma for_loop_create_phase_before (s : ParticleSystem) (n start : nat)
    (rg : (nat -> R) * Geometry) (i : nat) :
  i < start ->
  phase (snd (for_loop n start (createParticle s) rg)) !! i
  = phase (snd rg) !! i.
Proof.
  revert start rg. induction n as [| n IH]; intros start rg Hi; cbn.
  - reflexivity.
  - rewrite IH by lia. destruct rg as [rnd geo].
    rewrite phase_createParticle. cbn [snd].
    apply list_lookup_insert_ne. lia.
Qed.

Lemma for_loop_create_phase_length (s : ParticleSystem) (n start : nat)
    (rg : (nat -> R) * Geometry) :
  length (phase (snd (for_loop n start (createParticle s) rg)))
  = length (phase (snd rg)).
Proof.
  apply (for_loop_invariant
           (fun rg' => length (phase (snd rg')) = length (phase (snd rg))));
    [| reflexivity].
  intros i [rnd geo] _ H. rewrite phase_createParticle, length_insert.
  exact H.
Qed.

(** Turn [i] of the creation loop stores the ninth random number of its
    turn, scaled to [0, 2 pi), as the phase of particle [i]. *)
Lemma for_loop_create_phase_at (s : ParticleSystem) (n start : nat)
    (rnd : nat -> R) (geo : Geometry) (i : nat) :
  start <= i < start + n -> i < length (phase geo) ->
  phase (snd (for_loop n start (createParticle s) (rnd, geo))) !! i
  = Some (Fin (rnd (9 * (i - start) + 8)%nat) * Math_PI * Fin 2)%num.
Proof.
  revert start rnd geo. induction n as [| n IH]; intros start rnd geo Hi Hlen.
  - lia.
  - cbn [for_loop].
    rewrite (surjective_pairing (createParticle s start (rnd, geo))).
    destruct (decide (i = start)) as [-> | Hne].
    + rewrite for_loop_create_phase_before by lia. cbn [snd].
      rewrite phase_createParticle, list_lookup_insert_eq by exact Hlen.
      replace (9 * (start - start) + 8) with 8 by lia. reflexivity.
    + rewrite IH.
      * rewrite fst_createParticle.
        replace (9 + (9 * (i - S start) + 8)) with (9 * (i - start) + 8)
          by lia.
        reflexivity.
      * lia.
      * rewrite phase_createParticle, length_insert. exact Hlen.
Qed.

(** The phases of a population just created come from the random source. *)
Lemma phases_createParticles (s : ParticleSystem) :
  exists l : list num,
    phases (createParticles s) = Some l
    /\ length l = particleCount s
    /\ forall i, i < particleCount s ->
         l !! i = Some (Fin (random s (9 * i + 8)%nat) * Math_PI * Fin 2)%num.
Proof.
  unfold createParticles.
  assert (Hlen := for_loop_create_phase_length s (particleCount s) 0
                    (random s, emptyGeometry (particleCount s))).
  assert (Hat := for_loop_create_phase_at s (particleCount s) 0 (random s)
                   (emptyGeometry (particleCount s))).
  destruct (for_loop _ _ _ _) as [rnd geo]. cbn [snd] in Hlen, Hat.
  cbn [emptyGeometry phase] in Hlen, Hat. rewrite length_replicate in Hlen, Hat.
  exists (phase geo). split; [reflexivity |]. split; [exact Hlen |].
  intros i Hi. rewrite Hat by lia. repeat f_equal. lia.
Qed.

Lemma position_createParticle (s : ParticleSystem) (i : nat) (rnd : nat -> R)
    (geo : Geometry) :
  position (snd (createParticle s i (rnd, geo)))
  = <[i * 3 + 2 := THREE.z (sphericalPoint (rnd 0) (rnd 1) (rnd 2))]>
      (<[i * 3 + 1 := THREE.y (sphericalPoint (rnd 0) (rnd 1) (rnd 2))]>
         (<[i * 3 := THREE.x (sphericalPoint (rnd 0) (rnd 1) (rnd 2))]>
            (position geo))).
Proof. reflexivity. Qed.

Lemma for_loop_create_position_before (s : ParticleSystem) (n start : nat)
    (rg : (nat -> R) * Geometry) (idx : nat) :
  idx < start * 3 ->
  position (snd (for_loop n start (createParticle s) rg)) !! idx
  = position (snd rg) !! idx.
Proof.
  revert start rg. induction n as [| n IH]; intros start rg Hidx; cbn.
  - reflexivity.
  - rewrite IH by lia. destruct rg as [rnd geo].
    rewrite position_createParticle. cbn [snd].
    rewrite !list_lookup_insert_ne by lia. reflexivity.
Qed.

(** Turn [i] of the creation loop stores the point computed from the first
    three random numbers of its turn as the position of particle [i]. *)
Lemma for_loop_create_position_at (s : ParticleSystem) (n start : nat)
    (rnd : nat -> R) (geo : Geometry) (i : nat) :
  start <= i < start + n -> i * 3 + 2 < length (position geo) ->
  let p := sphericalPoint (rnd (9 * (i - start))) (rnd (9 * (i - start) + 1))
             (rnd (9 * (i - start) + 2)) in
  let l := position (snd (for_loop n start (createParticle s) (rnd, geo))) in
  l !! (i * 3) = Some (THREE.x p) /\ l !! (i * 3 + 1) = Some (THREE.y p)
  /\ l !! (i * 3 + 2) = Some (THREE.z p).
Proof.
  revert start rnd geo. induction n as [| n IH]; intros start rnd geo Hi Hlen.
  - lia.
  - cbn [for_loop].
    rewrite (surjective_pairing (createParticle s start (rnd, geo))).
    destruct (decide (i = start)) as [-> | Hne].
    + cbn zeta. rewrite !for_loop_create_position_before by lia. cbn [snd].
      rewrite position_createParticle.
      replace (9 * (start - start)) with 0 by lia.
      apply lookup_insert3. exact Hlen.
    + rewrite fst_createParticle.
      specialize (IH (S start) (fun m => rnd (9 + m))
                    (snd (createParticle s start (rnd, geo)))).
      cbn beta zeta in IH |- *.
      replace (9 + 9 * (i - S start)) with (9 * (i - start)) in IH by lia.
      replace (9 + (9 * (i - S start) + 1)) with (9 * (i - start) + 1) in IH
        by lia.
      replace (9 + (9 * (i - S start) + 2)) with (9 * (i - start) + 2) in IH
        by lia.
      apply IH; [lia |].
      rewrite position_createParticle, !length_insert. exact Hlen.
Qed.

(** The positions of a population just created. *)
Lemma positions_createParticles (s : ParticleSystem) (i : nat) :
  i < particleCount s ->
  let p := sphericalPoint (random s (9 * i)) (random s (9 * i + 1))
             (random s (9 * i + 2)) in
  exists l : list num,
    positions (createParticles s) = Some l
    /\ l !! (i * 3) = Some (THREE.x p) /\ l !! (i * 3 + 1) = Some (THREE.y p)
    /\ l !! (i * 3 + 2) = Some (THREE.z p).
Proof.
  intros Hi p. unfold createParticles.
  assert (Hat := for_loop_create_position_at s (particleCount s) 0 (random s)
                   (emptyGeometry (particleCount s)) i).
  destruct (for_loop _ _ _ _) as [rnd geo]. cbn [snd] in Hat.
  cbn [emptyGeometry position] in Hat. rewrite length_replicate in Hat.
  replace (i - 0) with i in Hat by lia.
  exists (position geo). split; [reflexivity |].
  apply Hat; lia.
Qed.

(** The computed point is finite, and its distance from the origin is the
    radius [20 + 80 u], in [20,100). *)
Lemma sphericalPoint_radius (u0 u1 u2 : R) :
  (0 <= u0 < 1)%R -> (0 <= u2 < 1)%R ->
  exists a b c : R,
    sphericalPoint u0 u1 u2 = THREE.mkVector3 (Fin a) (Fin b) (Fin c)
    /\ norm a b c = (u0 * 80 + 20)%R
    /\ (20 <= norm a b c < 100)%R.
Proof.
  intros H0 H2. unfold sphericalPoint, Math_acos. cbn.
  destruct (Rlt_dec (2 * u2 - 1) (-1)) as [H | _]; [lra |].
  destruct (Rlt_dec 1 (2 * u2 - 1)) as [H | _]; [lra |].
  cbn. eexists _, _, _. split; [reflexivity |].
  set (rad := (u0 * 80 + 20)%R).
  set (phi := acos (2 * u2 - 1)). set (theta := (u1 * PI * 2)%R).
  assert (Hnorm : norm (rad * sin phi * cos theta) (rad * sin phi * sin theta)
                    (rad * cos phi) = rad).
  { unfold norm.
    assert (Ht := sin_cos_sq theta). assert (Hp := sin_cos_sq phi).
    replace (rad * sin phi * cos theta * (rad * sin phi * cos theta)
             + rad * sin phi * sin theta * (rad * sin phi * sin theta)
             + rad * cos phi * (rad * cos phi))%R
      with (rad * rad
            * (sin phi * sin phi * (sin theta * sin theta + cos theta * cos theta)
               + cos phi * cos phi))%R by ring.
    rewrite Ht, Rmult_1_r, Hp, Rmult_1_r.
    apply sqrt_square. unfold rad. lra. }
  rewrite Hnorm. unfold rad. split; [reflexivity | lra].
Qed.

(** ** What a frame leaves alone: phases, and colors when they are fixed *)

Lemma hostFrame_invariant (P : ParticleSystem -> Prop) :
  (forall s, P s -> P (animate s)) ->
  (forall s l, P s -> P (set_frameRequests l s)) ->
  forall ts s, P s -> P (hostFrame ts s).
Proof.
  intros Hanimate Hset ts s Hs. unfold hostFrame.
  assert (H0 : P (set_frameRequests [] s)) by (apply Hset, Hs).
  revert H0. generalize (set_frameRequests [] s) as s'.
  induction (frameRequests s) as [| id ids IH]; intros s' Hs'; cbn.
  - exact Hs'.
  - apply IH. unfold frameCallback. apply Hanimate, Hs'.
Qed.

Lemma hostFrames_invariant (P : ParticleSystem -> Prop) :
  (forall s, P s -> P (animate s)) ->
  (forall s l, P s -> P (set_frameRequests l s)) ->
  forall timestamps s, P s -> P (hostFrames timestamps s).
Proof.
  intros Hanimate Hset timestamps.
  induction timestamps as [| ts timestamps IH]; intros s Hs; cbn.
  - exact Hs.
  - apply IH, hostFrame_invariant; assumption.
Qed.

Lemma callbacks_invariant (P : ParticleSystem -> Prop) :
  (forall s, P s -> P (animate s)) ->
  forall timestamps s, P s -> P (callbacks timestamps s).
Proof.
  intros Hanimate timestamps s Hs.
  induction timestamps as [| ts timestamps IH] using rev_ind.
  - exact Hs.
  - rewrite callbacks_snoc. apply Hanimate, IH.
Qed.

Lemma phases_updateParticles (s : ParticleSystem) :
  phases (updateParticles s) = phases s.
Proof.
  unfold updateParticles, phases, geometry.
  destruct (particles s) as [pts |] eqn:Hpts; cbn.
  - rewrite for_loop_phase. reflexivity.
  - rewrite Hpts. reflexivity.
Qed.

Lemma phases_animate (s : ParticleSystem) : phases (animate s) = phases s.
Proof.
  unfold animate. destruct (isPlaying s); [| reflexivity].
  cbn. rewrite phases_updateParticles. reflexivity.
Qed.

Lemma phases_pause (s : ParticleSystem) : phases (pause s) = phases s.
Proof.
  unfold phases, geometry. destruct (pause_fields s) as (_ & _ & H).
  rewrite H. reflexivity.
Qed.

Lemma phases_hostFrame (ts : num) (s : ParticleSystem) :
  phases (hostFrame ts s) = phases s.
Proof.
  apply (hostFrame_invariant (fun s' => phases s' = phases s));
    [| | reflexivity].
  - intros s' H. rewrite phases_animate. exact H.
  - intros s' l H. exact H.
Qed.

(** C7. No number of per-frame updates, under any preset and any
    configuration, modifies a phase: the update loop, a frame callback, a
    host frame, and every operation of the engine other than one that
    recreates the population ([reset], or a property update with a new
    particle count or shape) leave the phase array as it is; a recreation
    ([reset], say) assigns every phase anew, from the random source. *)
Theorem phase_assigned_only_at_creation (s : ParticleSystem) :
  phases (updateParticles s) = phases s
  /\ (forall timestamps, phases (callbacks timestamps s) = phases s)
  /\ (forall timestamps, phases (hostFrames timestamps s) = phases s)
  /\ (forall e, recreates s e = false -> phases (step s e) = phases s)
  /\ (exists l : list num,
        phases (reset s) = Some l
        /\ length l = particleCount s
        /\ forall i, i < particleCount s ->
             l !! i
             = Some (Fin (random s (9 * i + 8)%nat) * Math_PI * Fin 2)%num).
Proof.
  split; [apply phases_updateParticles |].
  split; [| split; [| split; [| apply (phases_createParticles (set_time (Fin 0) s))]]].
  - intros timestamps.
    apply (callbacks_invariant (fun s' => phases s' = phases s));
      [| reflexivity].
    intros s' H. rewrite phases_animate. exact H.
  - intros timestamps.
    apply (hostFrames_invariant (fun s' => phases s' = phases s));
      [| | reflexivity].
    + intros s' H. rewrite phases_animate. exact H.
    + intros s' l H. exact H.
  - intros [ts | cx cy rect | name | p | | | |] Hre;
      cbn [recreates] in Hre; cbn [step].
    + apply phases_hostFrame.
    + unfold mousemove. destruct (mouseInteraction s); reflexivity.
    + reflexivity.
    + unfold phases. rewrite (updateProperties_in_place s p Hre). reflexivity.
    + unfold start. rewrite phases_animate. reflexivity.
    + apply phases_pause.
    + unfold resume. destruct (isPlaying s); cbn [negb]; [reflexivity |].
      rewrite phases_animate. reflexivity.
    + discriminate.
Qed.

Lemma phase_assigned_only_at_creation_witness :
  phases (step sampleEngine (SetPreset "galaxy")) = Some [Fin 1]
  /\ phases (step sampleEngine Pause) = Some [Fin 1].
Proof.
  destruct (phase_assigned_only_at_creation sampleEngine)
    as (_ & _ & _ & H & _).
  split; [apply (H (SetPreset "galaxy")) | apply (H Pause)]; reflexivity.
Defined.

(** *** Colors *)

Lemma updateParticle_color_fixed (s : ParticleSystem) (i : nat) (geo : Geometry) :
  colorTransition s = false -> color (updateParticle s i geo) = color geo.
Proof. intros H. unfold updateParticle. rewrite H. reflexivity. Qed.

Lemma colors_updateParticles (s : ParticleSystem) :
  colorTransition s = false -> colors (updateParticles s) = colors s.
Proof.
  intros H. unfold updateParticles, colors, geometry.
  destruct (particles s) as [pts |] eqn:Hpts; cbn.
  - f_equal.
    apply (for_loop_invariant
             (fun g => color g = color (particleGeometry pts)));
      [| reflexivity].
    intros i g _ Hg. rewrite updateParticle_color_fixed; assumption.
  - rewrite Hpts. reflexivity.
Qed.

Lemma colors_animate (s : ParticleSystem) :
  colorTransition s = false -> colors (animate s) = colors s.
Proof.
  intros H. unfold animate. destruct (isPlaying s); [| reflexivity].
  cbn. rewrite colors_updateParticles; [reflexivity | exact H].
Qed.

(** C8. With the color transition disabled, the color array after any
    number of frames (one hundred, say) is the color array as it was: no
    frame writes to it. *)
Theorem colors_fixed_without_transition (s : ParticleSystem)
    (timestamps : list num) :
  colorTransition s = false ->
  colors (callbacks timestamps s) = colors s
  /\ colors (hostFrames timestamps s) = colors s
  /\ (length timestamps = 100 -> colors (callbacks timestamps s) = colors s).
Proof.
  intros H.
  assert (Hstep : forall s', colorTransition s' = false /\ colors s' = colors s ->
                  colorTransition (animate s') = false
                  /\ colors (animate s') = colors s).
  { intros s' [Hct Hc]. split.
    - rewrite colorTransition_animate. exact Hct.
    - rewrite colors_animate; assumption. }
  assert (Hcb : colors (callbacks timestamps s) = colors s).
  { apply (callbacks_invariant
             (fun s' => colorTransition s' = false /\ colors s' = colors s)
             Hstep timestamps s). auto. }
  split; [exact Hcb |]. split; [| intros _; exact Hcb].
  apply (hostFrames_invariant
           (fun s' => colorTransition s' = false /\ colors s' = colors s)
           Hstep); [| auto].
  intros s' l Hs'. exact Hs'.
Qed.

Lemma colors_fixed_without_transition_witness :
  let s := Object_assign sampleEngine
             (mkProperties None None None None None None None (Some false)
                None None None) in
  colors (callbacks (replicate 100 (Fin 0)) s)
  = Some [Fin 1; Fin 0.5; Fin 0.25].
Proof.
  intros s.
  destruct (colors_fixed_without_transition s (replicate 100 (Fin 0)) eq_refl)
    as (H & _).
  exact H.
Defined.

(** ** Fallbacks for unknown names *)

(** A preset name outside the known ones selects the identity motion. *)
Lemma unknown_preset_is_default (name : string) (p : THREE.Vector3)
    (i : nat) (t : num) :
  mem name presetNames = false -> applyPresetAnimation name p i t = p.
Proof.
  unfold mem, presetNames. cbn [existsb]. intros H.
  repeat (apply orb_false_elim in H; destruct H as [? H]).
  unfold applyPresetAnimation.
  repeat match goal with Hn : String.eqb name _ = false |- _ =>
    rewrite Hn; clear Hn end.
  reflexivity.
Qed.

Lemma default_preset_is_identity (p : THREE.Vector3) (i : nat) (t : num) :
  applyPresetAnimation "default" p i t = p.
Proof. reflexivity. Qed.

(** A shape name that is neither a known shape nor the name of a property
    of [Object.prototype] maps to type 0. *)
Lemma unknown_shape_is_circle (name : string) :
  mem name shapeNames = false -> mem name Object_prototype = false ->
  ParticleShaderMaterial.getShapeType name = JNumber 0.
Proof.
  unfold mem at 1. unfold shapeNames. cbn [existsb]. intros H Hproto.
  repeat (apply orb_false_elim in H; destruct H as [? H]).
  repeat match goal with Hn : String.eqb name _ = false |- _ =>
    apply String.eqb_neq in Hn end.
  unfold ParticleShaderMaterial.getShapeType, property.
  replace (ParticleShaderMaterial.shapeMap !! name) with (@None jsval).
  - unfold mem in Hproto. rewrite Hproto. reflexivity.
  - symmetry. unfold ParticleShaderMaterial.shapeMap. cbn [list_to_map foldr].
    cbn [fst snd uncurry].
    rewrite !lookup_insert_ne by congruence. apply lookup_empty.
Qed.

Lemma known_shape_types :
  ParticleShaderMaterial.getShapeType "circle" = JNumber 0
  /\ ParticleShaderMaterial.getShapeType "square" = JNumber 1
  /\ ParticleShaderMaterial.getShapeType "star" = JNumber 2
  /\ ParticleShaderMaterial.getShapeType "heart" = JNumber 3.
Proof. repeat split; vm_compute; reflexivity. Qed.

Lemma shape_round_trip :
  forallb (fun name =>
             match roundTrip name with
             | JString name' => String.eqb name' name
             | _ => false
             end) shapeNames = true.
Proof. vm_compute. reflexivity. Qed.

(** The material of a population just created holds the shape type of the
    engine's shape name. *)
Lemma shapeType_createParticles (s : ParticleSystem) :
  (fun pts => ParticleShaderMaterial.shapeType (particleMaterial pts))
    <$> particles (createParticles s)
  = Some (ParticleShaderMaterial.getShapeType
            (if String.eqb (particleShape s) "" then "circle"
             else particleShape s)).
Proof.
  unfold createParticles. destruct (for_loop _ _ _ _) as [rnd geo].
  reflexivity.
Qed.

(** C9, at the failing input.  The lookup [shapeMap[shapeName] || 0] finds
    the inherited, truthy property of [Object.prototype] for a name such
    as ["constructor"], which is none of the four shape names, and returns
    it where the claim says 0; a property update with that shape name puts
    it into the shape uniform of the engine.  An unknown preset name given
    to the same engine does select the identity motion. *)
Theorem shape_fallback_misses_inherited_names :
  mem "constructor" shapeNames = false
  /\ ParticleShaderMaterial.getShapeType "constructor" = JObject "constructor"
  /\ ParticleShaderMaterial.getShapeType "constructor" <> JNumber 0
  /\ (fun pts => ParticleShaderMaterial.shapeType (particleMaterial pts))
       <$> particles
             (updateProperties
                (mkProperties None None (Some "constructor") None None None
                   None None None None None) sampleEngine)
     = Some (JObject "constructor")
  /\ mem "constructor" presetNames = false
  /\ applyPresetAnimation "constructor"
       (THREE.mkVector3 (Fin 1) (Fin 2) (Fin 3)) 7 (Fin 0)
     = THREE.mkVector3 (Fin 1) (Fin 2) (Fin 3).
Proof.
  split; [reflexivity |].
  split; [vm_compute; reflexivity |].
  split; [vm_compute; discriminate |].
  split.
  { unfold updateProperties.
    change (needsRecreate sampleEngine _) with true. cbn iota.
    rewrite shapeType_createParticles. vm_compute. reflexivity. }
  split; [reflexivity | apply unknown_preset_is_default; reflexivity].
Qed.

(** C10, at the failing input.  The four shape names survive the round
    trip through [getShapeType] and [getShapeName]; the unknown name
    ["toString"] does not map to type 0 (it maps to the inherited method),
    although the name read back is ["circle"]. *)
Theorem shape_round_trip_but_not_type_zero :
  roundTrip "circle" = JString "circle"
  /\ roundTrip "square" = JString "square"
  /\ roundTrip "star" = JString "star"
  /\ roundTrip "heart" = JString "heart"
  /\ mem "toString" shapeNames = false
  /\ ParticleShaderMaterial.getShapeType "toString" = JObject "toString"
  /\ ParticleShaderMaterial.getShapeType "toString" <> JNumber 0
  /\ roundTrip "toString" = JString "circle".
Proof.
  repeat split; try (vm_compute; reflexivity).
  vm_compute. discriminate.
Qed.

(** ** Finiteness *)

Lemma fin_vec_inv (v : THREE.Vector3) :
  fin_vec v = true ->
  exists a b c : R, v = THREE.mkVector3 (Fin a) (Fin b) (Fin c).
Proof.
  destruct v as [[a |] [b |] [c |]]; cbn; try discriminate. eauto.
Qed.

Lemma is_fin_inv (a : num) : is_fin a = true -> exists u : R, a = Fin u.
Proof. destruct a as [u |]; [eauto | discriminate]. Qed.

Create HintDb finite.

Lemma fin_Fin (u : R) : is_fin (Fin u) = true.
Proof. reflexivity. Qed.

Lemma fin_add (a b : num) :
  is_fin a = true -> is_fin b = true -> is_fin (a + b)%num = true.
Proof. destruct a, b; cbn; congruence. Qed.

Lemma fin_sub (a b : num) :
  is_fin a = true -> is_fin b = true -> is_fin (a - b)%num = true.
Proof. destruct a, b; cbn; congruence. Qed.

Lemma fin_mul (a b : num) :
  is_fin a = true -> is_fin b = true -> is_fin (a * b)%num = true.
Proof. destruct a, b; cbn; congruence. Qed.

Lemma fin_neg (a : num) : is_fin a = true -> is_fin (neg a) = true.
Proof. destruct a; cbn; congruence. Qed.

Lemma fin_sin (a : num) : is_fin a = true -> is_fin (Math_sin a) = true.
Proof. destruct a; cbn; congruence. Qed.

Lemma fin_cos (a : num) : is_fin a = true -> is_fin (Math_cos a) = true.
Proof. destruct a; cbn; congruence. Qed.

Lemma fin_atan2 (a b : num) :
  is_fin a = true -> is_fin b = true -> is_fin (Math_atan2 a b) = true.
Proof. destruct a, b; cbn; congruence. Qed.

Lemma fin_max (a b : num) :
  is_fin a = true -> is_fin b = true -> is_fin (Math_max a b) = true.
Proof. destruct a, b; cbn; congruence. Qed.

(** A division is finite when the divisor is a nonzero real. *)
Lemma fin_div (a : num) (v : R) :
  is_fin a = true -> v <> 0%R -> is_fin (a / Fin v)%num = true.
Proof.
  intros Ha Hv. destruct a as [u |]; [| discriminate].
  rewrite div_nonzero by exact Hv. reflexivity.
Qed.

Lemma fin_of_nat (i : nat) : is_fin (of_nat i) = true.
Proof. reflexivity. Qed.

#[local] Hint Resolve fin_Fin fin_add fin_sub fin_mul fin_neg fin_sin fin_cos
  fin_atan2 fin_max fin_of_nat : finite.

(** The square root of a sum of two or three squares is defined. *)
Lemma sqrt_sumsq2 (a b : R) :
  Math_sqrt (Fin a * Fin a + Fin b * Fin b)%num = Fin (sqrt (a * a + b * b)).
Proof. apply Math_sqrt_nonneg, sumsq2_nonneg. Qed.

Lemma sqrt_sumsq3 (a b c : R) :
  Math_sqrt (Fin a * Fin a + Fin b * Fin b + Fin c * Fin c)%num
  = Fin (sqrt (a * a + b * b + c * c)).
Proof. apply Math_sqrt_nonneg, sumsq3_nonneg. Qed.

(** [normalize] never divides by zero: a zero length is replaced by 1. *)
Lemma normalize_finite (a b c : R) :
  exists k : R,
    THREE.normalize (THREE.mkVector3 (Fin a) (Fin b) (Fin c))
    = THREE.mkVector3 (Fin (a * k)) (Fin (b * k)) (Fin (c * k)).
Proof.
  unfold THREE.normalize, THREE.divideScalar, THREE.length.
  cbn [THREE.x THREE.y THREE.z]. rewrite sqrt_sumsq3.
  destruct (num_or_one (sqrt (a * a + b * b + c * c))) as (w & Hw & Hnz & _).
  rewrite Hw, div_nonzero by exact Hnz.
  exists (1 / w)%R. reflexivity.
Qed.

(** Every preset maps a finite position to a finite position, at every
    finite time. *)
Lemma galaxy_finite (a b c t : R) (i : nat) :
  fin_vec (applyGalaxyAnimation (THREE.mkVector3 (Fin a) (Fin b) (Fin c)) i
             (Fin t)) = true.
Proof.
  unfold applyGalaxyAnimation. cbn [THREE.x THREE.y THREE.z].
  rewrite sqrt_sumsq2.
  set (d := sqrt (a * a + c * c)).
  assert (Hd : (0 <= d)%R) by apply sqrt_pos.
  change (Fin d * Fin 0.01 + Fin 1)%num with (Fin (d * 0.01 + 1)).
  rewrite div_nonzero by lra.
  reflexivity.
Qed.

Lemma nebula_finite (a b c t : R) (i : nat) :
  fin_vec (applyNebulaAnimation (THREE.mkVector3 (Fin a) (Fin b) (Fin c)) i
             (Fin t)) = true.
Proof. reflexivity. Qed.

Lemma explosion_finite (a b c t : R) (i : nat) :
  fin_vec (applyExplosionAnimation (THREE.mkVector3 (Fin a) (Fin b) (Fin c)) i
             (Fin t)) = true.
Proof.
  unfold applyExplosionAnimation, THREE.clone.
  destruct (normalize_finite a b c) as (k & Hk). rewrite Hk. reflexivity.
Qed.

Lemma wave_finite (a b c t : R) (i : nat) :
  fin_vec (applyWaveAnimation (THREE.mkVector3 (Fin a) (Fin b) (Fin c)) i
             (Fin t)) = true.
Proof. reflexivity. Qed.

Lemma spiral_finite (a b c t : R) (i : nat) :
  fin_vec (applySpiralAnimation (THREE.mkVector3 (Fin a) (Fin b) (Fin c)) i
             (Fin t)) = true.
Proof.
  unfold applySpiralAnimation. cbn [THREE.x THREE.y THREE.z].
  rewrite sqrt_sumsq2. reflexivity.
Qed.

Lemma aurora_finite (a b c t : R) (i : nat) :
  fin_vec (applyAuroraAnimation (THREE.mkVector3 (Fin a) (Fin b) (Fin c)) i
             (Fin t)) = true.
Proof. reflexivity. Qed.

Lemma preset_finite (name : string) (p : THREE.Vector3) (i : nat) (t : num) :
  fin_vec p = true -> is_fin t = true ->
  fin_vec (applyPresetAnimation name p i t) = true.
Proof.
  intros Hp Ht.
  destruct (fin_vec_inv p Hp) as (a & b & c & ->).
  destruct (is_fin_inv t Ht) as (u & ->).
  unfold applyPresetAnimation.
  destruct (String.eqb name "galaxy"); [apply galaxy_finite |].
  destruct (String.eqb name "nebula"); [apply nebula_finite |].
  destruct (String.eqb name "explosion"); [apply explosion_finite |].
  destruct (String.eqb name "wave"); [apply wave_finite |].
  destruct (String.eqb name "spiral"); [apply spiral_finite |].
  destruct (String.eqb name "aurora"); [apply aurora_finite |].
  reflexivity.
Qed.

(** The pointer repulsion keeps a finite position finite. *)
Lemma mouse_finite (s : ParticleSystem) (p : THREE.Vector3) :
  is_fin (THREE.x2 (mouse s)) = true -> is_fin (THREE.y2 (mouse s)) = true ->
  is_fin (mouseInfluence s) = true ->
  fin_vec p = true -> fin_vec (applyMouseInteraction s p) = true.
Proof.
  intros Hmx Hmy Hmi Hp.
  destruct (fin_vec_inv p Hp) as (a & b & c & ->).
  destruct (is_fin_inv _ Hmx) as (mx & Emx).
  destruct (is_fin_inv _ Hmy) as (my & Emy).
  destruct (is_fin_inv _ Hmi) as (mi & Emi).
  unfold applyMouseInteraction, THREE.clone. rewrite Emx, Emy, Emi.
  unfold THREE.distanceTo, THREE.distanceToSquared, THREE.subv.
  cbn [THREE.x THREE.y THREE.z].
  change (Fin mx * Fin 10)%num with (Fin (mx * 10)).
  change (Fin my * Fin 10)%num with (Fin (my * 10)).
  change (Fin a - Fin (mx * 10))%num with (Fin (a - mx * 10)).
  change (Fin b - Fin (my * 10))%num with (Fin (b - my * 10)).
  change (Fin c - Fin 0)%num with (Fin (c - 0)).
  rewrite sqrt_sumsq3.
  destruct (normalize_finite (a - mx * 10) (b - my * 10) (c - 0)) as (k & Hk).
  rewrite Hk.
  rewrite div_nonzero by lra.
  reflexivity.
Qed.

(** *** The invariant of a running engine *)

Lemma fin_list_insert (l : list num) (i : nat) (a : num) :
  fin_list l = true -> is_fin a = true -> fin_list (<[i := a]> l) = true.
Proof.
  revert i. induction l as [| b l IH]; intros i Hl Ha; [exact Hl |].
  cbn in Hl. apply andb_true_iff in Hl as [Hb Hl].
  destruct i as [| i]; cbn; apply andb_true_iff; auto.
Qed.

Lemma fin_list_get (l : list num) (i : nat) :
  fin_list l = true -> i < length l -> is_fin (get l i) = true.
Proof.
  revert i. induction l as [| b l IH]; intros i Hl Hi; cbn in Hi; [lia |].
  cbn in Hl. apply andb_true_iff in Hl as [Hb Hl].
  destruct i as [| i]; [exact Hb |].
  apply (IH i Hl). lia.
Qed.

Lemma fin_list_replicate (n : nat) (u : R) :
  fin_list (replicate n (Fin u)) = true.
Proof. induction n as [| n IH]; [reflexivity | exact IH]. Qed.

Lemma geometry_ok_iff (count : nat) (geo : Geometry) :
  geometry_ok count geo = true
  <-> length (position geo) = count * 3 /\ length (phase geo) = count
      /\ fin_list (position geo) = true /\ fin_list (phase geo) = true.
Proof.
  unfold geometry_ok. rewrite !andb_true_iff, !Nat.eqb_eq. tauto.
Qed.

Lemma settings_finite_iff (s : ParticleSystem) :
  settings_finite s = true
  <-> is_fin (time s) = true /\ is_fin (speed s) = true
      /\ is_fin (mouseInfluence s) = true
      /\ is_fin (THREE.x2 (mouse s)) = true
      /\ is_fin (THREE.y2 (mouse s)) = true.
Proof. unfold settings_finite. rewrite !andb_true_iff. tauto. Qed.

Lemma fin_vec_iff (v : THREE.Vector3) :
  fin_vec v = true
  <-> is_fin (THREE.x v) = true /\ is_fin (THREE.y v) = true
      /\ is_fin (THREE.z v) = true.
Proof. unfold fin_vec. rewrite !andb_true_iff. tauto. Qed.

(** One turn of the update loop keeps the arrays well-formed. *)
Lemma updateParticle_ok (s : ParticleSystem) (count i : nat) (geo : Geometry) :
  settings_finite s = true -> i < count ->
  geometry_ok count geo = true ->
  geometry_ok count (updateParticle s i geo) = true.
Proof.
  intros Hs Hi Hgeo.
  apply settings_finite_iff in Hs as (Ht & _ & Hmi & Hmx & Hmy).
  apply geometry_ok_iff in Hgeo as (Hlen & Hlenph & Hpos & Hph).
  apply geometry_ok_iff.
  rewrite updateParticle_position_length, updateParticle_phase.
  split; [exact Hlen |]. split; [exact Hlenph |]. split; [| exact Hph].
  assert (Hphi : is_fin (get (phase geo) i) = true).
  { apply fin_list_get; [exact Hph | lia]. }
  set (cur := THREE.mkVector3 (get (position geo) (i * 3))
                (get (position geo) (i * 3 + 1))
                (get (position geo) (i * 3 + 2))).
  assert (Hcur : fin_vec cur = true).
  { apply fin_vec_iff. cbn. repeat split; apply fin_list_get; try exact Hpos; lia. }
  set (moved := applyPresetAnimation (currentPreset s) cur i (time s)).
  assert (Hmoved : fin_vec moved = true) by (apply preset_finite; assumption).
  set (pushed := if mouseInteraction s then applyMouseInteraction s moved
                 else moved).
  assert (Hpushed : fin_vec pushed = true).
  { unfold pushed. destruct (mouseInteraction s); [| exact Hmoved].
    apply mouse_finite; assumption. }
  apply fin_vec_iff in Hpushed as (Hx & Hy & Hz).
  unfold updateParticle. cbn [position].
  fold cur. fold moved. fold pushed.
  repeat apply fin_list_insert; auto 10 with finite.
Qed.

Lemma updateParticles_ok (s : ParticleSystem) :
  settings_finite s = true -> population_ok s = true ->
  population_ok (updateParticles s) = true.
Proof.
  intros Hs Hpop. unfold population_ok in Hpop.
  unfold updateParticles, population_ok.
  destruct (particles s) as [pts |] eqn:Hpts; [| discriminate].
  cbn [particles set_particles particleCount particleGeometry].
  apply (for_loop_invariant
           (fun g => geometry_ok (particleCount s) g = true));
    [| exact Hpop].
  intros i g Hi Hg. apply updateParticle_ok; [exact Hs | lia | exact Hg].
Qed.

Lemma settings_updateParticles (s : ParticleSystem) :
  settings_finite (updateParticles s) = settings_finite s
  /\ random (updateParticles s) = random s.
Proof. rewrite updateParticles_frame. split; reflexivity. Qed.

Lemma animate_ok (s : ParticleSystem) : engine_ok s -> engine_ok (animate s).
Proof.
  intros (Hs & Hpop & Hrnd). unfold animate.
  destruct (isPlaying s); cbn [negb];
    [| exact (conj Hs (conj Hpop Hrnd))].
  cbn [requestAnimationFrame].
  set (s1 := set_time _ _).
  assert (Hs1 : settings_finite s1 = true).
  { apply settings_finite_iff in Hs as (Ht & Hv & Hmi & Hmx & Hmy).
    apply settings_finite_iff. unfold s1.
    split; [| repeat split; assumption].
    change (is_fin (time s + Fin 0.016 * speed s)%num = true).
    auto with finite. }
  assert (Hpop1 : population_ok s1 = true) by exact Hpop.
  destruct (settings_updateParticles s1) as (Hset & Hr).
  split; [rewrite Hset; exact Hs1 |].
  split; [apply updateParticles_ok; assumption |].
  rewrite Hr. exact Hrnd.
Qed.

Lemma hostFrame_ok (ts : num) (s : ParticleSystem) :
  engine_ok s -> engine_ok (hostFrame ts s).
Proof.
  apply (hostFrame_invariant engine_ok).
  - apply animate_ok.
  - intros s' l H. exact H.
Qed.

(** *** Creation *)

Lemma acos_random_finite (u : R) :
  (0 <= u < 1)%R -> is_fin (Math_acos (Fin 2 * Fin u - Fin 1)%num) = true.
Proof.
  intros Hu. cbn.
  destruct (Rlt_dec (2 * u - 1) (-1)) as [H | _]; [lra |].
  destruct (Rlt_dec 1 (2 * u - 1)) as [H | _]; [lra |].
  reflexivity.
Qed.

Lemma createParticle_ok (s : ParticleSystem) (count i : nat)
    (rg : (nat -> R) * Geometry) :
  random_in_range (fst rg) /\ geometry_ok count (snd rg) = true ->
  random_in_range (fst (createParticle s i rg))
  /\ geometry_ok count (snd (createParticle s i rg)) = true.
Proof.
  destruct rg as [rnd geo]. cbn [fst snd]. intros (Hrnd & Hgeo).
  apply geometry_ok_iff in Hgeo as (Hlen & Hlenph & Hpos & Hph).
  unfold createParticle, Math_random. cbn [fst snd]. split.
  - intros n. apply Hrnd.
  - apply geometry_ok_iff. cbn [position phase].
    rewrite !length_insert.
    split; [exact Hlen |]. split; [exact Hlenph |].
    assert (Hacos := acos_random_finite (rnd 2) (Hrnd 2)).
    split; repeat apply fin_list_insert; auto 10 with finite.
Qed.

Lemma emptyGeometry_ok (count : nat) :
  geometry_ok count (emptyGeometry count) = true.
Proof.
  apply geometry_ok_iff. unfold emptyGeometry. cbn [position phase].
  rewrite !length_replicate.
  repeat split; apply fin_list_replicate.
Qed.

Lemma createParticles_ok (s : ParticleSystem) :
  settings_finite s = true -> random_in_range (random s) ->
  engine_ok (createParticles s).
Proof.
  intros Hs Hrnd. unfold createParticles.
  assert (H : random_in_range
                (fst (for_loop (particleCount s) 0 (createParticle s)
                        (random s, emptyGeometry (particleCount s))))
              /\ geometry_ok (particleCount s)
                   (snd (for_loop (particleCount s) 0 (createParticle s)
                           (random s, emptyGeometry (particleCount s))))
                 = true).
  { apply (for_loop_invariant
             (fun rg => random_in_range (fst rg)
                        /\ geometry_ok (particleCount s) (snd rg) = true)).
    - intros i rg _. apply createParticle_ok.
    - split; [exact Hrnd | apply emptyGeometry_ok]. }
  destruct (for_loop _ _ _ _) as [rnd geo]. cbn [fst snd] in H.
  destruct H as (Hr & Hg).
  split; [exact Hs |]. split; [exact Hg | exact Hr].
Qed.

(** *** Events with well-formed arguments *)

Lemma mousemove_ok (clientX clientY : num) (rect : DOMRect)
    (s : ParticleSystem) :
  is_fin clientX = true -> is_fin clientY = true -> rect_ok rect ->
  engine_ok s -> engine_ok (mousemove clientX clientY rect s).
Proof.
  intros Hx Hy (Hl & Ht & (w & Hw & Hwnz) & (h & Hh & Hhnz)) (Hs & Hpop & Hrnd).
  unfold mousemove.
  destruct (mouseInteraction s); cbn [negb];
    [| exact (conj Hs (conj Hpop Hrnd))].
  split; [| split; [exact Hpop | exact Hrnd]].
  apply settings_finite_iff in Hs as (H1 & H2 & H3 & _ & _).
  apply settings_finite_iff. rewrite Hw, Hh.
  repeat split; try assumption.
  - change (is_fin ((clientX - left rect) / Fin w * Fin 2 - Fin 1)%num = true).
    auto 10 using fin_div with finite.
  - change (is_fin (neg ((clientY - top rect) / Fin h) * Fin 2 + Fin 1)%num
            = true).
    auto 10 using fin_div with finite.
Qed.

Lemma needsRecreate_false_count (s : ParticleSystem) (p : properties) :
  needsRecreate s p = false ->
  default (particleCount s) (p_particleCount p) = particleCount s.
Proof.
  unfold needsRecreate. intros H. apply orb_false_elim in H as [H _].
  destruct (p_particleCount p) as [c |]; [| reflexivity].
  apply negb_false_iff, Nat.eqb_eq in H. exact H.
Qed.

Lemma Object_assign_settings (s : ParticleSystem) (p : properties) :
  properties_finite p = true -> settings_finite s = true ->
  settings_finite (Object_assign s p) = true.
Proof.
  intros Hp Hs. unfold properties_finite in Hp.
  apply andb_true_iff in Hp as [Hv Hmi].
  apply settings_finite_iff in Hs as (H1 & H2 & H3 & H4 & H5).
  apply settings_finite_iff. cbn.
  repeat split; try assumption.
  - destruct (p_speed p); assumption.
  - destruct (p_mouseInfluence p); assumption.
Qed.

Lemma updateProperties_ok (p : properties) (s : ParticleSystem) :
  properties_finite p = true -> engine_ok s ->
  engine_ok (updateProperties p s).
Proof.
  intros Hp (Hs & Hpop & Hrnd).
  assert (Hs' := Object_assign_settings s p Hp Hs).
  unfold updateProperties.
  destruct (needsRecreate s p) eqn:Hre.
  - apply createParticles_ok; [exact Hs' | exact Hrnd].
  - change (particles (Object_assign s p)) with (particles s).
    unfold population_ok in Hpop.
    destruct (particles s) as [pts |] eqn:Hpts; [| discriminate].
    split; [exact Hs' |]. split; [| exact Hrnd].
    unfold population_ok. cbn [particles set_particles particleGeometry].
    change (particleCount (set_particles _ (Object_assign s p)))
      with (default (particleCount s) (p_particleCount p)).
    rewrite (needsRecreate_false_count s p Hre). exact Hpop.
Qed.

Lemma pause_ok (s : ParticleSystem) : engine_ok s -> engine_ok (pause s).
Proof.
  intros H. unfold pause. cbn [animationId set_isPlaying].
  destruct (animationId s) as [id |]; [| exact H].
  destruct (Nat.eqb id 0); exact H.
Qed.

Lemma step_ok (s : ParticleSystem) (e : event) :
  engine_ok s -> event_ok e -> engine_ok (step s e).
Proof.
  intros Hok He.
  destruct e as [ts | cx cy rect | name | p | | | |]; cbn [step event_ok] in *.
  - apply hostFrame_ok, Hok.
  - destruct He as (Hx & Hy & Hrect). apply mousemove_ok; assumption.
  - exact Hok.
  - apply updateProperties_ok; assumption.
  - unfold start. apply animate_ok. exact Hok.
  - apply pause_ok, Hok.
  - unfold resume. destruct (isPlaying s); cbn [negb]; [exact Hok |].
    apply animate_ok. exact Hok.
  - unfold reset. destruct Hok as (Hs & _ & Hrnd).
    apply createParticles_ok; [| exact Hrnd].
    apply settings_finite_iff in Hs as (H1 & H2 & H3 & H4 & H5).
    apply settings_finite_iff. repeat split; assumption.
Qed.

Lemma run_ok (es : list event) (s : ParticleSystem) :
  engine_ok s -> Forall event_ok es -> engine_ok (run es s).
Proof.
  revert s. induction es as [| e es IH]; intros s Hok Hes; cbn.
  - exact Hok.
  - apply Forall_cons in Hes as [He Hes].
    apply IH; [apply step_ok; assumption | exact Hes].
Qed.

Lemma engine_ok_positions (s : ParticleSystem) :
  engine_ok s ->
  exists l : list num,
    positions s = Some l /\ length l = particleCount s * 3
    /\ fin_list l = true.
Proof.
  intros (_ & Hpop & _). unfold population_ok in Hpop.
  unfold positions, geometry.
  destruct (particles s) as [pts |]; [| discriminate].
  apply geometry_ok_iff in Hpop as (Hlen & _ & Hfin & _).
  exists (position (particleGeometry pts)). auto.
Qed.

(** A particle on the vertical axis (radius zero) stays there under the
    galaxy and the spiral preset: nothing is divided by its radius. *)
Lemma galaxy_on_axis (py t : R) (i : nat) :
  exists a b c : R,
    applyGalaxyAnimation (THREE.mkVector3 (Fin 0) (Fin py) (Fin 0)) i (Fin t)
    = THREE.mkVector3 (Fin a) (Fin b) (Fin c)
    /\ a = 0%R /\ c = 0%R.
Proof.
  unfold applyGalaxyAnimation. cbn [THREE.x THREE.y THREE.z].
  rewrite sqrt_sumsq2.
  replace (0 * 0 + 0 * 0)%R with 0%R by ring. rewrite sqrt_0.
  change (Fin 0 * Fin 0.01 + Fin 1)%num with (Fin (0 * 0.01 + 1)).
  rewrite div_nonzero by lra.
  eexists _, _, _. split; [reflexivity |]. split; ring.
Qed.

Lemma spiral_on_axis (py t : R) (i : nat) :
  exists a c : R,
    applySpiralAnimation (THREE.mkVector3 (Fin 0) (Fin py) (Fin 0)) i (Fin t)
    = THREE.mkVector3 (Fin a) (Fin py) (Fin c)
    /\ a = 0%R /\ c = 0%R.
Proof.
  unfold applySpiralAnimation. cbn [THREE.x THREE.y THREE.z].
  rewrite sqrt_sumsq2.
  replace (0 * 0 + 0 * 0)%R with 0%R by ring. rewrite sqrt_0.
  eexists _, _. split; [reflexivity |]. split; ring.
Qed.

(** *** A pointer event over an empty canvas *)

Lemma nonfinite_entry (l : list num) (i : nat) :
  l !! i = Some NonFin -> fin_list l = false.
Proof.
  revert i. induction l as [| a l IH]; intros i H; [discriminate |].
  destruct i as [| i]; cbn in H.
  - injection H as ->. reflexivity.
  - unfold fin_list in *. cbn. rewrite (IH i H). apply andb_false_r.
Qed.

(** A pointer that is no number pushes every particle to no number. *)
Lemma mouse_nonfinite_pushes (s : ParticleSystem) (position : THREE.Vector3) :
  THREE.x2 (mouse s) = NonFin ->
  THREE.x (applyMouseInteraction s position) = NonFin.
Proof.
  intros H. unfold applyMouseInteraction. rewrite H.
  destruct position as [[px |] py pz]; cbn; reflexivity.
Qed.

Lemma updateParticle_pointer_nonfinite (s : ParticleSystem) (i : nat)
    (geo : Geometry) :
  mouseInteraction s = true -> THREE.x2 (mouse s) = NonFin ->
  i * 3 + 2 < length (position geo) ->
  position (updateParticle s i geo) !! (i * 3) = Some NonFin.
Proof.
  intros Hon Hm Hlen. unfold updateParticle. cbn [position]. rewrite Hon.
  set (pos := applyMouseInteraction s _).
  destruct (lookup_insert3 (position geo) (i * 3)
    (add (THREE.x pos)
       (mul (Math_sin (add (time s) (get (phase geo) i))) (Fin 0.5)))
    (add (THREE.y pos)
       (mul (Math_cos (add (time s) (get (phase geo) i))) (Fin 0.5)))
    (add (THREE.z pos)
       (mul (Math_sin (add (mul (time s) (Fin 0.5)) (get (phase geo) i)))
          (Fin 0.3)))
    Hlen) as (Hx & _ & _).
  rewrite Hx. unfold pos. rewrite mouse_nonfinite_pushes by exact Hm.
  reflexivity.
Qed.

(** The listener divides by [rect.width] as it is: over a canvas of width
    zero the pointer abscissa is no number, and the next frame of a
    playing engine stores no number as the abscissa of its first
    particle. *)
Lemma zero_width_pointer_breaks (s : ParticleSystem) (clientX clientY : num)
    (rect : DOMRect) (ts : num) (id : nat) :
  width rect = Fin 0 ->
  mouseInteraction s = true -> isPlaying s = true -> frameRequests s = [id] ->
  population_ok s = true -> 0 < particleCount s ->
  exists l : list num,
    positions (hostFrame ts (mousemove clientX clientY rect s)) = Some l
    /\ l !! 0 = Some NonFin.
Proof.
  intros Hw Hon Hplay Hreq Hpop Hcount.
  unfold population_ok in Hpop.
  destruct (particles s) as [pts |] eqn:Hpts; [| discriminate].
  unfold geometry_ok in Hpop. rewrite !andb_true_iff in Hpop.
  destruct Hpop as [[[Hlen _] _] _]. apply Nat.eqb_eq in Hlen.
  unfold mousemove. rewrite Hon. cbn [negb].
  rewrite (hostFrame_single ts _ id) by exact Hreq.
  unfold animate. cbn [isPlaying set_frameRequests set_mouse]. rewrite Hplay.
  cbn [negb requestAnimationFrame].
  eexists. split.
  - apply positions_updateParticles. cbn. exact Hpts.
  - cbn [particleCount set_time set_animationId set_nextRequestId
         set_frameRequests set_mouse].
    rewrite (for_loop_position_at _ _ 0 _ 0 0) by lia.
    apply (updateParticle_pointer_nonfinite _ 0).
    + cbn. exact Hon.
    + cbn. rewrite Hw.
      destruct clientX as [cx |], (left rect) as [lx |]; cbn;
        try reflexivity.
      destruct (Req_dec_T 0 0) as [_ | E]; [reflexivity | contradiction].
    + lia.
Qed.




(** * Further properties of the engine *)

(** ** Array lengths *)

Lemma lengths_ok_iff (count : nat) (geo : Geometry) :
  lengths_ok count geo = true
  <-> length (position geo) = count * 3 /\ length (color geo) = count * 3
      /\ length (size geo) = count /\ length (velocity geo) = count * 3
      /\ length (phase geo) = count.
Proof.
  unfold lengths_ok. rewrite !andb_true_iff, !Nat.eqb_eq. tauto.
Qed.

Lemma updateParticle_lengths (s : ParticleSystem) (count i : nat)
    (geo : Geometry) :
  lengths_ok count (updateParticle s i geo) = lengths_ok count geo.
Proof.
  unfold lengths_ok.
  rewrite updateParticle_position_length, updateParticle_color_length.
  reflexivity.
Qed.

Lemma createParticle_lengths (s : ParticleSystem) (count i : nat)
    (rg : (nat -> R) * Geometry) :
  lengths_ok count (snd (createParticle s i rg)) = lengths_ok count (snd rg).
Proof.
  destruct rg as [rnd geo]. unfold lengths_ok, createParticle, Math_random.
  cbn [snd position color size velocity phase].
  rewrite !length_insert. reflexivity.
Qed.

Lemma emptyGeometry_lengths (count : nat) :
  lengths_ok count (emptyGeometry count) = true.
Proof.
  apply lengths_ok_iff. unfold emptyGeometry.
  cbn [position color size velocity phase].
  rewrite !length_replicate. auto.
Qed.

Lemma createParticles_fields (s : ParticleSystem) :
  time (createParticles s) = time s
  /\ particleCount (createParticles s) = particleCount s
  /\ isPlaying (createParticles s) = isPlaying s
  /\ currentPreset (createParticles s) = currentPreset s
  /\ particleShape (createParticles s) = particleShape s
  /\ frameRequests (createParticles s) = frameRequests s.
Proof.
  unfold createParticles. destruct (for_loop _ _ _ _) as [rnd geo].
  repeat split; reflexivity.
Qed.

Lemma createParticles_arrays_match (s : ParticleSystem) :
  arrays_match (createParticles s) = true.
Proof.
  unfold createParticles.
  assert (H : lengths_ok (particleCount s)
                (snd (for_loop (particleCount s) 0 (createParticle s)
                        (random s, emptyGeometry (particleCount s)))) = true).
  { apply (for_loop_invariant
             (fun rg => lengths_ok (particleCount s) (snd rg) = true)).
    - intros i rg _ H. rewrite createParticle_lengths. exact H.
    - apply emptyGeometry_lengths. }
  destruct (for_loop _ _ _ _) as [rnd geo]. exact H.
Qed.

Lemma updateParticles_arrays_match (s : ParticleSystem) :
  arrays_match s = true -> arrays_match (updateParticles s) = true.
Proof.
  unfold updateParticles, arrays_match.
  destruct (particles s) as [pts |] eqn:Hpts; intros H.
  - cbn [particles set_particles particleCount particleGeometry].
    apply (for_loop_invariant
             (fun g => lengths_ok (particleCount s) g = true)); [| exact H].
    intros i g _ Hg. rewrite updateParticle_lengths. exact Hg.
  - rewrite Hpts. reflexivity.
Qed.

Lemma animate_arrays_match (s : ParticleSystem) :
  arrays_match s = true -> arrays_match (animate s) = true.
Proof.
  intros H. unfold animate. destruct (isPlaying s); cbn [negb]; [| exact H].
  cbn [requestAnimationFrame]. apply updateParticles_arrays_match. exact H.
Qed.

Lemma updateProperties_arrays_match (p : properties) (s : ParticleSystem) :
  arrays_match s = true -> arrays_match (updateProperties p s) = true.
Proof.
  intros H. unfold updateProperties.
  destruct (needsRecreate s p) eqn:Hre;
    [apply createParticles_arrays_match |].
  change (particles (Object_assign s p)) with (particles s).
  unfold arrays_match in H |- *.
  destruct (particles s) as [pts |] eqn:Hpts.
  - cbn [particles set_particles particleGeometry].
    change (particleCount (set_particles _ (Object_assign s p)))
      with (default (particleCount s) (p_particleCount p)).
    rewrite (needsRecreate_false_count s p Hre). exact H.
  - change (particles (Object_assign s p)) with (particles s).
    rewrite Hpts. reflexivity.
Qed.

Lemma step_arrays_match (s : ParticleSystem) (e : event) :
  arrays_match s = true -> arrays_match (step s e) = true.
Proof.
  intros H. destruct e as [ts | cx cy rect | name | p | | | |]; cbn [step].
  - apply (hostFrame_invariant (fun s' => arrays_match s' = true));
      [apply animate_arrays_match | intros s' l Hs'; exact Hs' | exact H].
  - unfold mousemove. destruct (mouseInteraction s); exact H.
  - exact H.
  - apply updateProperties_arrays_match, H.
  - unfold start. apply animate_arrays_match. exact H.
  - unfold pause. cbn [animationId set_isPlaying].
    destruct (animationId s) as [id |]; [| exact H].
    destruct (Nat.eqb id 0); exact H.
  - unfold resume. destruct (isPlaying s); cbn [negb]; [exact H |].
    apply animate_arrays_match. exact H.
  - apply createParticles_arrays_match.
Qed.

(** X1. Whatever the engine is asked to do (frames, pointer moves over
    any rectangle, preset selections by any name, property updates whose
    particle count, when one is given, is a natural number, start, pause,
    resume, reset), the five attribute arrays keep the lengths its
    particle count asks for: three numbers per particle for positions,
    colors and velocities, one for sizes and phases.  A count that is no
    natural number is not covered. *)
Theorem arrays_always_match_count (s : ParticleSystem) (es : list event) :
  arrays_match s = true -> arrays_match (run es s) = true.
Proof.
  revert s. induction es as [| e es IH]; intros s H; cbn.
  - exact H.
  - apply IH, step_arrays_match, H.
Qed.

Lemma arrays_always_match_count_witness :
  arrays_match
    (run [UpdateProperties
            (mkProperties (Some 3) None (Some "star") None None None None None
               None None None);
          Frame (Fin 0); Reset; Frame (Fin 16)] sampleEngine) = true.
Proof.
  apply (arrays_always_match_count sampleEngine). reflexivity.
Defined.

(** X2. [createParticles] builds, for any particle count (zero included),
    five arrays of exactly three, three, one, three and one numbers per
    particle, and changes neither the elapsed time nor the count;
    [reset] does the same with the elapsed time set to exactly 0. *)
Theorem createParticles_lengths_reset_zero (s : ParticleSystem) :
  (exists geo : Geometry,
     geometry (createParticles s) = Some geo
     /\ length (position geo) = particleCount s * 3
     /\ length (color geo) = particleCount s * 3
     /\ length (size geo) = particleCount s
     /\ length (velocity geo) = particleCount s * 3
     /\ length (phase geo) = particleCount s)
  /\ time (createParticles s) = time s
  /\ time (reset s) = Fin 0
  /\ getParticleCount (reset s) = particleCount s
  /\ arrays_match (reset s) = true.
Proof.
  destruct (createParticles_fields s) as (Ht & Hc & _).
  destruct (createParticles_fields (set_time (Fin 0) s)) as (Ht0 & Hc0 & _).
  split; [| split; [exact Ht | split; [exact Ht0 | split; [exact Hc0 |]]]].
  - assert (H := createParticles_arrays_match s).
    unfold arrays_match in H. rewrite Hc in H.
    unfold geometry. destruct (particles (createParticles s)) as [pts |] eqn:E.
    + exists (particleGeometry pts). split; [reflexivity |].
      apply lengths_ok_iff, H.
    + exfalso. revert E. unfold createParticles.
      destruct (for_loop _ _ _ _). discriminate.
  - apply createParticles_arrays_match.
Qed.

(** ** What creation writes, array by array *)

(** A one-number-per-particle array: turn [i] of the creation loop stores
    the value it computes from the random numbers of its turn. *)
Lemma for_loop_create_slot (s : ParticleSystem) (f : Geometry -> list num)
    (v : (nat -> R) -> num) :
  (forall r1 r2, (forall m, r1 m = r2 m) -> v r1 = v r2) ->
  (forall i rnd geo,
     f (snd (createParticle s i (rnd, geo))) = <[i := v rnd]> (f geo)) ->
  forall n start rnd geo i,
    start <= i < start + n -> i < length (f geo) ->
    f (snd (for_loop n start (createParticle s) (rnd, geo))) !! i
    = Some (v (fun m => rnd (9 * (i - start) + m))).
Proof.
  intros Hext Hbody.
  assert (Hbefore : forall n start rg i, i < start ->
            f (snd (for_loop n start (createParticle s) rg)) !! i
            = f (snd rg) !! i).
  { induction n as [| n IH]; intros start rg i Hi; cbn; [reflexivity |].
    rewrite IH by lia. destruct rg as [rnd geo]. rewrite Hbody. cbn [snd].
    apply list_lookup_insert_ne. lia. }
  induction n as [| n IH]; intros start rnd geo i Hi Hlen; [lia |].
  cbn [for_loop].
  rewrite (surjective_pairing (createParticle s start (rnd, geo))).
  destruct (decide (i = start)) as [-> | Hne].
  - rewrite Hbefore by lia. cbn [snd].
    rewrite Hbody, list_lookup_insert_eq by exact Hlen.
    replace (start - start) with 0 by lia. reflexivity.
  - rewrite IH; [| lia | rewrite Hbody, length_insert; exact Hlen].
    rewrite fst_createParticle. f_equal.
    apply Hext. intros m. f_equal. lia.
Qed.

(** A three-numbers-per-particle array. *)
Lemma for_loop_create_slot3 (s : ParticleSystem) (f : Geometry -> list num)
    (v0 v1 v2 : (nat -> R) -> num) :
  (forall r1 r2, (forall m, r1 m = r2 m) ->
     v0 r1 = v0 r2 /\ v1 r1 = v1 r2 /\ v2 r1 = v2 r2) ->
  (forall i rnd geo,
     f (snd (createParticle s i (rnd, geo)))
     = <[i * 3 + 2 := v2 rnd]>
         (<[i * 3 + 1 := v1 rnd]> (<[i * 3 := v0 rnd]> (f geo)))) ->
  forall n start rnd geo i,
    start <= i < start + n -> i * 3 + 2 < length (f geo) ->
    let rnd' := fun m => rnd (9 * (i - start) + m) in
    let l := f (snd (for_loop n start (createParticle s) (rnd, geo))) in
    l !! (i * 3) = Some (v0 rnd') /\ l !! (i * 3 + 1) = Some (v1 rnd')
    /\ l !! (i * 3 + 2) = Some (v2 rnd').
Proof.
  intros Hext Hbody.
  assert (Hbefore : forall n start rg idx, idx < start * 3 ->
            f (snd (for_loop n start (createParticle s) rg)) !! idx
            = f (snd rg) !! idx).
  { induction n as [| n IH]; intros start rg idx Hidx; cbn; [reflexivity |].
    rewrite IH by lia. destruct rg as [rnd geo]. rewrite Hbody. cbn [snd].
    rewrite !list_lookup_insert_ne by lia. reflexivity. }
  induction n as [| n IH]; intros start rnd geo i Hi Hlen; [lia |].
  cbn [for_loop]. cbn zeta.
  rewrite (surjective_pairing (createParticle s start (rnd, geo))).
  destruct (decide (i = start)) as [-> | Hne].
  - rewrite !Hbefore by lia. cbn [snd]. rewrite Hbody.
    replace (start - start) with 0 by lia.
    apply lookup_insert3. exact Hlen.
  - rewrite fst_createParticle.
    specialize (IH (S start) (fun m => rnd (9 + m))
                  (snd (createParticle s start (rnd, geo))) i).
    cbn beta zeta in IH.
    destruct (Hext (fun m => rnd (9 * (i - start) + m))
                (fun m => rnd (9 + (9 * (i - S start) + m))))
      as (E0 & E1 & E2); [intros m; f_equal; lia |].
    rewrite E0, E1, E2.
    apply IH; [lia |]. rewrite Hbody, !length_insert. exact Hlen.
Qed.

Lemma geometry_createParticles (s : ParticleSystem) :
  geometry (createParticles s)
  = Some (snd (for_loop (particleCount s) 0 (createParticle s)
                 (random s, emptyGeometry (particleCount s)))).
Proof.
  unfold createParticles. destruct (for_loop _ _ _ _) as [rnd geo].
  reflexivity.
Qed.

(** X3. In a population just created, with [Math.random()] answering in
    [0,1) and a non-negative size setting, every particle has a phase in
    [0, 2 pi), a size in [0.5, 0.5 + particleSize] and velocity components
    in [-0.01, 0.01). *)
Theorem created_attributes_in_range (s : ParticleSystem) (i : nat) (sz : R) :
  random_in_range (random s) -> particleSize s = Fin sz -> (0 <= sz)%R ->
  i < particleCount s ->
  exists (geo : Geometry) (ph z v0 v1 v2 : R),
    geometry (createParticles s) = Some geo
    /\ phase geo !! i = Some (Fin ph) /\ (0 <= ph < 2 * PI)%R
    /\ size geo !! i = Some (Fin z) /\ (0.5 <= z <= 0.5 + sz)%R
    /\ velocity geo !! (i * 3) = Some (Fin v0)
    /\ velocity geo !! (i * 3 + 1) = Some (Fin v1)
    /\ velocity geo !! (i * 3 + 2) = Some (Fin v2)
    /\ (-0.01 <= v0 < 0.01)%R /\ (-0.01 <= v1 < 0.01)%R
    /\ (-0.01 <= v2 < 0.01)%R.
Proof.
  intros Hrnd Hsz Hsz0 Hi.
  assert (Hpi := PI_RGT_0).
  assert (Hph := for_loop_create_slot s phase
                   (fun rnd => (Fin (rnd 8) * Math_PI * Fin 2)%num)
                   ltac:(intros r1 r2 H; cbn beta; rewrite H; reflexivity)
                   (fun _ _ _ => eq_refl) (particleCount s) 0 (random s)
                   (emptyGeometry (particleCount s)) i).
  assert (Hz := for_loop_create_slot s size
                  (fun rnd => (Fin (rnd 7) * particleSize s + Fin 0.5)%num)
                  ltac:(intros r1 r2 H; cbn beta; rewrite H; reflexivity)
                  (fun _ _ _ => eq_refl) (particleCount s) 0 (random s)
                  (emptyGeometry (particleCount s)) i).
  assert (Hv := for_loop_create_slot3 s velocity
                  (fun rnd => ((Fin (rnd 3) - Fin 0.5) * Fin 0.02)%num)
                  (fun rnd => ((Fin (rnd 4) - Fin 0.5) * Fin 0.02)%num)
                  (fun rnd => ((Fin (rnd 5) - Fin 0.5) * Fin 0.02)%num)
                  ltac:(intros r1 r2 H; cbn beta; rewrite !H; auto)
                  (fun _ _ _ => eq_refl) (particleCount s) 0 (random s)
                  (emptyGeometry (particleCount s)) i).
  cbn [emptyGeometry phase size velocity] in Hph, Hz, Hv.
  rewrite length_replicate in Hph, Hz, Hv.
  specialize (Hph ltac:(lia) Hi). specialize (Hz ltac:(lia) Hi).
  destruct (Hv ltac:(lia) ltac:(lia)) as (Hv0 & Hv1 & Hv2).
  rewrite Hsz in Hz.
  set (k := 9 * (i - 0)) in *.
  eexists _, _, _, _, _, _.
  split; [apply geometry_createParticles |].
  split; [exact Hph |].
  split; [generalize (Hrnd (k + 8)); nra |].
  split; [exact Hz |].
  split; [generalize (Hrnd (k + 7)); nra |].
  split; [exact Hv0 |]. split; [exact Hv1 |]. split; [exact Hv2 |].
  generalize (Hrnd (k + 3)), (Hrnd (k + 4)), (Hrnd (k + 5)). lra.
Qed.

Lemma created_attributes_in_range_witness :
  exists (geo : Geometry) (ph z : R),
    geometry (createParticles sampleEngine) = Some geo
    /\ phase geo !! 0 = Some (Fin ph) /\ (0 <= ph < 2 * PI)%R
    /\ size geo !! 0 = Some (Fin z) /\ (0.5 <= z <= 0.5 + 2)%R.
Proof.
  destruct (created_attributes_in_range sampleEngine 0 2)
    as (geo & ph & z & _ & _ & _ & Hg & Hph & Hphr & Hz & Hzr & _).
  - intros n. cbn. lra.
  - reflexivity.
  - lra.
  - cbn. lia.
  - exists geo, ph, z. auto.
Defined.

(** ** The color transition *)

Lemma updateParticle_color_other (s : ParticleSystem) (j : nat)
    (geo : Geometry) (idx : nat) :
  ~ (j * 3 <= idx < j * 3 + 3) ->
  color (updateParticle s j geo) !! idx = color geo !! idx.
Proof.
  intros Hout. unfold updateParticle. cbn [color].
  destruct (colorTransition s); [| reflexivity].
  rewrite !list_lookup_insert_ne by lia. reflexivity.
Qed.

Lemma for_loop_color_before (s : ParticleSystem) (n start : nat)
    (geo : Geometry) (idx : nat) :
  idx < start * 3 ->
  color (for_loop n start (updateParticle s) geo) !! idx = color geo !! idx.
Proof.
  revert start geo. induction n as [| n IH]; intros start geo Hidx; cbn.
  - reflexivity.
  - rewrite IH by lia. apply updateParticle_color_other. lia.
Qed.

(** With the transition on, the update loop stores for particle [i] the
    blend of the two colors at the factor of its phase. *)
Lemma for_loop_color_at (s : ParticleSystem) (n start : nat)
    (geo : Geometry) (i : nat) :
  colorTransition s = true ->
  start <= i < start + n -> i * 3 + 2 < length (color geo) ->
  let c := THREE.lerpColors (baseColor s) (accentColor s)
             ((Math_sin (time s * Fin 0.5 + get (phase geo) i) + Fin 1)
              / Fin 2)%num in
  let l := color (for_loop n start (updateParticle s) geo) in
  l !! (i * 3) = Some (THREE.r c) /\ l !! (i * 3 + 1) = Some (THREE.g c)
  /\ l !! (i * 3 + 2) = Some (THREE.b c).
Proof.
  intros Hct. revert start geo.
  induction n as [| n IH]; intros start geo Hi Hlen; [lia |].
  cbn [for_loop]. cbn zeta.
  destruct (decide (i = start)) as [-> | Hne].
  - rewrite !for_loop_color_before by lia.
    unfold updateParticle. cbn [color]. rewrite Hct.
    apply lookup_insert3. exact Hlen.
  - specialize (IH (S start) (updateParticle s start geo)).
    cbn zeta in IH. rewrite updateParticle_phase in IH.
    apply IH; [lia |]. rewrite updateParticle_color_length. exact Hlen.
Qed.

Lemma colorFactor_bounds (t ph : R) : (0 <= colorFactor t ph <= 1)%R.
Proof.
  unfold colorFactor. generalize (SIN_bound (t * 0.5 + ph)). lra.
Qed.

Lemma lerp_between (a b f : R) :
  (0 <= f <= 1)%R -> between a b (a + (b - a) * f).
Proof.
  intros Hf. unfold between, Rmin, Rmax.
  destruct (Rle_dec a b); nra.
Qed.

(** X4. With the color transition on, a frame update stores for every
    particle the linear blend of base and accent color at the factor
    [(sin(time*0.5 + phase) + 1) / 2], which lies in [0,1]; so every channel
    lies between the base and the accent channel, and when the two colors
    are equal every particle has exactly that color. *)
Theorem color_transition_blends (s : ParticleSystem) (pts : Points) (i : nat)
    (t ph r1 g1 b1 r2 g2 b2 : R) :
  colorTransition s = true ->
  particles s = Some pts -> i < particleCount s ->
  i * 3 + 2 < length (color (particleGeometry pts)) ->
  time s = Fin t -> phase (particleGeometry pts) !! i = Some (Fin ph) ->
  baseColor s = THREE.mkColor (Fin r1) (Fin g1) (Fin b1) ->
  accentColor s = THREE.mkColor (Fin r2) (Fin g2) (Fin b2) ->
  let f := colorFactor t ph in
  (0 <= f <= 1)%R
  /\ exists l : list num,
       colors (updateParticles s) = Some l
       /\ l !! (i * 3) = Some (Fin (r1 + (r2 - r1) * f))
       /\ l !! (i * 3 + 1) = Some (Fin (g1 + (g2 - g1) * f))
       /\ l !! (i * 3 + 2) = Some (Fin (b1 + (b2 - b1) * f))
       /\ between r1 r2 (r1 + (r2 - r1) * f)
       /\ between g1 g2 (g1 + (g2 - g1) * f)
       /\ between b1 b2 (b1 + (b2 - b1) * f)
       /\ (r1 = r2 -> g1 = g2 -> b1 = b2 ->
           (r1 + (r2 - r1) * f = r1 /\ g1 + (g2 - g1) * f = g1
            /\ b1 + (b2 - b1) * f = b1)%R).
Proof.
  intros Hct Hpts Hi Hlen Ht Hph Hbase Haccent f.
  assert (Hf : (0 <= f <= 1)%R) by apply colorFactor_bounds.
  split; [exact Hf |].
  destruct (for_loop_color_at s (particleCount s) 0 (particleGeometry pts) i
              Hct ltac:(lia) Hlen) as (H0 & H1 & H2).
  unfold get in H0, H1, H2. rewrite Hph, Ht, Hbase, Haccent in H0, H1, H2.
  cbn [default from_option] in H0, H1, H2. unfold Datatypes.id in H0, H1, H2.
  change (Math_sin (Fin t * Fin 0.5 + Fin ph))%num
    with (Fin (sin (t * 0.5 + ph))) in H0, H1, H2.
  change (Fin (sin (t * 0.5 + ph)) + Fin 1)%num
    with (Fin (sin (t * 0.5 + ph) + 1)) in H0, H1, H2.
  rewrite div_nonzero in H0, H1, H2 by lra.
  exists (color (for_loop (particleCount s) 0 (updateParticle s)
                   (particleGeometry pts))).
  split; [unfold updateParticles; rewrite Hpts; reflexivity |].
  split; [exact H0 |]. split; [exact H1 |]. split; [exact H2 |].
  split; [apply lerp_between, Hf |].
  split; [apply lerp_between, Hf |].
  split; [apply lerp_between, Hf |].
  intros -> -> ->. repeat split; ring.
Qed.

Lemma color_transition_blends_witness :
  exists l : list num,
    colors (updateParticles sampleEngine) = Some l
    /\ l !! 0 = Some (Fin (1 + (78 / 255 - 1) * colorFactor 0 1)).
Proof.
  destruct (color_transition_blends sampleEngine
              (mkPoints sampleGeometry sampleMaterial) 0 0 1
              1 (107 / 255) (107 / 255) (78 / 255) (205 / 255) (196 / 255))
    as (_ & l & Hl & H0 & _); try reflexivity; try (cbn; lia).
  exists l. split; [exact Hl | exact H0].
Defined.

(** ** The default motion *)

(** X5. Under the default preset, or any preset name the engine does not
    know, and with the pointer interaction off, a frame update moves each
    particle by the jitter alone: by [sin(time + phase) * 0.5],
    [cos(time + phase) * 0.5] and [sin(time*0.5 + phase) * 0.3], so by at
    most 0.5, 0.5 and 0.3 along the three axes. *)
Theorem default_preset_only_jitters (s : ParticleSystem) (pts : Points)
    (i : nat) (px py pz ph t : R) :
  mem (currentPreset s) presetNames = false ->
  mouseInteraction s = false ->
  time s = Fin t ->
  particles s = Some pts -> i < particleCount s ->
  position (particleGeometry pts) !! (i * 3) = Some (Fin px) ->
  position (particleGeometry pts) !! (i * 3 + 1) = Some (Fin py) ->
  position (particleGeometry pts) !! (i * 3 + 2) = Some (Fin pz) ->
  phase (particleGeometry pts) !! i = Some (Fin ph) ->
  exists (l : list num) (dx dy dz : R),
    positions (updateParticles s) = Some l
    /\ l !! (i * 3) = Some (Fin (px + dx))
    /\ l !! (i * 3 + 1) = Some (Fin (py + dy))
    /\ l !! (i * 3 + 2) = Some (Fin (pz + dz))
    /\ dx = (sin (t + ph) * 0.5)%R /\ dy = (cos (t + ph) * 0.5)%R
    /\ dz = (sin (t * 0.5 + ph) * 0.3)%R
    /\ (Rabs dx <= 0.5)%R /\ (Rabs dy <= 0.5)%R /\ (Rabs dz <= 0.3)%R.
Proof.
  intros Hpreset Hmouse Htime Hpts Hi Hx Hy Hz Hph.
  assert (Hlen : i * 3 + 2 < length (position (particleGeometry pts))).
  { apply lookup_lt_is_Some. eauto. }
  eexists _, (sin (t + ph) * 0.5)%R, (cos (t + ph) * 0.5)%R,
    (sin (t * 0.5 + ph) * 0.3)%R.
  split; [apply positions_updateParticles, Hpts |].
  rewrite !(for_loop_position_at s _ 0 _ i) by lia.
  unfold updateParticle.
  rewrite Hmouse, Htime. unfold get. rewrite Hx, Hy, Hz, Hph.
  cbn [default from_option]. unfold Datatypes.id.
  rewrite (unknown_preset_is_default _ _ _ _ Hpreset).
  cbn [position THREE.x THREE.y THREE.z].
  destruct (lookup_insert3 (position (particleGeometry pts)) (i * 3)
              (Fin px + Math_sin (Fin t + Fin ph) * Fin 0.5)%num
              (Fin py + Math_cos (Fin t + Fin ph) * Fin 0.5)%num
              (Fin pz + Math_sin (Fin t * Fin 0.5 + Fin ph) * Fin 0.3)%num Hlen)
    as (H0 & H1 & H2).
  split; [exact H0 |]. split; [exact H1 |]. split; [exact H2 |].
  split; [reflexivity |]. split; [reflexivity |]. split; [reflexivity |].
  generalize (SIN_bound (t + ph)), (COS_bound (t + ph)),
    (SIN_bound (t * 0.5 + ph)).
  intros. repeat split; apply Rabs_le; lra.
Qed.

Lemma default_preset_only_jitters_witness :
  let s := Object_assign sampleEngine
             (mkProperties None None None None None None None None
                (Some false) None None) in
  exists l : list num,
    positions (updateParticles s) = Some l
    /\ l !! 0 = Some (Fin (30 + sin (0 + 1) * 0.5)).
Proof.
  intros s.
  destruct (default_preset_only_jitters s
              (mkPoints sampleGeometry sampleMaterial) 0 30 0 40 1 0)
    as (l & dx & dy & dz & Hl & H0 & _ & _ & -> & _);
    try reflexivity; try (cbn; lia).
  exists l. split; [exact Hl | exact H0].
Defined.

(** ** The presets, one application *)

(** X6. The galaxy preset turns a particle about the vertical axis: its
    distance from the axis is kept, the angle grows by
    [0.001 / (distance*0.01 + 1)] times the elapsed time (a rate in
    (0, 0.001], smaller the farther out), and the height moves by at most
    0.1. *)
Theorem galaxy_rotates_about_axis (px py pz t : R) (i : nat) :
  let d := sqrt (px * px + pz * pz) in
  let a := (atan2 pz px + galaxyRate d * t)%R in
  let bob := (sin (t * 0.5 + INR i * 0.01) * 0.1)%R in
  applyGalaxyAnimation (THREE.mkVector3 (Fin px) (Fin py) (Fin pz)) i (Fin t)
  = THREE.mkVector3 (Fin (d * cos a)) (Fin (py + bob)) (Fin (d * sin a))
  /\ sqrt (d * cos a * (d * cos a) + d * sin a * (d * sin a)) = d
  /\ (0 < galaxyRate d <= 0.001)%R
  /\ (Rabs bob <= 0.1)%R.
Proof.
  intros d a bob.
  assert (Hd : (0 <= d)%R) by apply sqrt_pos.
  split; [| split; [| split]].
  - unfold applyGalaxyAnimation. cbn [THREE.x THREE.y THREE.z].
    rewrite sqrt_sumsq2. fold d.
    change (Fin d * Fin 0.01 + Fin 1)%num with (Fin (d * 0.01 + 1)).
    rewrite div_nonzero by lra. reflexivity.
  - apply polar_radius, Hd.
  - unfold galaxyRate, Rdiv.
    assert (Hpos : (0 < / (d * 0.01 + 1))%R)
      by (apply Rinv_0_lt_compat; lra).
    assert (Hle : (/ (d * 0.01 + 1) <= 1)%R).
    { rewrite <- Rinv_1. apply Rinv_le_contravar; lra. }
    split; nra.
  - unfold bob. generalize (SIN_bound (t * 0.5 + INR i * 0.01)).
    intros. apply Rabs_le. lra.
Qed.

(** X7. The nebula preset moves a particle by at most 0.2, 0.15 and 0.18
    along the three axes, whatever the time and the index. *)
Theorem nebula_drift_bounded (px py pz t : R) (i : nat) :
  exists dx dy dz : R,
    applyNebulaAnimation (THREE.mkVector3 (Fin px) (Fin py) (Fin pz)) i (Fin t)
    = THREE.mkVector3 (Fin (px + dx)) (Fin (py + dy)) (Fin (pz + dz))
    /\ (Rabs dx <= 0.2)%R /\ (Rabs dy <= 0.15)%R /\ (Rabs dz <= 0.18)%R.
Proof.
  eexists _, _, _. split; [reflexivity |].
  generalize (SIN_bound (t * 0.3 + INR i * 0.1)),
    (COS_bound (t * 0.2 + INR i * 0.05)),
    (SIN_bound (t * 0.4 + INR i * 0.08)),
    (COS_bound (t * 0.35 + INR i * 0.06)).
  intros Hs Hc Hs' Hc'. repeat split; apply Rabs_le; nra.
Qed.

(** X8. The wave and the aurora preset leave x and z alone and overwrite
    the height: the new height does not depend on the old one, and lies
    within 12 of zero (wave), within 10 of zero (aurora). *)
Theorem wave_and_aurora_set_height (px py py' pz t : R) (i : nat) :
  exists hw ha : R,
    applyWaveAnimation (THREE.mkVector3 (Fin px) (Fin py) (Fin pz)) i (Fin t)
    = THREE.mkVector3 (Fin px) (Fin hw) (Fin pz)
    /\ applyWaveAnimation (THREE.mkVector3 (Fin px) (Fin py') (Fin pz)) i (Fin t)
       = THREE.mkVector3 (Fin px) (Fin hw) (Fin pz)
    /\ (Rabs hw <= 12)%R
    /\ applyAuroraAnimation (THREE.mkVector3 (Fin px) (Fin py) (Fin pz)) i (Fin t)
       = THREE.mkVector3 (Fin px) (Fin ha) (Fin pz)
    /\ applyAuroraAnimation (THREE.mkVector3 (Fin px) (Fin py') (Fin pz)) i (Fin t)
       = THREE.mkVector3 (Fin px) (Fin ha) (Fin pz)
    /\ (Rabs ha <= 10)%R.
Proof.
  eexists _, _.
  split; [reflexivity |]. split; [reflexivity |].
  split; [| split; [reflexivity | split; [reflexivity |]]].
  - generalize (SIN_bound (px * 0.05 + t)),
      (SIN_bound (t * 2 + INR i * 0.1)).
    intros. apply Rabs_le. lra.
  - generalize (SIN_bound (px * 0.02 + t * 2)),
      (COS_bound (pz * 0.03 + t * 1.5)), (SIN_bound (t + INR i * 0.1)).
    intros. apply Rabs_le. lra.
Qed.

(** ** The pointer repulsion *)

Lemma influenceAt_bounds (d : R) :
  (0 <= d)%R -> (0 <= influenceAt d <= 1)%R
                /\ ((50 <= d)%R -> influenceAt d = 0%R).
Proof.
  intros Hd. unfold influenceAt, Rmax.
  destruct (Rle_dec 0 (1 - d / 50)); split; try lra.
Qed.

(** The repulsion applied to a particle that is not at the pointer. *)
Lemma mouse_apply (s : ParticleSystem) (mx my mi a b c : R) :
  mouse s = THREE.mkVector2 (Fin mx) (Fin my) -> mouseInfluence s = Fin mi ->
  let d := norm (a - mx * 10) (b - my * 10) (c - 0) in
  d <> 0%R ->
  applyMouseInteraction s (THREE.mkVector3 (Fin a) (Fin b) (Fin c))
  = THREE.mkVector3
      (Fin (a + (a - mx * 10) * (1 / d) * (influenceAt d * mi)))
      (Fin (b + (b - my * 10) * (1 / d) * (influenceAt d * mi)))
      (Fin (c + (c - 0) * (1 / d) * (influenceAt d * mi))).
Proof.
  intros Hm Hmi d Hnz.
  unfold applyMouseInteraction, THREE.clone. rewrite Hm, Hmi.
  unfold THREE.distanceTo, THREE.distanceToSquared, THREE.subv,
    THREE.normalize, THREE.divideScalar, THREE.length.
  cbn [THREE.x THREE.y THREE.z THREE.x2 THREE.y2].
  change (Fin mx * Fin 10)%num with (Fin (mx * 10)).
  change (Fin my * Fin 10)%num with (Fin (my * 10)).
  change (Fin a - Fin (mx * 10))%num with (Fin (a - mx * 10)).
  change (Fin b - Fin (my * 10))%num with (Fin (b - my * 10)).
  change (Fin c - Fin 0)%num with (Fin (c - 0)).
  rewrite sqrt_sumsq3. fold (norm (a - mx * 10) (b - my * 10) (c - 0)).
  fold d. unfold num_or.
  destruct (Req_dec_T d 0) as [Hz | _]; [contradiction |].
  rewrite !div_nonzero by (try exact Hnz; lra).
  reflexivity.
Qed.

(** X9. The pointer interaction pushes a particle straight away from the
    pointer's point [(10*mouse.x, 10*mouse.y, 0)]: with a non-negative
    strength, a particle at distance [d > 0] of that point ends at distance
    [d + max(0, 1 - d/50) * strength]; the factor lies in [0,1], and a
    particle 50 or more away does not move at all. *)
Theorem pointer_repels_within_fifty (s : ParticleSystem)
    (mx my mi a b c : R) :
  mouse s = THREE.mkVector2 (Fin mx) (Fin my) -> mouseInfluence s = Fin mi ->
  (0 <= mi)%R ->
  let d := norm (a - mx * 10) (b - my * 10) (c - 0) in
  d <> 0%R ->
  exists qa qb qc : R,
    applyMouseInteraction s (THREE.mkVector3 (Fin a) (Fin b) (Fin c))
    = THREE.mkVector3 (Fin qa) (Fin qb) (Fin qc)
    /\ (0 <= influenceAt d <= 1)%R
    /\ norm (qa - mx * 10) (qb - my * 10) (qc - 0)
       = (d + influenceAt d * mi)%R
    /\ ((50 <= d)%R -> qa = a /\ qb = b /\ qc = c).
Proof.
  intros Hm Hmi Hmi0 d Hnz.
  assert (Hd : (0 <= d)%R) by apply norm_nonneg.
  destruct (influenceAt_bounds d Hd) as (Hinf & Hfar).
  eexists _, _, _. split; [apply (mouse_apply s mx my mi a b c Hm Hmi Hnz) |].
  split; [exact Hinf |]. split.
  - fold d.
    replace (a + (a - mx * 10) * (1 / d) * (influenceAt d * mi) - mx * 10)%R
      with ((a - mx * 10) + (a - mx * 10) * (1 / d) * (influenceAt d * mi))%R
      by ring.
    replace (b + (b - my * 10) * (1 / d) * (influenceAt d * mi) - my * 10)%R
      with ((b - my * 10) + (b - my * 10) * (1 / d) * (influenceAt d * mi))%R
      by ring.
    replace (c + (c - 0) * (1 / d) * (influenceAt d * mi) - 0)%R
      with ((c - 0) + (c - 0) * (1 / d) * (influenceAt d * mi))%R by ring.
    apply norm_pushed; [exact Hnz | nra].
  - intros Hfar'. fold d. rewrite (Hfar Hfar'). repeat split; ring.
Qed.

Lemma pointer_repels_within_fifty_witness :
  exists qa qb qc : R,
    applyMouseInteraction sampleEngine
      (THREE.mkVector3 (Fin 30) (Fin 0) (Fin 40))
    = THREE.mkVector3 (Fin qa) (Fin qb) (Fin qc)
    /\ qa = 30%R /\ qb = 0%R /\ qc = 40%R.
Proof.
  assert (Hd : norm (30 - 0 * 10) (0 - 0 * 10) (40 - 0) = 50%R).
  { unfold norm.
    replace ((30 - 0 * 10) * (30 - 0 * 10) + (0 - 0 * 10) * (0 - 0 * 10)
             + (40 - 0) * (40 - 0))%R with (50 * 50)%R by ring.
    apply sqrt_square. lra. }
  destruct (pointer_repels_within_fifty sampleEngine 0 0 0.1 30 0 40)
    as (qa & qb & qc & Hq & _ & _ & Hfar); try reflexivity; try lra.
  exists qa, qb, qc. split; [exact Hq |]. apply Hfar. lra.
Defined.

(** ** Playback: loops *)

Lemma pause_idempotent (s : ParticleSystem) : pause (pause s) = pause s.
Proof.
  unfold pause. cbn [animationId set_isPlaying].
  destruct (animationId s) as [id |] eqn:Hid.
  - destruct (Nat.eqb id 0) eqn:Hz.
    + cbn [animationId set_isPlaying]. rewrite Hid, Hz. reflexivity.
    + reflexivity.
  - cbn [animationId set_isPlaying]. rewrite Hid. reflexivity.
Qed.

Lemma resume_playing (s : ParticleSystem) : isPlaying s = true -> resume s = s.
Proof. intros H. unfold resume. rewrite H. reflexivity. Qed.

(** X10. [pause()] cancels the frame request the engine holds: for an
    engine whose [animationId] is a pending request, that request is no
    longer pending afterwards and [animationId] is null; pausing twice is
    pausing once; and [resume()] on an engine that is playing does
    nothing. *)
Theorem pause_cancels_its_request (s : ParticleSystem) (id : nat) :
  animationId s = Some id -> id <> 0 ->
  (id ∉ frameRequests (pause s))
  /\ animationId (pause s) = None
  /\ isPlaying (pause s) = false
  /\ (forall k, k <> id -> (k ∈ frameRequests s) ->
        (k ∈ frameRequests (pause s)))
  /\ pause (pause s) = pause s
  /\ (isPlaying s = true -> resume s = s).
Proof.
  intros Hid Hnz.
  assert (Hp : pause s
               = set_animationId None
                   (cancelAnimationFrame id (set_isPlaying false s))).
  { unfold pause. cbn [animationId set_isPlaying]. rewrite Hid.
    destruct (Nat.eqb id 0) eqn:Hz; [| reflexivity].
    apply Nat.eqb_eq in Hz. contradiction. }
  split; [| split; [| split; [| split; [| split]]]].
  - rewrite Hp. cbn. rewrite list_elem_of_filter. tauto.
  - rewrite Hp. reflexivity.
  - rewrite Hp. reflexivity.
  - intros k Hk Hin. rewrite Hp. cbn. apply list_elem_of_filter. auto.
  - apply pause_idempotent.
  - apply resume_playing.
Qed.

Lemma pause_cancels_its_request_witness :
  frameRequests (pause sampleEngine) = [] /\ animationId (pause sampleEngine) = None.
Proof.
  destruct (pause_cancels_its_request sampleEngine 1 eq_refl ltac:(lia))
    as (_ & H & _).
  split; [reflexivity | exact H].
Defined.

(** The callbacks of one host frame, on a playing engine: one update each,
    and each requests one frame. *)
Lemma fold_callbacks_playing (ts : num) (reqs : list nat) (s : ParticleSystem)
    (t0 v : R) :
  isPlaying s = true -> time s = Fin t0 -> speed s = Fin v ->
  let s' := fold_left (fun s' _ => frameCallback ts s') reqs s in
  isPlaying s' = true /\ speed s' = Fin v
  /\ time s' = Fin (t0 + INR (length reqs) * (0.016 * v))
  /\ length (frameRequests s') = length (frameRequests s) + length reqs.
Proof.
  revert s t0. induction reqs as [| id reqs IH]; intros s t0 Hp Ht Hv; cbn zeta.
  - cbn. repeat split; try assumption; [| lia]. rewrite Ht. f_equal. lra.
  - cbn [fold_left]. change (frameCallback ts s) with (animate s).
    destruct (IH (animate s) (t0 + 0.016 * v)%R) as (H1 & H2 & H3 & H4).
    + rewrite isPlaying_animate. exact Hp.
    + rewrite time_animate, Ht, Hv by exact Hp. reflexivity.
    + rewrite speed_animate. exact Hv.
    + split; [exact H1 |]. split; [exact H2 |]. split.
      * rewrite H3. f_equal.
        change (length (id :: reqs)) with (S (length reqs)).
        rewrite S_INR. lra.
      * rewrite H4, frameRequests_animate, length_app by exact Hp.
        cbn. lia.
Qed.

(** X11. A host frame of a playing engine runs one update per pending
    request and leaves as many requests pending; [start()] on an engine
    that is already running adds a second pending request, so from then on
    every host frame advances the elapsed time by two steps, not one. *)
Theorem start_twice_doubles_the_loop (s : ParticleSystem) (ts : num)
    (t0 v : R) :
  isPlaying s = true -> time s = Fin t0 -> speed s = Fin v ->
  let n := length (frameRequests s) in
  time (hostFrame ts s) = Fin (t0 + INR n * (0.016 * v))
  /\ length (frameRequests (hostFrame ts s)) = n
  /\ length (frameRequests (start s)) = n + 1
  /\ time (hostFrame ts (start s))
     = Fin (t0 + 0.016 * v + INR (n + 1) * (0.016 * v))
  /\ length (frameRequests (hostFrame ts (start s))) = n + 1.
Proof.
  intros Hp Ht Hv n.
  assert (Hframe : forall s' t', isPlaying s' = true -> time s' = Fin t' ->
            speed s' = Fin v ->
            time (hostFrame ts s')
            = Fin (t' + INR (length (frameRequests s')) * (0.016 * v))
            /\ length (frameRequests (hostFrame ts s'))
               = length (frameRequests s')).
  { intros s' t' Hp' Ht' Hv'. unfold hostFrame.
    destruct (fold_callbacks_playing ts (frameRequests s')
                (set_frameRequests [] s') t' v Hp' Ht' Hv')
      as (_ & _ & H3 & H4).
    split; [exact H3 | exact H4]. }
  destruct (Hframe s t0 Hp Ht Hv) as (H1 & H2).
  assert (Hs : start s = animate s).
  { unfold start. destruct s; cbn in Hp; subst; reflexivity. }
  assert (Hreq : length (frameRequests (start s)) = n + 1).
  { rewrite Hs, frameRequests_animate, length_app by exact Hp. reflexivity. }
  destruct (Hframe (start s) (t0 + 0.016 * v)%R) as (H3 & H4).
  - rewrite Hs, isPlaying_animate. exact Hp.
  - rewrite Hs, time_animate, Ht, Hv by exact Hp. reflexivity.
  - rewrite Hs, speed_animate. exact Hv.
  - rewrite Hreq in H3, H4. auto.
Qed.

Lemma start_twice_doubles_the_loop_witness :
  time (hostFrame (Fin 16) (start sampleEngine))
  = Fin (0 + 0.016 * 1 + INR (1 + 1) * (0.016 * 1)).
Proof.
  destruct (start_twice_doubles_the_loop sampleEngine (Fin 16) 0 1)
    as (_ & _ & _ & H & _); try reflexivity.
  exact H.
Defined.

(** ** The material's uniforms *)

Lemma material_createParticles (s : ParticleSystem) :
  material (createParticles s)
  = Some (ParticleShaderMaterial.new (baseColor s) (accentColor s)
            (particleSize s) (particleShape s)).
Proof.
  unfold material, createParticles. destruct (for_loop _ _ _ _) as [rnd geo].
  reflexivity.
Qed.

Lemma material_updateParticles (s : ParticleSystem) (pts : Points) :
  particles s = Some pts ->
  material (updateParticles s)
  = Some (ParticleShaderMaterial.updateTime (particleMaterial pts) (time s)).
Proof. intros H. unfold material, updateParticles. rewrite H. reflexivity. Qed.

(** X12. A frame of a playing engine with a population sets the material's
    time uniform to the engine's new elapsed time and leaves the other
    uniforms (global size, colors, shape type) as they were. *)
Theorem frame_pushes_time_uniform (s : ParticleSystem) (pts : Points) :
  isPlaying s = true -> particles s = Some pts ->
  exists m : ParticleShaderMaterial.uniforms,
    material (animate s) = Some m
    /\ ParticleShaderMaterial.u_time m = time (animate s)
    /\ ParticleShaderMaterial.u_time m = (time s + Fin 0.016 * speed s)%num
    /\ ParticleShaderMaterial.globalSize m
       = ParticleShaderMaterial.globalSize (particleMaterial pts)
    /\ ParticleShaderMaterial.u_baseColor m
       = ParticleShaderMaterial.u_baseColor (particleMaterial pts)
    /\ ParticleShaderMaterial.u_accentColor m
       = ParticleShaderMaterial.u_accentColor (particleMaterial pts)
    /\ ParticleShaderMaterial.shapeType m
       = ParticleShaderMaterial.shapeType (particleMaterial pts).
Proof.
  intros Hp Hpts.
  exists (ParticleShaderMaterial.updateTime (particleMaterial pts)
            (time s + Fin 0.016 * speed s)%num).
  split.
  - unfold animate. rewrite Hp. cbn [negb requestAnimationFrame].
    erewrite material_updateParticles; [reflexivity | exact Hpts].
  - rewrite time_animate by exact Hp. repeat split; reflexivity.
Qed.

Lemma frame_pushes_time_uniform_witness :
  exists m : ParticleShaderMaterial.uniforms,
    material (animate sampleEngine) = Some m
    /\ ParticleShaderMaterial.u_time m = time (animate sampleEngine).
Proof.
  destruct (frame_pushes_time_uniform sampleEngine
              (mkPoints sampleGeometry sampleMaterial) eq_refl eq_refl)
    as (m & Hm & Ht & _).
  exists m. split; [exact Hm | exact Ht].
Defined.

Lemma needsRecreate_false_shape (s : ParticleSystem) (p : properties) :
  needsRecreate s p = false ->
  default (particleShape s) (p_particleShape p) = particleShape s.
Proof.
  unfold needsRecreate. intros H. apply orb_false_elim in H as [_ H].
  destruct (p_particleShape p) as [sh |]; [| reflexivity].
  apply negb_false_iff, String.eqb_eq in H. exact H.
Qed.

Lemma updateProperties_count_shape (p : properties) (s : ParticleSystem) :
  particleCount (updateProperties p s)
  = default (particleCount s) (p_particleCount p)
  /\ particleShape (updateProperties p s)
     = default (particleShape s) (p_particleShape p).
Proof.
  unfold updateProperties. destruct (needsRecreate s p).
  - destruct (createParticles_fields (Object_assign s p))
      as (_ & Hc & _ & _ & Hsh & _).
    rewrite Hc, Hsh. split; reflexivity.
  - change (particles (Object_assign s p)) with (particles s).
    destruct (particles s); split; reflexivity.
Qed.

(** X13. Applying the same property bag a second time never recreates the
    population: after the first application the particle count and the
    shape are those of the bag, so the second one updates in place and
    keeps every array. *)
Theorem updateProperties_twice_keeps_population (p : properties)
    (s : ParticleSystem) :
  needsRecreate (updateProperties p s) p = false
  /\ geometry (updateProperties p (updateProperties p s))
     = geometry (updateProperties p s)
  /\ phases (updateProperties p (updateProperties p s))
     = phases (updateProperties p s).
Proof.
  assert (H : needsRecreate (updateProperties p s) p = false).
  { destruct (updateProperties_count_shape p s) as (Hc & Hsh).
    unfold needsRecreate. rewrite Hc, Hsh.
    destruct (p_particleCount p) as [c |], (p_particleShape p) as [sh |];
      cbn [default from_option]; unfold Datatypes.id;
      rewrite ?Nat.eqb_refl, ?String.eqb_refl; reflexivity. }
  split; [exact H |].
  assert (Hg := updateProperties_in_place (updateProperties p s) p H).
  split; [exact Hg |]. unfold phases. rewrite Hg. reflexivity.
Qed.

(** X14. After a property update that keeps the population, the material's
    global size and two colors are the engine's new size and colors, and
    its time and shape uniforms are untouched; after one that recreates
    it, the material is new: its time uniform is 0 and its global size is
    the engine's size, or 2 when that size is 0. *)
Theorem updateProperties_pushes_uniforms (p : properties) (s : ParticleSystem)
    (pts : Points) :
  particles s = Some pts ->
  let s' := updateProperties p s in
  exists m : ParticleShaderMaterial.uniforms,
    material s' = Some m
    /\ ParticleShaderMaterial.u_baseColor m = baseColor s'
    /\ ParticleShaderMaterial.u_accentColor m = accentColor s'
    /\ (needsRecreate s p = false ->
        ParticleShaderMaterial.globalSize m = particleSize s'
        /\ ParticleShaderMaterial.u_time m
           = ParticleShaderMaterial.u_time (particleMaterial pts)
        /\ ParticleShaderMaterial.shapeType m
           = ParticleShaderMaterial.shapeType (particleMaterial pts))
    /\ (needsRecreate s p = true ->
        ParticleShaderMaterial.globalSize m = num_or (particleSize s') (Fin 2)
        /\ ParticleShaderMaterial.u_time m = Fin 0).
Proof.
  intros Hpts s'. unfold s', updateProperties.
  destruct (needsRecreate s p) eqn:Hre.
  - eexists. split; [apply material_createParticles |].
    unfold createParticles. destruct (for_loop _ _ _ _) as [rnd geo].
    split; [reflexivity |]. split; [reflexivity |].
    split; [discriminate |]. intros _. split; reflexivity.
  - change (particles (Object_assign s p)) with (particles s). rewrite Hpts.
    eexists. split; [reflexivity |].
    split; [reflexivity |]. split; [reflexivity |].
    split; [| discriminate]. intros _. repeat split; reflexivity.
Qed.

Lemma updateProperties_pushes_uniforms_witness :
  let p := mkProperties None (Some (Fin 0)) None None None None None None
             None None None in
  exists m : ParticleShaderMaterial.uniforms,
    material (updateProperties p sampleEngine) = Some m
    /\ ParticleShaderMaterial.globalSize m = Fin 0.
Proof.
  intros p.
  destruct (updateProperties_pushes_uniforms p sampleEngine
              (mkPoints sampleGeometry sampleMaterial) eq_refl)
    as (m & Hm & _ & _ & Hin & _).
  exists m. split; [exact Hm |]. apply Hin. reflexivity.
Defined.

(** ** A property update recreates the population, or keeps it *)

(** The creation loop takes nine random numbers per particle. *)
Lemma for_loop_create_random (s : ParticleSystem) (n start : nat)
    (rnd : nat -> R) (geo : Geometry) (m : nat) :
  fst (for_loop n start (createParticle s) (rnd, geo)) m = rnd (9 * n + m).
Proof.
  revert start rnd geo m. induction n as [| n IH]; intros start rnd geo m.
  - reflexivity.
  - cbn [for_loop].
    rewrite (surjective_pairing (createParticle s start (rnd, geo))).
    rewrite IH, fst_createParticle. f_equal. lia.
Qed.

Lemma random_createParticles (s : ParticleSystem) (m : nat) :
  random (createParticles s) m = random s (9 * particleCount s + m).
Proof.
  unfold createParticles.
  assert (H := for_loop_create_random s (particleCount s) 0 (random s)
                 (emptyGeometry (particleCount s)) m).
  destruct (for_loop _ _ _ _) as [rnd geo]. exact H.
Qed.

Lemma needsRecreate_false_iff (s : ParticleSystem) (p : properties) :
  needsRecreate s p = false
  <-> (forall c, p_particleCount p = Some c -> c = particleCount s)
      /\ (forall sh, p_particleShape p = Some sh -> sh = particleShape s).
Proof.
  rewrite <- not_true_iff_false, needsRecreate_iff. split.
  - intros H. split.
    + intros c Hc. destruct (decide (c = particleCount s)) as [E | E];
        [exact E |]. exfalso. apply H. left. eauto.
    + intros sh Hsh. destruct (decide (sh = particleShape s)) as [E | E];
        [exact E |]. exfalso. apply H. right. eauto.
  - intros [Hc Hsh] [(c & Hc' & Hne) | (sh & Hsh' & Hne)].
    + apply Hne, Hc, Hc'.
    + apply Hne, Hsh, Hsh'.
Qed.

(** C6. A property update that gives a particle count or a shape other
    than the current one makes a new population: the engine has the new
    count and shape, five arrays of the lengths the new count asks for,
    phases and positions computed from numbers newly drawn from
    [Math.random()] (nine per particle), and a new material.  Any other
    update (so one that gives neither key: colors, sizes, speeds, preset,
    toggles, pointer strength) keeps count and shape, draws no random
    number and leaves the population's arrays, the phases among them, as
    they were. *)
Theorem updateProperties_recreates_iff (s : ParticleSystem) (p : properties) :
  let s' := updateProperties p s in
  let count := default (particleCount s) (p_particleCount p) in
  let shape := default (particleShape s) (p_particleShape p) in
  ((exists c, p_particleCount p = Some c /\ c <> particleCount s)
   \/ (exists sh, p_particleShape p = Some sh /\ sh <> particleShape s) ->
   particleCount s' = count /\ particleShape s' = shape
   /\ arrays_match s' = true
   /\ (exists l : list num,
         phases s' = Some l /\ length l = count
         /\ forall i, i < count ->
              l !! i = Some (Fin (random s (9 * i + 8)) * Math_PI * Fin 2)%num)
   /\ (forall i, i < count ->
         let pt := sphericalPoint (random s (9 * i)) (random s (9 * i + 1))
                     (random s (9 * i + 2)) in
         exists l : list num,
           positions s' = Some l
           /\ l !! (i * 3) = Some (THREE.x pt)
           /\ l !! (i * 3 + 1) = Some (THREE.y pt)
           /\ l !! (i * 3 + 2) = Some (THREE.z pt))
   /\ material s'
      = Some (ParticleShaderMaterial.new (baseColor s') (accentColor s')
                (particleSize s') shape)
   /\ (forall m, random s' m = random s (9 * count + m)))
  /\ ((forall c, p_particleCount p = Some c -> c = particleCount s) ->
      (forall sh, p_particleShape p = Some sh -> sh = particleShape s) ->
      particleCount s' = particleCount s
      /\ particleShape s' = particleShape s
      /\ geometry s' = geometry s /\ phases s' = phases s
      /\ random s' = random s)
  /\ (p_particleCount p = None -> p_particleShape p = None ->
      geometry s' = geometry s /\ phases s' = phases s).
Proof.
  intros s' count shape.
  assert (Hkeep : needsRecreate s p = false ->
            particleCount s' = particleCount s
            /\ particleShape s' = particleShape s
            /\ geometry s' = geometry s /\ phases s' = phases s
            /\ random s' = random s).
  { intros H.
    destruct (proj1 (needsRecreate_false_iff s p) H) as [Hc Hsh].
    assert (Hg := updateProperties_in_place s p H). fold s' in Hg.
    unfold phases. rewrite Hg.
    unfold s', updateProperties. rewrite H.
    change (particles (Object_assign s p)) with (particles s).
    destruct (particles s) as [pts |];
      cbn [particleCount particleShape random set_particles Object_assign].
    all: destruct (p_particleCount p) as [c |];
      [rewrite (Hc c eq_refl) |];
      (destruct (p_particleShape p) as [sh |];
         [rewrite (Hsh sh eq_refl) |]); cbn; auto. }
  split; [| split].
  - intros Hchanged. apply needsRecreate_iff in Hchanged.
    unfold s', updateProperties. rewrite Hchanged.
    set (s1 := Object_assign s p).
    assert (Hcount : particleCount s1 = count) by reflexivity.
    assert (Hshape : particleShape s1 = shape) by reflexivity.
    assert (Hrnd : random s1 = random s) by reflexivity.
    destruct (createParticles_fields s1) as (_ & Hc & _ & _ & Hsh & _).
    split; [rewrite Hc; exact Hcount |].
    split; [rewrite Hsh; exact Hshape |].
    split; [apply createParticles_arrays_match |].
    split; [| split; [| split]].
    + destruct (phases_createParticles s1) as (l & Hl & Hlen & Hat).
      rewrite Hcount, Hrnd in *. exists l. auto.
    + intros i Hi. rewrite <- Hrnd.
      apply positions_createParticles. rewrite Hcount. exact Hi.
    + rewrite material_createParticles. rewrite <- Hshape.
      unfold createParticles. destruct (for_loop _ _ _ _). reflexivity.
    + intros m. rewrite random_createParticles, Hcount, Hrnd. reflexivity.
  - intros Hc Hsh. apply Hkeep, needsRecreate_false_iff. auto.
  - intros Hc Hsh.
    destruct Hkeep as (_ & _ & Hg & Hph & _); [| auto].
    unfold needsRecreate. rewrite Hc, Hsh. reflexivity.
Qed.

Lemma updateProperties_recreates_iff_witness :
  let color := mkProperties None None None
                 (Some (THREE.mkColor (Fin 0) (Fin 1) (Fin 0)))
                 None None None None None None None in
  let more := mkProperties (Some 3) None None None None None None None None
                None None in
  phases (updateProperties color sampleEngine) = Some [Fin 1]
  /\ particleCount (updateProperties more sampleEngine) = 3
  /\ arrays_match (updateProperties more sampleEngine) = true
  /\ exists l : list num,
       phases (updateProperties more sampleEngine) = Some l
       /\ length l = 3
       /\ l !! 2 = Some (Fin (1 / 2) * Math_PI * Fin 2)%num.
Proof.
  intros color more. split.
  - destruct (updateProperties_recreates_iff sampleEngine color)
      as (_ & _ & H).
    destruct (H eq_refl eq_refl) as [_ Hph]. exact Hph.
  - destruct (updateProperties_recreates_iff sampleEngine more)
      as (H & _).
    destruct H as (Hc & _ & Ham & (l & Hl & Hlen & Hat) & _).
    { left. exists 3. split; [reflexivity | cbn; lia]. }
    split; [exact Hc |]. split; [exact Ham |].
    exists l. split; [exact Hl |]. split; [exact Hlen |].
    apply (Hat 2). cbn. lia.
Defined.

(** ** The shape uniform follows the shape name *)

Lemma createParticles_shape_synced (s : ParticleSystem) :
  shape_synced (createParticles s).
Proof.
  unfold shape_synced, createParticles.
  destruct (for_loop _ _ _ _) as [rnd geo]. reflexivity.
Qed.

Lemma animate_shape_synced (s : ParticleSystem) :
  shape_synced s -> shape_synced (animate s).
Proof.
  intros H. unfold animate. destruct (isPlaying s); cbn [negb]; [| exact H].
  cbn [requestAnimationFrame]. unfold updateParticles.
  set (s1 := set_time _ _).
  change (shape_synced s1) in H. unfold shape_synced in H |- *.
  destruct (particles s1) as [pts |] eqn:Hpts.
  - exact H.
  - rewrite Hpts. exact I.
Qed.

Lemma step_shape_synced (s : ParticleSystem) (e : event) :
  shape_synced s -> shape_synced (step s e).
Proof.
  intros H. destruct e as [ts | cx cy rect | name | p | | | |]; cbn [step].
  - apply (hostFrame_invariant shape_synced);
      [apply animate_shape_synced | intros s' l Hs'; exact Hs' | exact H].
  - unfold mousemove. destruct (mouseInteraction s); exact H.
  - exact H.
  - unfold updateProperties.
    destruct (needsRecreate s p) eqn:Hre;
      [apply createParticles_shape_synced |].
    change (particles (Object_assign s p)) with (particles s).
    unfold shape_synced in H |- *.
    destruct (particles s) as [pts |] eqn:Hpts.
    + cbn [particles set_particles particleMaterial].
      change (particleShape (set_particles _ (Object_assign s p)))
        with (default (particleShape s) (p_particleShape p)).
      rewrite (needsRecreate_false_shape s p Hre). exact H.
    + change (particles (Object_assign s p)) with (particles s).
      rewrite Hpts. exact I.
  - unfold start. apply animate_shape_synced. exact H.
  - unfold pause. cbn [animationId set_isPlaying].
    destruct (animationId s) as [id |]; [| exact H].
    destruct (Nat.eqb id 0); exact H.
  - unfold resume. destruct (isPlaying s); cbn [negb]; [exact H |].
    apply animate_shape_synced. exact H.
  - apply createParticles_shape_synced.
Qed.

(** X15. The shape uniform of the material is always the type that
    [getShapeType] gives the engine's current shape name: a population is
    created with it, a change of shape name recreates the population, and
    nothing else touches either. *)
Theorem shape_uniform_follows_shape_name (s : ParticleSystem)
    (es : list event) :
  shape_synced s -> shape_synced (run es s).
Proof.
  revert s. induction es as [| e es IH]; intros s H; cbn.
  - exact H.
  - apply IH, step_shape_synced, H.
Qed.

Lemma shape_uniform_follows_shape_name_witness :
  shape_synced
    (run [UpdateProperties
            (mkProperties None None (Some "heart") None None None None None
               None None None);
          Frame (Fin 0)] sampleEngine).
Proof.
  apply (shape_uniform_follows_shape_name sampleEngine).
  vm_compute. reflexivity.
Defined.

(** ** The camera *)

(** X16. With a positive rotation speed [updateCamera] puts the camera at
    [(100 cos a, y, 100 sin a)] for [a = time * rotationSpeed * 0.1]: at
    distance exactly 100 of the vertical axis, its height kept; at time 0
    that is [(100, y, 0)], not the initial [(0, 0, 100)].  With a rotation
    speed that is zero or negative the camera is not moved. *)
Theorem camera_orbits_at_radius_100 (s : ParticleSystem) (t rs cx cy cz : R) :
  time s = Fin t -> rotationSpeed s = Fin rs ->
  let a := (t * rs * 0.1)%R in
  ((0 < rs)%R ->
   updateCamera s (THREE.mkVector3 (Fin cx) (Fin cy) (Fin cz))
   = THREE.mkVector3 (Fin (cos a * 100)) (Fin cy) (Fin (sin a * 100))
   /\ sqrt (cos a * 100 * (cos a * 100) + sin a * 100 * (sin a * 100)) = 100%R
   /\ (t = 0%R -> (cos a * 100 = 100 /\ sin a * 100 = 0)%R))
  /\ ((rs <= 0)%R ->
      updateCamera s (THREE.mkVector3 (Fin cx) (Fin cy) (Fin cz))
      = THREE.mkVector3 (Fin cx) (Fin cy) (Fin cz)).
Proof.
  intros Ht Hrs a. unfold updateCamera, num_gt. rewrite Ht, Hrs. split.
  - intros Hpos. destruct (Rlt_dec 0 rs) as [_ | H]; [| contradiction].
    split; [reflexivity |]. split.
    + replace (cos a * 100 * (cos a * 100) + sin a * 100 * (sin a * 100))%R
        with (100 * cos a * (100 * cos a) + 100 * sin a * (100 * sin a))%R
        by ring.
      apply polar_radius. lra.
    + intros ->. unfold a.
      replace (0 * rs * 0.1)%R with 0%R by ring.
      rewrite cos_0, sin_0. split; ring.
  - intros Hle. destruct (Rlt_dec 0 rs) as [H | _]; [lra | reflexivity].
Qed.

Lemma camera_orbits_at_radius_100_witness :
  updateCamera sampleEngine initialCamera
  = THREE.mkVector3 (Fin (cos (0 * 0.5 * 0.1) * 100)) (Fin 0)
      (Fin (sin (0 * 0.5 * 0.1) * 100)).
Proof.
  destruct (camera_orbits_at_radius_100 sampleEngine 0 0.5 0 0 100
              eq_refl eq_refl) as (H & _).
  destruct H as (H & _); [lra | exact H].
Defined.

(** ** Cloning a material *)

Lemma newMaterial_of_name (baseColor accentColor : THREE.Color) (size : num)
    (shape : string) :
  newMaterial baseColor accentColor size (JString shape)
  = ParticleShaderMaterial.new baseColor accentColor size shape.
Proof.
  unfold newMaterial, ParticleShaderMaterial.new,
    ParticleShaderMaterial.getShapeType, js_or at 2.
  cbn [truthy]. destruct (String.eqb shape ""); reflexivity.
Qed.

Lemma uniforms_ext (m1 m2 : ParticleShaderMaterial.uniforms) :
  ParticleShaderMaterial.u_time m1 = ParticleShaderMaterial.u_time m2 ->
  ParticleShaderMaterial.globalSize m1 = ParticleShaderMaterial.globalSize m2 ->
  ParticleShaderMaterial.u_baseColor m1 = ParticleShaderMaterial.u_baseColor m2 ->
  ParticleShaderMaterial.u_accentColor m1
  = ParticleShaderMaterial.u_accentColor m2 ->
  ParticleShaderMaterial.shapeType m1 = ParticleShaderMaterial.shapeType m2 ->
  m1 = m2.
Proof. destruct m1, m2. cbn. intros. subst. reflexivity. Qed.

Lemma shape_type_survives_clone (n : nat) :
  n <= 3 ->
  js_or (property ParticleShaderMaterial.shapeMap
           (to_key (js_or (js_or (property ParticleShaderMaterial.typeMap
                                    (to_key (JNumber n)))
                             (JString "circle"))
                      (JString "circle"))))
    (JNumber 0)
  = JNumber n.
Proof.
  intros Hn.
  destruct n as [| [| [| [| n]]]]; try (vm_compute; reflexivity). lia.
Qed.

(** X17. [clone()] of a material whose shape type is one of 0..3 keeps the
    time, both colors and the shape type; it keeps the global size too
    unless that is 0, which the constructor's [size || 2.0] turns into 2. *)
Theorem clone_keeps_uniforms_but_zero_size (m : ParticleShaderMaterial.uniforms)
    (n : nat) (gs : R) :
  ParticleShaderMaterial.shapeType m = JNumber n -> n <= 3 ->
  ParticleShaderMaterial.globalSize m = Fin gs ->
  ParticleShaderMaterial.u_time (cloneMaterial m)
  = ParticleShaderMaterial.u_time m
  /\ ParticleShaderMaterial.u_baseColor (cloneMaterial m)
     = ParticleShaderMaterial.u_baseColor m
  /\ ParticleShaderMaterial.u_accentColor (cloneMaterial m)
     = ParticleShaderMaterial.u_accentColor m
  /\ ParticleShaderMaterial.shapeType (cloneMaterial m) = JNumber n
  /\ (gs <> 0%R -> cloneMaterial m = m)
  /\ (gs = 0%R -> ParticleShaderMaterial.globalSize (cloneMaterial m) = Fin 2).
Proof.
  intros Hshape Hn Hgs.
  assert (Hst : ParticleShaderMaterial.shapeType (cloneMaterial m) = JNumber n).
  { unfold cloneMaterial, newMaterial, ParticleShaderMaterial.getShapeName.
    cbn [ParticleShaderMaterial.shapeType ParticleShaderMaterial.updateTime].
    rewrite Hshape. apply shape_type_survives_clone, Hn. }
  split; [reflexivity |]. split; [reflexivity |]. split; [reflexivity |].
  split; [exact Hst |]. split.
  - intros Hnz. apply uniforms_ext; try reflexivity.
    + unfold cloneMaterial, newMaterial.
      cbn [ParticleShaderMaterial.globalSize ParticleShaderMaterial.updateTime].
      rewrite Hgs. unfold num_or.
      destruct (Req_dec_T gs 0); [contradiction | reflexivity].
    + rewrite Hst, Hshape. reflexivity.
  - intros ->. unfold cloneMaterial, newMaterial.
    cbn [ParticleShaderMaterial.globalSize ParticleShaderMaterial.updateTime].
    rewrite Hgs. unfold num_or.
    destruct (Req_dec_T 0 0); [reflexivity | contradiction].
Qed.

Lemma clone_keeps_uniforms_but_zero_size_witness :
  cloneMaterial sampleMaterial = sampleMaterial.
Proof.
  destruct (clone_keeps_uniforms_but_zero_size sampleMaterial 0 2 eq_refl
              ltac:(lia) eq_refl) as (_ & _ & _ & _ & H & _).
  apply H. lra.
Defined.

(** * The preset manager *)

(** ** The map *)

Lemma map_has_true (m : list (string * PresetManager.preset)) (key : string) :
  PresetManager.map_has m key = true <-> key ∈ m.*1.
Proof.
  unfold PresetManager.map_has. induction m as [| [k v] m IH]; cbn.
  - split; [discriminate | intros H; inversion H].
  - destruct (String.eqb k key) eqn:E.
    + apply String.eqb_eq in E. subst. split; [intros _; left | reflexivity].
    + apply String.eqb_neq in E. rewrite IH. split.
      * intros H. right. exact H.
      * intros H. apply elem_of_cons in H as [H | H]; [congruence | exact H].
Qed.

Lemma map_has_false (m : list (string * PresetManager.preset)) (key : string) :
  PresetManager.map_has m key = false <-> PresetManager.map_get m key = None.
Proof.
  unfold PresetManager.map_has.
  destruct (PresetManager.map_get m key); split; congruence.
Qed.

Lemma map_set_fresh (m : list (string * PresetManager.preset)) (key : string)
    (v : PresetManager.preset) :
  PresetManager.map_get m key = None ->
  PresetManager.map_set m key v = m ++ [(key, v)].
Proof.
  induction m as [| [k w] m IH]; cbn; [reflexivity |].
  destruct (String.eqb k key); [discriminate |].
  intros H. rewrite IH by exact H. reflexivity.
Qed.

Lemma map_get_app (m1 m2 : list (string * PresetManager.preset))
    (key : string) :
  PresetManager.map_get (m1 ++ m2) key
  = match PresetManager.map_get m1 key with
    | Some v => Some v
    | None => PresetManager.map_get m2 key
    end.
Proof.
  induction m1 as [| [k w] m1 IH]; cbn; [reflexivity |].
  destruct (String.eqb k key); [reflexivity | exact IH].
Qed.

Lemma map_delete_last (m : list (string * PresetManager.preset))
    (key : string) (v : PresetManager.preset) :
  PresetManager.map_get m key = None ->
  PresetManager.map_delete (m ++ [(key, v)]) key = m.
Proof.
  induction m as [| [k w] m IH]; cbn.
  - rewrite String.eqb_refl. reflexivity.
  - destruct (String.eqb k key); [discriminate |].
    intros H. rewrite IH by exact H. reflexivity.
Qed.

Lemma map_get_delete (m : list (string * PresetManager.preset))
    (key : string) :
  NoDup m.*1 ->
  PresetManager.map_get (PresetManager.map_delete m key) key = None
  /\ forall k, k <> key ->
       PresetManager.map_get (PresetManager.map_delete m key) k
       = PresetManager.map_get m k.
Proof.
  induction m as [| [k w] m IH]; cbn; intros Hnd; [auto |].
  apply NoDup_cons in Hnd as [Hk Hnd].
  destruct (String.eqb k key) eqn:E.
  - apply String.eqb_eq in E. subst k. split.
    + apply map_has_false. destruct (PresetManager.map_has m key) eqn:Hh;
        [| reflexivity].
      apply map_has_true in Hh. contradiction.
    + intros k' Hne.
      destruct (String.eqb key k') eqn:E'; [| reflexivity].
      apply String.eqb_eq in E'. congruence.
  - destruct (IH Hnd) as (H1 & H2). cbn. rewrite E. split; [exact H1 |].
    intros k' Hne. rewrite H2 by exact Hne. reflexivity.
Qed.

(** ** generatePresetKey *)

Lemma nextKey_Some (fuel : nat) (m : list (string * PresetManager.preset))
    (baseKey key : string) (counter : nat) (key' : string) :
  PresetManager.nextKey fuel m baseKey key counter = Some key' ->
  PresetManager.map_has m key' = false
  /\ (PresetManager.map_has m key = false -> key' = key)
  /\ (key' = key
      \/ exists j, j < fuel
                   /\ key' = PresetManager.numberedKey baseKey (counter + j)).
Proof.
  revert key counter.
  induction fuel as [| fuel IH]; intros key counter; cbn;
    destruct (PresetManager.map_has m key) eqn:Hhas; try discriminate.
  - intros [= <-]. auto.
  - intros H. destruct (IH _ _ H) as (H1 & _ & H3).
    split; [exact H1 |]. split; [discriminate |]. right.
    destruct H3 as [-> | (j & Hj & ->)].
    + exists 0. split; [lia |]. rewrite Nat.add_0_r. reflexivity.
    + exists (S j). split; [lia |]. f_equal. lia.
  - intros [= <-]. auto.
Qed.

Lemma nextKey_None (fuel : nat) (m : list (string * PresetManager.preset))
    (baseKey key : string) (counter : nat) :
  PresetManager.nextKey fuel m baseKey key counter = None ->
  PresetManager.map_has m key = true
  /\ forall j, j < fuel ->
       PresetManager.map_has m (PresetManager.numberedKey baseKey (counter + j))
       = true.
Proof.
  revert key counter.
  induction fuel as [| fuel IH]; intros key counter; cbn;
    destruct (PresetManager.map_has m key) eqn:Hhas; try discriminate.
  - intros _. split; [reflexivity |]. intros j Hj. lia.
  - intros H. destruct (IH _ _ H) as (H1 & H2).
    split; [reflexivity |]. intros [| j] Hj.
    + rewrite Nat.add_0_r. exact H1.
    + replace (counter + S j) with (S counter + j) by lia. apply H2. lia.
Qed.

Lemma append_ne (s : string) (c : Ascii.ascii) (rest : string) :
  s +:+ String c rest <> s.
Proof.
  induction s as [| a s IH]; cbn; [discriminate |].
  intros [= H]. exact (IH H).
Qed.

Lemma numberedKey_inj (baseKey : string) (c1 c2 : nat) :
  PresetManager.numberedKey baseKey c1 = PresetManager.numberedKey baseKey c2 ->
  c1 = c2.
Proof.
  unfold PresetManager.numberedKey. intros H.
  apply (inj (String.append baseKey)) in H. cbn in H.
  injection H as H. exact (pretty_nat_inj _ _ H).
Qed.

(** The loop ends within as many turns as the map has entries: of the
    base key and the first [length m] numbered keys, all different, the map
    cannot hold every one. *)
Lemma generatePresetKey_total (m : list (string * PresetManager.preset))
    (name : string) :
  exists key, PresetManager.generatePresetKey m name = Some key.
Proof.
  unfold PresetManager.generatePresetKey.
  set (b := PresetManager.baseKeyOf name).
  destruct (PresetManager.nextKey (length m) m b b 1) as [key |] eqn:E;
    [eauto |].
  exfalso. destruct (nextKey_None _ _ _ _ _ E) as (Hb & Hnum).
  set (tried := b :: ((fun j => PresetManager.numberedKey b (1 + j))
                        <$> seq 0 (length m))).
  assert (Hnd : NoDup tried).
  { apply NoDup_cons. split.
    - intros Hin. apply list_elem_of_fmap in Hin as (j & Hj & _).
      unfold PresetManager.numberedKey in Hj. cbn in Hj.
      symmetry in Hj. exact (append_ne _ _ _ Hj).
    - apply NoDup_fmap_2_strong; [| apply NoDup_seq].
      intros j1 j2 _ _ H. apply numberedKey_inj in H. lia. }
  assert (Hsub : forall k, k ∈ tried -> k ∈ m.*1).
  { intros k Hk. apply map_has_true.
    apply elem_of_cons in Hk as [-> | Hk]; [exact Hb |].
    apply list_elem_of_fmap in Hk as (j & -> & Hj).
    apply elem_of_seq in Hj. apply Hnum. lia. }
  assert (Hlen := submseteq_length _ _ (NoDup_submseteq _ _ Hnd Hsub)).
  unfold tried in Hlen. cbn in Hlen.
  rewrite !length_fmap, length_seq in Hlen. lia.
Qed.

(** X18. [generatePresetKey] always returns: its loop ends within as many
    turns as there are presets.  The key it returns is not in the map; it is
    the base key of the name when that is free, and the base key followed
    by ['_'] and a counter from 1 to the number of presets otherwise. *)
Theorem generatePresetKey_is_fresh (m : list (string * PresetManager.preset))
    (name : string) :
  exists key,
    PresetManager.generatePresetKey m name = Some key
    /\ PresetManager.map_get m key = None
    /\ (PresetManager.map_get m (PresetManager.baseKeyOf name) = None ->
        key = PresetManager.baseKeyOf name)
    /\ (key = PresetManager.baseKeyOf name
        \/ exists c, 1 <= c <= length m
             /\ key = PresetManager.numberedKey (PresetManager.baseKeyOf name) c).
Proof.
  destruct (generatePresetKey_total m name) as (key & Hkey).
  exists key. split; [exact Hkey |].
  unfold PresetManager.generatePresetKey in Hkey.
  destruct (nextKey_Some _ _ _ _ _ _ Hkey) as (H1 & H2 & H3).
  split; [apply map_has_false, H1 |]. split.
  - intros Hfree. apply H2, map_has_false, Hfree.
  - destruct H3 as [-> | (j & Hj & ->)]; [left; reflexivity | right].
    exists (1 + j). split; [lia | reflexivity].
Qed.

Lemma generatePresetKey_is_fresh_witness :
  exists key,
    PresetManager.generatePresetKey
      (PresetManager.presets PresetManager.newManager) "Galaxy" = Some key
    /\ PresetManager.map_get (PresetManager.presets PresetManager.newManager)
         key = None.
Proof.
  destruct (generatePresetKey_is_fresh
              (PresetManager.presets PresetManager.newManager) "Galaxy")
    as (key & H1 & H2 & _).
  exists key. split; [exact H1 | exact H2].
Defined.

(** X19. The base key of a name has the length of the name and consists of
    lower-case letters, digits and ['_'] only; a string that is already of
    that form is its own base key, so taking the base key twice changes
    nothing more. *)
Theorem baseKey_normal_form (name : string) :
  keyChars (PresetManager.baseKeyOf name) = true
  /\ String.length (PresetManager.baseKeyOf name) = String.length name
  /\ (keyChars name = true -> PresetManager.baseKeyOf name = name)
  /\ PresetManager.baseKeyOf (PresetManager.baseKeyOf name)
     = PresetManager.baseKeyOf name.
Proof.
  assert (Hchar : forall c : Ascii.ascii,
            let c' := if PresetManager.isKeyChar (PresetManager.toLowerCase c)
                      then PresetManager.toLowerCase c
                      else PresetManager.underscore in
            (PresetManager.isKeyChar c'
             || Nat.eqb (Ascii.nat_of_ascii c') 95) = true
            /\ ((PresetManager.isKeyChar c
                 || Nat.eqb (Ascii.nat_of_ascii c) 95) = true -> c' = c)).
  { intros [[] [] [] [] [] [] [] []]; vm_compute;
      split; try reflexivity; intros; try reflexivity; discriminate. }
  assert (H1 : keyChars (PresetManager.baseKeyOf name) = true).
  { induction name as [| c rest IH]; [reflexivity |]. cbn.
    rewrite IH. destruct (Hchar c) as (H & _). cbn zeta in H.
    rewrite H. reflexivity. }
  assert (H3 : forall s, keyChars s = true -> PresetManager.baseKeyOf s = s).
  { induction s as [| c rest IH]; [reflexivity |]. cbn.
    intros H. apply andb_true_iff in H as [Hc Hrest].
    rewrite (IH Hrest). destruct (Hchar c) as (_ & H). cbn zeta in H.
    rewrite (H Hc). reflexivity. }
  split; [exact H1 |]. split; [| split; [apply H3 | apply H3, H1]].
  clear H1. induction name as [| c rest IH]; [reflexivity |].
  cbn. rewrite IH. reflexivity.
Qed.

Lemma baseKey_normal_form_witness :
  PresetManager.baseKeyOf "my_preset_2" = "my_preset_2".
Proof.
  destruct (baseKey_normal_form "my_preset_2") as (_ & _ & H & _).
  apply H. reflexivity.
Defined.

(** ** importPresets *)

(** One imported entry: what is in the map stays, an accepted entry adds
    one preset that is not a default one, a rejected entry adds nothing. *)
Lemma importOne_spec (now : string) (m : list (string * PresetManager.preset))
    (n : nat) (entry : string * PresetManager.importedPreset) :
  let '(m', n') := PresetManager.importOne now (m, n) entry in
  (forall k p, PresetManager.map_get m k = Some p ->
               PresetManager.map_get m' k = Some p)
  /\ (forall k p, PresetManager.map_get m' k = Some p ->
        PresetManager.map_get m k = Some p
        \/ PresetManager.isDefault p = false)
  /\ n' = n + (if acceptedEntry entry then 1 else 0)
  /\ length m' = length m + (if acceptedEntry entry then 1 else 0)
  /\ (NoDup m.*1 -> NoDup m'.*1).
Proof.
  unfold PresetManager.importOne, acceptedEntry.
  destruct (PresetManager.i_name (snd entry)) as [nm |];
    [| repeat split; auto; lia].
  destruct (PresetManager.i_properties (snd entry)) as [props |];
    [| repeat split; auto; lia].
  destruct (String.eqb nm ""); cbn [negb]; [repeat split; auto; lia |].
  destruct (generatePresetKey_is_fresh m nm) as (key & Hkey & Hfree & _).
  rewrite Hkey, (map_set_fresh _ _ _ Hfree).
  split; [| split; [| split; [| split]]].
  - intros k p Hk. rewrite map_get_app, Hk. reflexivity.
  - intros k p. rewrite map_get_app.
    destruct (PresetManager.map_get m k) as [q |]; [left; exact H |].
    cbn. destruct (String.eqb key k); [| discriminate].
    intros [= <-]. right. reflexivity.
  - lia.
  - rewrite length_app. cbn. lia.
  - intros Hnd. rewrite fmap_app. cbn.
    apply NoDup_app. split; [exact Hnd |]. split.
    + intros k Hk Hin. apply list_elem_of_singleton in Hin. subst k.
      apply map_has_true in Hk. apply map_has_false in Hfree. congruence.
    + apply NoDup_singleton.
Qed.

Lemma importFold_spec (now : string)
    (entries : list (string * PresetManager.importedPreset))
    (m : list (string * PresetManager.preset)) (n : nat) :
  let '(m', n') := fold_left (PresetManager.importOne now) entries (m, n) in
  (forall k p, PresetManager.map_get m k = Some p ->
               PresetManager.map_get m' k = Some p)
  /\ (forall k p, PresetManager.map_get m' k = Some p ->
        PresetManager.map_get m k = Some p
        \/ PresetManager.isDefault p = false)
  /\ n' = n + length (filter (fun e => acceptedEntry e = true) entries)
  /\ length m' = length m
                 + length (filter (fun e => acceptedEntry e = true) entries)
  /\ (NoDup m.*1 -> NoDup m'.*1).
Proof.
  revert m n. induction entries as [| e entries IH]; intros m n.
  - cbn. repeat split; auto; lia.
  - cbn [fold_left].
    assert (H1 := importOne_spec now m n e).
    destruct (PresetManager.importOne now (m, n) e) as [m1 n1].
    destruct H1 as (Ha & Hb & Hc & Hd & He).
    specialize (IH m1 n1).
    destruct (fold_left _ entries (m1, n1)) as [m' n'].
    destruct IH as (Ia & Ib & Ic & Id & Ie).
    rewrite filter_cons.
    split; [intros k p Hk; apply Ia, Ha, Hk |].
    split.
    { intros k p Hk. destruct (Ib k p Hk) as [H | H]; [| right; exact H].
      apply Hb, H. }
    destruct (acceptedEntry e); cbn [length] in *;
      (destruct (decide (true = true)) as [_ | Hn]; [| congruence])
      || (destruct (decide (false = true)) as [Hn | _]; [discriminate |]);
      cbn [length]; repeat split; auto; lia.
Qed.

(** X20. [importPresets] never replaces or removes a preset that is
    already there: every key keeps its preset.  It adds one preset, never a
    default one, for each entry that has a non-empty name and properties,
    under a new key, and returns their number; without a [presets] member
    in the data it imports nothing. *)
Theorem importPresets_only_adds (now : string)
    (entries : list (string * PresetManager.importedPreset))
    (mgr : PresetManager.manager) :
  let accepted := length (filter (fun e => acceptedEntry e = true) entries) in
  let result := PresetManager.importPresets now (Some entries) mgr in
  fst result = accepted
  /\ length (PresetManager.presets (snd result))
     = length (PresetManager.presets mgr) + accepted
  /\ (forall k p, PresetManager.map_get (PresetManager.presets mgr) k = Some p ->
        PresetManager.map_get (PresetManager.presets (snd result)) k = Some p)
  /\ (forall k p,
        PresetManager.map_get (PresetManager.presets (snd result)) k = Some p ->
        PresetManager.map_get (PresetManager.presets mgr) k = Some p
        \/ PresetManager.isDefault p = false)
  /\ PresetManager.currentPreset (snd result) = PresetManager.currentPreset mgr
  /\ PresetManager.importPresets now None mgr = (0, mgr).
Proof.
  cbn zeta. unfold PresetManager.importPresets.
  assert (H := importFold_spec now entries (PresetManager.presets mgr) 0).
  destruct (fold_left _ entries (PresetManager.presets mgr, 0)) as [m' n'].
  destruct H as (Ha & Hb & Hc & Hd & _). cbn [fst snd PresetManager.presets].
  repeat split; auto.
Qed.

(** ** deletePreset *)

(** X21. [deletePreset] refuses a key that is not in the map and a default
    preset: it returns false and changes nothing.  For a user preset it
    returns true, the key is gone afterwards, and every other key keeps
    its preset. *)
Theorem deletePreset_spares_defaults (presetKey : string)
    (mgr : PresetManager.manager) :
  NoDup (PresetManager.presets mgr).*1 ->
  let result := PresetManager.deletePreset presetKey mgr in
  match PresetManager.getPreset presetKey mgr with
  | None => result = (false, mgr)
  | Some p =>
      if PresetManager.isDefault p then result = (false, mgr)
      else
        fst result = true
        /\ PresetManager.getPreset presetKey (snd result) = None
        /\ (forall k, k <> presetKey ->
              PresetManager.getPreset k (snd result)
              = PresetManager.getPreset k mgr)
        /\ length (PresetManager.presets (snd result))
           < length (PresetManager.presets mgr)
  end.
Proof.
  intros Hnd. cbn zeta.
  unfold PresetManager.deletePreset, PresetManager.getPreset.
  destruct (PresetManager.map_get (PresetManager.presets mgr) presetKey)
    as [p |] eqn:Hget; [| reflexivity].
  destruct (PresetManager.isDefault p); [reflexivity |].
  cbn [fst snd PresetManager.presets].
  destruct (map_get_delete (PresetManager.presets mgr) presetKey Hnd)
    as (H1 & H2).
  split; [reflexivity |]. split; [exact H1 |]. split; [exact H2 |].
  clear H1 H2 Hnd. revert Hget.
  induction (PresetManager.presets mgr) as [| [k w] m IH]; cbn;
    [discriminate |].
  destruct (String.eqb k presetKey); [lia |].
  intros H. cbn. specialize (IH H). lia.
Qed.

Lemma newManager_keys :
  (PresetManager.presets PresetManager.newManager).*1
  = ["galaxy"; "nebula"; "explosion"; "wave"; "spiral"; "aurora"].
Proof. reflexivity. Qed.

Lemma newManager_NoDup : NoDup (PresetManager.presets PresetManager.newManager).*1.
Proof.
  rewrite newManager_keys. apply (bool_decide_unpack _). vm_compute. exact I.
Qed.

Lemma deletePreset_spares_defaults_witness :
  PresetManager.deletePreset "galaxy" PresetManager.newManager
  = (false, PresetManager.newManager).
Proof.
  exact (deletePreset_spares_defaults "galaxy" PresetManager.newManager
           newManager_NoDup).
Defined.

(** ** The default presets stay *)

Section PresetManagerProperties.

Variable Color_of_string : string -> THREE.Color.
Variable getHexString : THREE.Color -> string.

Lemma createPreset_spec (now nm descr : string) (mgr : PresetManager.manager)
    (engine : ParticleSystem) :
  exists key,
    PresetManager.map_get (PresetManager.presets mgr) key = None
    /\ PresetManager.createPreset getHexString now nm descr mgr engine
       = Some (key,
               PresetManager.mkManager
                 (PresetManager.presets mgr
                  ++ [(key,
                       PresetManager.mkPreset nm descr
                         (PresetManager.getCurrentProperties getHexString engine)
                         (Some (currentPreset engine)) false (Some now))])
                 (PresetManager.currentPreset mgr)).
Proof.
  destruct (generatePresetKey_is_fresh (PresetManager.presets mgr) nm)
    as (key & Hkey & Hfree & _).
  exists key. split; [exact Hfree |].
  unfold PresetManager.createPreset. rewrite Hkey.
  rewrite (map_set_fresh _ _ _ Hfree). reflexivity.
Qed.

Lemma performAction_keeps (mgr : PresetManager.manager) (a : presetAction) :
  NoDup (PresetManager.presets mgr).*1 ->
  NoDup (PresetManager.presets (performAction getHexString mgr a)).*1
  /\ forall k p,
       PresetManager.map_get (PresetManager.presets mgr) k = Some p ->
       PresetManager.isDefault p = true ->
       PresetManager.map_get
         (PresetManager.presets (performAction getHexString mgr a)) k
       = Some p.
Proof.
  intros Hnd. destruct a as [now data | key | now nm descr engine];
    cbn [performAction].
  - destruct data as [entries |]; [| split; [exact Hnd | auto]].
    unfold PresetManager.importPresets.
    assert (H := importFold_spec now entries (PresetManager.presets mgr) 0).
    destruct (fold_left _ entries (PresetManager.presets mgr, 0)) as [m' n'].
    destruct H as (Ha & _ & _ & _ & He). cbn [snd PresetManager.presets].
    split; [apply He, Hnd | intros k p Hk _; apply Ha, Hk].
  - unfold PresetManager.deletePreset.
    destruct (PresetManager.map_get (PresetManager.presets mgr) key)
      as [q |] eqn:Hget; [| split; [exact Hnd | auto]].
    destruct (PresetManager.isDefault q) eqn:Hq; [split; [exact Hnd | auto] |].
    cbn [snd PresetManager.presets].
    destruct (map_get_delete (PresetManager.presets mgr) key Hnd) as (_ & H2).
    split.
    + clear H2 Hget. induction (PresetManager.presets mgr) as [| [k w] m IH];
        cbn; [constructor |].
      cbn in Hnd. apply NoDup_cons in Hnd as [Hk Hnd'].
      destruct (String.eqb k key); [exact Hnd' |].
      cbn. apply NoDup_cons. split; [| apply IH, Hnd'].
      intros Hin. apply Hk. clear IH Hk Hnd'.
      induction m as [| [k' w'] m IHm]; cbn in *; [exact Hin |].
      destruct (String.eqb k' key).
      * right. exact Hin.
      * cbn in Hin. apply elem_of_cons in Hin as [-> | Hin];
          [left | right; apply IHm, Hin].
    + intros k p Hk Hp. rewrite H2; [exact Hk |].
      intros ->. rewrite Hget in Hk. injection Hk as ->. congruence.
  - destruct (createPreset_spec now nm descr mgr engine) as (key & Hfree & Hc).
    rewrite Hc. cbn [PresetManager.presets]. split.
    + rewrite fmap_app. cbn. apply NoDup_app.
      split; [exact Hnd |]. split; [| apply NoDup_singleton].
      intros k Hk Hin. apply list_elem_of_singleton in Hin. subst k.
      apply map_has_true in Hk. apply map_has_false in Hfree. congruence.
    + intros k p Hk _. rewrite map_get_app, Hk. reflexivity.
Qed.

(** X22. Whatever presets are imported, created or deleted, in any order,
    a default preset stays in the map under its key, unchanged; so the six
    presets a new manager loads can always be applied. *)
Theorem default_presets_persist (actions : list presetAction)
    (mgr : PresetManager.manager) (k : string) (p : PresetManager.preset) :
  NoDup (PresetManager.presets mgr).*1 ->
  PresetManager.getPreset k mgr = Some p ->
  PresetManager.isDefault p = true ->
  PresetManager.getPreset k
    (fold_left (performAction getHexString) actions mgr)
  = Some p.
Proof.
  revert mgr. induction actions as [| a actions IH]; intros mgr Hnd Hk Hp;
    cbn [fold_left]; [exact Hk |].
  destruct (performAction_keeps mgr a Hnd) as (Hnd' & Hkeep).
  apply IH; [exact Hnd' | apply Hkeep; assumption | exact Hp].
Qed.

(** ** applyPreset *)

Lemma applyPreset_engine (presetKey : string) (mgr : PresetManager.manager)
    (engine : ParticleSystem) (p : PresetManager.preset) :
  PresetManager.getPreset presetKey mgr = Some p ->
  exists engine1,
    PresetManager.applyPreset Color_of_string presetKey mgr engine
    = (true,
       PresetManager.mkManager (PresetManager.presets mgr) (Some presetKey),
       engine1)
    /\ geometry engine1
       = geometry (updateProperties
                     (PresetManager.engineProperties Color_of_string
                        (PresetManager.presetProps p)) engine)
    /\ particleCount engine1
       = default (particleCount engine)
           (PresetManager.pp_particleCount (PresetManager.presetProps p))
    /\ particleShape engine1
       = default (particleShape engine)
           (PresetManager.pp_particleShape (PresetManager.presetProps p))
    /\ currentPreset engine1
       = match PresetManager.animation p with
         | Some a => if String.eqb a "" then currentPreset engine else a
         | None => currentPreset engine
         end.
Proof.
  unfold PresetManager.getPreset. intros Hget.
  unfold PresetManager.applyPreset. rewrite Hget.
  eexists. split; [reflexivity |].
  destruct (updateProperties_count_shape
              (PresetManager.engineProperties Color_of_string
                 (PresetManager.presetProps p)) engine) as (Hc & Hsh).
  assert (Hcp : currentPreset
                  (updateProperties
                     (PresetManager.engineProperties Color_of_string
                        (PresetManager.presetProps p)) engine)
                = currentPreset engine).
  { unfold updateProperties. destruct (needsRecreate _ _).
    - destruct (createParticles_fields
                  (Object_assign engine
                     (PresetManager.engineProperties Color_of_string
                        (PresetManager.presetProps p))))
        as (_ & _ & _ & H & _).
      rewrite H. reflexivity.
    - change (particles (Object_assign engine ?q)) with (particles engine).
      destruct (particles engine); reflexivity. }
  destruct (PresetManager.animation p) as [a |];
    [destruct (String.eqb a "") |]; repeat split; assumption.
Qed.

(** X23. [applyPreset] with a key that is not in the map returns false and
    changes neither the manager nor the engine.  With a key that is there
    it returns true, records the key, and leaves the engine with the
    preset's particle count, shape and animation; applying the same
    preset once more then keeps the population (every array) as it is. *)
Theorem applyPreset_twice_keeps_population (presetKey : string)
    (mgr : PresetManager.manager) (engine : ParticleSystem) :
  match PresetManager.getPreset presetKey mgr with
  | None =>
      PresetManager.applyPreset Color_of_string presetKey mgr engine
      = (false, mgr, engine)
  | Some p =>
      exists mgr1 engine1 engine2,
        PresetManager.applyPreset Color_of_string presetKey mgr engine
        = (true, mgr1, engine1)
        /\ PresetManager.currentPreset mgr1 = Some presetKey
        /\ PresetManager.presets mgr1 = PresetManager.presets mgr
        /\ particleCount engine1
           = default (particleCount engine)
               (PresetManager.pp_particleCount (PresetManager.presetProps p))
        /\ particleShape engine1
           = default (particleShape engine)
               (PresetManager.pp_particleShape (PresetManager.presetProps p))
        /\ PresetManager.applyPreset Color_of_string presetKey mgr1 engine1
           = (true, mgr1, engine2)
        /\ geometry engine2 = geometry engine1
        /\ phases engine2 = phases engine1
  end.
Proof.
  destruct (PresetManager.getPreset presetKey mgr) as [p |] eqn:Hget.
  - destruct (applyPreset_engine presetKey mgr engine p Hget)
      as (engine1 & H1 & _ & Hc & Hsh & _).
    set (mgr1 := PresetManager.mkManager (PresetManager.presets mgr)
                   (Some presetKey)) in *.
    destruct (applyPreset_engine presetKey mgr1 engine1 p Hget)
      as (engine2 & H2 & Hg & _).
    exists mgr1, engine1, engine2.
    split; [exact H1 |]. split; [reflexivity |]. split; [reflexivity |].
    split; [exact Hc |]. split; [exact Hsh |]. split; [exact H2 |].
    assert (Hre : needsRecreate engine1
                    (PresetManager.engineProperties Color_of_string
                       (PresetManager.presetProps p)) = false).
    { unfold needsRecreate, PresetManager.engineProperties.
      cbn [p_particleCount p_particleShape]. rewrite Hc, Hsh.
      destruct (PresetManager.pp_particleCount (PresetManager.presetProps p)),
        (PresetManager.pp_particleShape (PresetManager.presetProps p));
        cbn [default from_option]; unfold Datatypes.id;
        rewrite ?Nat.eqb_refl, ?String.eqb_refl; reflexivity. }
    rewrite (updateProperties_in_place _ _ Hre) in Hg.
    split; [exact Hg |]. unfold phases. rewrite Hg. reflexivity.
  - unfold PresetManager.getPreset in Hget.
    unfold PresetManager.applyPreset. rewrite Hget. reflexivity.
Qed.

(** X24. [createPreset] stores the engine's current settings and animation
    under a key that was free, as a user preset, and changes no other
    entry; deleting that key afterwards succeeds and gives back the map as
    it was. *)
Theorem createPreset_then_delete (now nm descr : string)
    (mgr : PresetManager.manager) (engine : ParticleSystem) :
  exists (key : string) (mgr1 : PresetManager.manager),
    PresetManager.createPreset getHexString now nm descr mgr engine
    = Some (key, mgr1)
    /\ PresetManager.getPreset key mgr = None
    /\ PresetManager.getPreset key mgr1
       = Some (PresetManager.mkPreset nm descr
                 (PresetManager.getCurrentProperties getHexString engine)
                 (Some (currentPreset engine)) false (Some now))
    /\ (forall k p, PresetManager.getPreset k mgr = Some p ->
          PresetManager.getPreset k mgr1 = Some p)
    /\ PresetManager.deletePreset key mgr1 = (true, mgr).
Proof.
  destruct (createPreset_spec now nm descr mgr engine) as (key & Hfree & Hc).
  eexists key, _. split; [exact Hc |].
  unfold PresetManager.getPreset. cbn [PresetManager.presets].
  split; [exact Hfree |].
  assert (Hnew : PresetManager.map_get
                   (PresetManager.presets mgr
                    ++ [(key,
                         PresetManager.mkPreset nm descr
                           (PresetManager.getCurrentProperties getHexString
                              engine)
                           (Some (currentPreset engine)) false (Some now))])
                   key
                 = Some (PresetManager.mkPreset nm descr
                           (PresetManager.getCurrentProperties getHexString
                              engine)
                           (Some (currentPreset engine)) false (Some now))).
  { rewrite map_get_app, Hfree. cbn. rewrite String.eqb_refl. reflexivity. }
  split; [exact Hnew |]. split.
  - intros k p Hk. rewrite map_get_app, Hk. reflexivity.
  - unfold PresetManager.deletePreset. cbn [PresetManager.presets].
    rewrite Hnew. cbn [PresetManager.isDefault PresetManager.currentPreset].
    rewrite (map_delete_last _ _ _ Hfree). destruct mgr. reflexivity.
Qed.

End PresetManagerProperties.

Lemma default_presets_persist_witness :
  PresetManager.isDefault
  <$> PresetManager.getPreset "spiral"
        (fold_left (performAction (fun _ => "ff6b6b"))
           [ImportPresets "2024-01-01"
              (Some [("spiral",
                      PresetManager.mkImportedPreset (Some "Spiral") ""
                        (Some (PresetManager.mkPresetProperties None None None
                                 None None None None None None))
                        None)]);
            DeletePreset "spiral";
            CreatePreset "2024-01-02" "spiral" "" sampleEngine]
           PresetManager.newManager)
  = Some true.
Proof.
  destruct (PresetManager.getPreset "spiral" PresetManager.newManager)
    as [p |] eqn:Hget; [| discriminate].
  assert (Hp : PresetManager.isDefault p = true).
  { vm_compute in Hget. injection Hget as <-. reflexivity. }
  rewrite (default_presets_persist (fun _ => "ff6b6b") _
             PresetManager.newManager "spiral" p newManager_NoDup Hget Hp).
  cbn. f_equal. exact Hp.
Defined.

(** * Pointer events *)

(** X25. The [mousemove] (and [touchmove]) listener maps a pointer inside
    the canvas rectangle to normalized coordinates in [-1,1] x [-1,1], the
    left edge to x = -1, the right edge to x = 1, the top edge to y = 1 and
    the bottom edge to y = -1; with the pointer interaction disabled it
    ignores the event and the engine keeps the coordinates it had. *)
Theorem mousemove_normalizes (s : ParticleSystem) (cx cy l t w h : R) :
  (0 < w)%R -> (0 < h)%R ->
  (l <= cx <= l + w)%R -> (t <= cy <= t + h)%R ->
  let s' := mousemove (Fin cx) (Fin cy)
              (mkDOMRect (Fin l) (Fin t) (Fin w) (Fin h)) s in
  (mouseInteraction s = false -> s' = s)
  /\ (mouseInteraction s = true ->
      exists mx my : R,
        mouse s' = THREE.mkVector2 (Fin mx) (Fin my)
        /\ mx = ((cx - l) / w * 2 - 1)%R /\ my = (- ((cy - t) / h) * 2 + 1)%R
        /\ (-1 <= mx <= 1)%R /\ (-1 <= my <= 1)%R
        /\ (cx = l -> mx = (-1)%R) /\ (cx = (l + w)%R -> mx = 1%R)
        /\ (cy = t -> my = 1%R) /\ (cy = (t + h)%R -> my = (-1)%R)).
Proof.
  intros Hw Hh Hcx Hcy s'. unfold s', mousemove. split.
  - intros ->. reflexivity.
  - intros ->. cbn [negb mouse set_mouse left top width height].
    exists ((cx - l) / w * 2 - 1)%R, (- ((cy - t) / h) * 2 + 1)%R.
    split.
    { change (Fin cx - Fin l)%num with (Fin (cx - l)).
      change (Fin cy - Fin t)%num with (Fin (cy - t)).
      rewrite !div_nonzero by lra. reflexivity. }
    split; [reflexivity |]. split; [reflexivity |].
    assert (Hx : (0 <= (cx - l) / w <= 1)%R).
    { split.
      - apply Rmult_le_pos; [lra |]. apply Rlt_le, Rinv_0_lt_compat, Hw.
      - apply (Rmult_le_reg_r w); [exact Hw |].
        unfold Rdiv. rewrite Rmult_assoc, Rinv_l by lra. lra. }
    assert (Hy : (0 <= (cy - t) / h <= 1)%R).
    { split.
      - apply Rmult_le_pos; [lra |]. apply Rlt_le, Rinv_0_lt_compat, Hh.
      - apply (Rmult_le_reg_r h); [exact Hh |].
        unfold Rdiv. rewrite Rmult_assoc, Rinv_l by lra. lra. }
    split; [lra |]. split; [lra |].
    split; [intros ->; unfold Rdiv; replace (l - l)%R with 0%R by ring; lra |].
    split; [intros ->; replace (l + w - l)%R with w by ring;
            unfold Rdiv; rewrite Rinv_r by lra; lra |].
    split; [intros ->; unfold Rdiv; replace (t - t)%R with 0%R by ring; lra |].
    intros ->. replace (t + h - t)%R with h by ring.
    unfold Rdiv. rewrite Rinv_r by lra. lra.
Qed.

Lemma mousemove_normalizes_witness :
  exists mx my : R,
    mouse (mousemove (Fin 400) (Fin 0)
             (mkDOMRect (Fin 0) (Fin 0) (Fin 800) (Fin 600)) sampleEngine)
    = THREE.mkVector2 (Fin mx) (Fin my)
    /\ (-1 <= mx <= 1)%R /\ my = 1%R.
Proof.
  destruct (mousemove_normalizes sampleEngine 400 0 0 0 800 600)
    as (_ & H); try lra.
  destruct (H eq_refl) as (mx & my & Hm & _ & _ & Hx & _ & _ & _ & Hy & _).
  exists mx, my. split; [exact Hm |]. split; [exact Hx |]. apply Hy. reflexivity.
Defined.

(** ** The performance monitor *)

Section PerformanceMonitorProperties.
Import PerformanceMonitor.

Lemma updateStats_set (m : monitor) :
  exists s, updateStats m = set_stats s m.
Proof. unfold updateStats. destruct (fpsHistory m); eexists; reflexivity. Qed.

Ltac monitor_cases :=
  repeat match goal with
  | |- context [updateStats ?x] =>
      let s := fresh "s" in destruct (updateStats_set x) as [s ->]
  | |- context [if ?b then _ else _] => destruct b
  end.

Lemma update_stopped (t : R) (m : monitor) :
  isRunning m = false -> update t m = m.
Proof. intros H. unfold update. rewrite H. reflexivity. Qed.

Lemma update_isRunning (t : R) (m : monitor) :
  isRunning (update t m) = isRunning m.
Proof.
  unfold update. destruct (isRunning m) eqn:H; cbn; [|exact H].
  monitor_cases; exact H.
Qed.

Lemma update_maxHistoryLength (t : R) (m : monitor) :
  maxHistoryLength (update t m) = maxHistoryLength m.
Proof.
  unfold update. destruct (isRunning m); cbn; [|reflexivity].
  monitor_cases; reflexivity.
Qed.

Lemma update_callbacks (t : R) (m : monitor) :
  callbacks (update t m) = callbacks m.
Proof.
  unfold update. destruct (isRunning m); cbn; [|reflexivity].
  monitor_cases; reflexivity.
Qed.

Lemma update_lastTime (t : R) (m : monitor) :
  isRunning m = true -> lastTime (update t m) = t.
Proof.
  intros H. unfold update. rewrite H. cbn.
  monitor_cases; reflexivity.
Qed.

Lemma update_frameCount (t : R) (m : monitor) :
  isRunning m = true -> frameCount (update t m) = S (frameCount m).
Proof.
  intros H. unfold update. rewrite H. cbn.
  monitor_cases; reflexivity.
Qed.

Lemma update_fpsHistory (t : R) (m : monitor) :
  isRunning m = true -> fpsHistory (update t m) = pushed t m.
Proof.
  intros H. unfold update, pushed. rewrite H. cbn.
  monitor_cases; reflexivity.
Qed.

Lemma update_requests (t : R) (m : monitor) :
  isRunning m = true ->
  frameRequests (update t m) = frameRequests m ++ [nextRequestId m]
  /\ animationId (update t m) = Some (nextRequestId m)
  /\ nextRequestId (update t m) = S (nextRequestId m).
Proof.
  intros H. unfold update. rewrite H. cbn.
  monitor_cases; cbn; auto.
Qed.

Lemma update_calls (t : R) (m : monitor) :
  isRunning m = true ->
  map fst (calls (update t m))
  = map fst (calls m)
    ++ (if (S (frameCount m) mod 10 =? 0)%nat then callbacks m else []).
Proof.
  intros H. unfold update. rewrite H. cbn [negb].
  match goal with |- context [(?a <? ?b)%nat] => destruct (a <? b)%nat end.
  all: cbn [set_deltaTime set_lastTime set_fps set_fpsHistory set_frameCount
       frameCount fpsHistory maxHistoryLength deltaTime lastTime fps].
  all: destruct (S (frameCount m) mod 10 =? 0)%nat.
  all: monitor_cases; cbn -[Nat.modulo];
    rewrite ?map_app, ?map_map, ?app_nil_r; cbn;
    rewrite ?map_id; reflexivity.
Qed.

Lemma updates_app (r1 r2 : list R) (m : monitor) :
  updates (r1 ++ r2) m = updates r2 (updates r1 m).
Proof. unfold updates. apply fold_left_app. Qed.

Lemma updates_isRunning (readings : list R) (m : monitor) :
  isRunning (updates readings m) = isRunning m.
Proof.
  revert m. induction readings as [|t rs IH]; intros m; [reflexivity|].
  cbn. change (fold_left _ rs ?x) with (updates rs x).
  rewrite IH. apply update_isRunning.
Qed.

Lemma updates_callbacks (readings : list R) (m : monitor) :
  callbacks (updates readings m) = callbacks m.
Proof.
  revert m. induction readings as [|t rs IH]; intros m; [reflexivity|].
  cbn. change (fold_left _ rs ?x) with (updates rs x).
  rewrite IH. apply update_callbacks.
Qed.

Lemma updates_frameCount (readings : list R) (m : monitor) :
  isRunning m = true ->
  frameCount (updates readings m) = (frameCount m + length readings)%nat.
Proof.
  revert m. induction readings as [|t rs IH]; intros m H.
  - cbn. lia.
  - cbn. change (fold_left _ rs ?x) with (updates rs x).
    rewrite IH by (rewrite update_isRunning; exact H).
    rewrite update_frameCount by exact H. lia.
Qed.

Lemma lastn_all {A} (n : nat) (l : list A) :
  (length l <= n)%nat -> lastn n l = l.
Proof.
  intros H. unfold lastn. replace (length l - n)%nat with 0%nat by lia.
  reflexivity.
Qed.

Lemma lastn_length {A} (n : nat) (l : list A) :
  length (lastn n l) = Nat.min n (length l).
Proof. unfold lastn. rewrite length_drop. lia. Qed.

Lemma pushed_length (t : R) (m : monitor) :
  (length (fpsHistory m) <= maxHistoryLength m)%nat ->
  (length (pushed t m) <= maxHistoryLength m)%nat.
Proof.
  intros H. unfold pushed. cbv zeta.
  destruct (Nat.ltb_spec (maxHistoryLength m)
              (length (fpsHistory m ++ [rate_of_delta (t - lastTime m)])))
    as [Hlt|Hge]; [|exact Hge].
  rewrite length_app in Hlt. cbn in Hlt.
  destruct (fpsHistory m) as [|x h]; cbn in *; [lia|].
  rewrite length_app. cbn. lia.
Qed.

Lemma pushed_lastn (t : R) (m : monitor) (rest : list rate) :
  (length (fpsHistory m) <= maxHistoryLength m)%nat ->
  lastn (maxHistoryLength m) (pushed t m ++ rest)
  = lastn (maxHistoryLength m)
      (fpsHistory m ++ rate_of_delta (t - lastTime m) :: rest).
Proof.
  intros H. unfold pushed. cbv zeta.
  set (f := rate_of_delta (t - lastTime m)).
  destruct (Nat.ltb_spec (maxHistoryLength m) (length (fpsHistory m ++ [f])))
    as [Hlt|Hge].
  - rewrite length_app in Hlt. cbn in Hlt.
    replace (fpsHistory m ++ f :: rest)
      with ((fpsHistory m ++ [f]) ++ rest)
      by (rewrite <- app_assoc; reflexivity).
    assert (Hlen : length (fpsHistory m ++ [f])
                   = S (maxHistoryLength m))
      by (rewrite length_app; cbn; lia).
    destruct (fpsHistory m ++ [f]) as [|x h]; [discriminate|].
    cbn [tail]. cbn in Hlen. unfold lastn. cbn [app length].
    rewrite !length_app.
    replace (S (length h + length rest) - maxHistoryLength m)%nat
      with (S (length h + length rest - maxHistoryLength m)) by lia.
    reflexivity.
  - rewrite <- app_assoc. reflexivity.
Qed.

Lemma fpsHistory_updates (readings : list R) (m : monitor) :
  isRunning m = true ->
  (length (fpsHistory m) <= maxHistoryLength m)%nat ->
  fpsHistory (updates readings m)
  = lastn (maxHistoryLength m)
      (fpsHistory m ++ samples (lastTime m) readings).
Proof.
  revert m. induction readings as [|t rs IH]; intros m Hrun Hlen.
  - cbn. rewrite app_nil_r, lastn_all by exact Hlen. reflexivity.
  - cbn [updates fold_left samples].
    change (fold_left _ rs ?x) with (updates rs x).
    rewrite IH.
    + rewrite update_fpsHistory, update_maxHistoryLength,
        update_lastTime by exact Hrun.
      apply pushed_lastn. exact Hlen.
    + rewrite update_isRunning. exact Hrun.
    + rewrite update_fpsHistory, update_maxHistoryLength by exact Hrun.
      apply pushed_length. exact Hlen.
Qed.

Lemma samples_length (t : R) (readings : list R) :
  length (samples t readings) = length readings.
Proof.
  revert t. induction readings as [|x rs IH]; intros t; cbn; [|rewrite IH];
    reflexivity.
Qed.

(** X26: a running monitor whose history is within its bound keeps, after
    any number of calls of [update], exactly the latest
    [maxHistoryLength] rates (those it had followed by those measured
    between successive clock readings), so the history never outgrows the
    bound, and fills up to it. *)
Theorem history_keeps_latest_rates (readings : list R) (m : monitor) :
  isRunning m = true ->
  (length (fpsHistory m) <= maxHistoryLength m)%nat ->
  fpsHistory (updates readings m)
  = lastn (maxHistoryLength m)
      (fpsHistory m ++ samples (lastTime m) readings)
  /\ length (fpsHistory (updates readings m))
     = Nat.min (maxHistoryLength m)
         (length (fpsHistory m) + length readings).
Proof.
  intros Hrun Hlen.
  rewrite fpsHistory_updates by assumption. split; [reflexivity|].
  rewrite lastn_length, length_app, samples_length. reflexivity.
Qed.

Lemma history_keeps_latest_rates_witness :
  let m := start 0 10 None (new 1) in
  fpsHistory (updates [30; 50]%R m)
  = lastn 60 ([Rate (1000 / (10 - 0))]
              ++ [rate_of_delta (30 - 10); rate_of_delta (50 - 30)])
  /\ length (fpsHistory (updates [30; 50]%R m)) = 3%nat.
Proof.
  cbv zeta.
  assert (Hm : fpsHistory (start 0 10 None (new 1))
               = [Rate (1000 / (10 - 0))]).
  { unfold start. cbn [new isRunning].
    rewrite update_fpsHistory by reflexivity.
    unfold pushed. cbn. unfold rate_of_delta.
    destruct (Req_dec_T (10 - 0) 0) as [E|_]; [lra|reflexivity]. }
  assert (Ht : lastTime (start 0 10 None (new 1)) = 10%R).
  { unfold start. cbn [new isRunning]. apply update_lastTime. reflexivity. }
  assert (Hx : maxHistoryLength (start 0 10 None (new 1)) = 60%nat).
  { unfold start. cbn [new isRunning]. rewrite update_maxHistoryLength.
    reflexivity. }
  pose proof (history_keeps_latest_rates [30; 50]%R
                (start 0 10 None (new 1))) as H.
  rewrite Hm, Ht, Hx in H. cbn [samples length Nat.add Nat.min] in H.
  apply H.
  - unfold start. cbn [new isRunning]. rewrite update_isRunning. reflexivity.
  - cbn. lia.
Defined.

Lemma new_loop_ok (firstId : nat) :
  (0 < firstId)%nat -> loop_ok (new firstId).
Proof. intros H. split; [exact H|]. cbn. auto. Qed.

Lemma update_loop_ok (t : R) (m : monitor) :
  (0 < nextRequestId m)%nat ->
  isRunning m = true ->
  frameRequests m = [] ->
  loop_ok (update t m).
Proof.
  intros Hn Hrun Hreq.
  destruct (update_requests t m Hrun) as (Hr & Ha & Hx).
  split; [rewrite Hx; lia|].
  rewrite update_isRunning, Hrun.
  exists (nextRequestId m). rewrite Hr, Hreq, Ha. auto.
Qed.

Lemma step_loop_ok (m : monitor) (e : event) :
  loop_ok m -> loop_ok (step m e).
Proof.
  intros [Hn H]. destruct e as [now t cb| |t|cb|c|]; cbn [step].
  - unfold start. destruct (isRunning m) eqn:Hrun; [split; [exact Hn|];
      rewrite Hrun; exact H|].
    destruct H as [_ Hreq].
    apply update_loop_ok; destruct cb; cbn; auto.
  - unfold stop. destruct (isRunning m) eqn:Hrun; cbn [negb].
    + destruct H as (id & Hid & Ha & Hreq).
      cbn [set_isRunning animationId]. rewrite Ha.
      destruct (Nat.eqb_spec id 0) as [E|_]; [lia|].
      split; [exact Hn|]. cbn. rewrite Hreq.
      split; [reflexivity|].
      rewrite filter_cons, filter_nil.
      destruct (decide (id <> id)) as [E|_]; [congruence|reflexivity].
    + split; [exact Hn|]. rewrite Hrun. exact H.
  - unfold hostFrame. destruct (isRunning m) eqn:Hrun.
    + destruct H as (id & Hid & Ha & Hreq). rewrite Hreq.
      apply update_loop_ok; cbn; auto.
    + destruct H as [Ha Hreq]. rewrite Hreq.
      split; [exact Hn|]. rewrite Hrun. auto.
  - unfold addCallback. destruct cb; (split; [exact Hn|exact H]).
  - unfold removeCallback. destruct (indexOf c (callbacks m));
      (split; [exact Hn|exact H]).
  - split; [exact Hn|exact H].
Qed.

Lemma run_loop_ok (events : list event) (m : monitor) :
  loop_ok m -> loop_ok (run events m).
Proof.
  revert m. induction events as [|e es IH]; intros m H; [exact H|].
  cbn. apply IH, step_loop_ok, H.
Qed.

(** X27: whatever is done to a monitor ([start], [stop], frames of the
    host, callbacks added and removed, [reset]), at most one animation
    frame request is pending, and one is pending exactly while the monitor
    is running: [start] on a running monitor starts no second loop, and
    [stop] leaves no request behind. *)
Theorem monitor_runs_one_loop (firstId : nat) (events : list event) :
  (0 < firstId)%nat ->
  let m := run events (new firstId) in
  length (frameRequests m) = (if isRunning m then 1 else 0)%nat
  /\ (isRunning m = false -> animationId m = None).
Proof.
  intros H m.
  destruct (run_loop_ok events (new firstId) (new_loop_ok firstId H))
    as [_ Hm].
  fold m in Hm. destruct (isRunning m).
  - destruct Hm as (id & _ & _ & ->). split; [reflexivity|discriminate].
  - destruct Hm as [Ha ->]. split; [reflexivity|intros _; exact Ha].
Qed.

Lemma monitor_runs_one_loop_witness :
  let m := run [Start 0 10 (Some 7%nat); Start 20 30 None; Frame 40; Stop;
                Start 50 60 None]%R (new 1) in
  length (frameRequests m) = (if isRunning m then 1 else 0)%nat
  /\ (isRunning m = false -> animationId m = None).
Proof. apply (monitor_runs_one_loop 1). lia. Defined.

(** *** The statistics *)

Lemma rates_real_or_infinite (l : list rate) :
  (exists rs, l = map Rate rs) \/ In Infinity l.
Proof.
  induction l as [|[r|] l IH].
  - left. exists []. reflexivity.
  - destruct IH as [[rs ->]|H].
    + left. exists (r :: rs). reflexivity.
    + right. right. exact H.
  - right. left. reflexivity.
Qed.

Lemma fold_add_Infinity (l : list rate) :
  fold_left rate_add l Infinity = Infinity.
Proof. induction l as [|x l IH]; [reflexivity|exact IH]. Qed.

Lemma fold_max_Infinity (l : list rate) :
  fold_left max2 l Infinity = Infinity.
Proof. induction l as [|x l IH]; [reflexivity|exact IH]. Qed.

Lemma fold_add_In_Infinity (l : list rate) (a : rate) :
  In Infinity l -> fold_left rate_add l a = Infinity.
Proof.
  revert a. induction l as [|x l IH]; intros a H; [destruct H|].
  destruct H as [->|H]; cbn.
  - destruct a; apply fold_add_Infinity.
  - apply IH, H.
Qed.

Lemma fold_max_In_Infinity (l : list rate) (a : rate) :
  In Infinity l -> fold_left max2 l a = Infinity.
Proof.
  revert a. induction l as [|x l IH]; intros a H; [destruct H|].
  destruct H as [->|H]; cbn.
  - destruct a; apply fold_max_Infinity.
  - apply IH, H.
Qed.

Lemma fold_add_reals (rs : list R) (a : R) :
  fold_left rate_add (map Rate rs) (Rate a) = Rate (fold_left Rplus rs a).
Proof.
  revert a. induction rs as [|r rs IH]; intros a; [reflexivity|].
  cbn. apply IH.
Qed.

Lemma fold_min_reals (rs : list R) (a : R) :
  fold_left min2 (map Rate rs) (Rate a) = Rate (fold_left Rmin rs a).
Proof.
  revert a. induction rs as [|r rs IH]; intros a; [reflexivity|].
  cbn. apply IH.
Qed.

Lemma fold_max_reals (rs : list R) (a : R) :
  fold_left max2 (map Rate rs) (Rate a) = Rate (fold_left Rmax rs a).
Proof.
  revert a. induction rs as [|r rs IH]; intros a; [reflexivity|].
  cbn. apply IH.
Qed.

Lemma fold_Rmin_le (rs : list R) (a : R) :
  (fold_left Rmin rs a <= a)%R
  /\ Forall (fun x => (fold_left Rmin rs a <= x)%R) rs.
Proof.
  revert a. induction rs as [|r rs IH]; intros a.
  - split; [cbn; lra|constructor].
  - cbn. destruct (IH (Rmin a r)) as [H1 H2].
    pose proof (Rmin_l a r). pose proof (Rmin_r a r).
    split; [lra|]. constructor; [lra|exact H2].
Qed.

Lemma fold_Rmax_ge (rs : list R) (a : R) :
  (a <= fold_left Rmax rs a)%R
  /\ Forall (fun x => (x <= fold_left Rmax rs a)%R) rs.
Proof.
  revert a. induction rs as [|r rs IH]; intros a.
  - split; [cbn; lra|constructor].
  - cbn. destruct (IH (Rmax a r)) as [H1 H2].
    pose proof (Rmax_l a r). pose proof (Rmax_r a r).
    split; [lra|]. constructor; [lra|exact H2].
Qed.

Lemma fold_Rplus_ge (c : R) (rs : list R) (a : R) :
  Forall (fun x => (c <= x)%R) rs ->
  (a + c * INR (length rs) <= fold_left Rplus rs a)%R.
Proof.
  revert a. induction rs as [|r rs IH]; intros a H.
  - cbn. lra.
  - inversion H as [|? ? Hr Hrs]; subst.
    change (fold_left Rplus (r :: rs) a) with (fold_left Rplus rs (a + r)%R).
    specialize (IH (a + r)%R Hrs).
    change (length (r :: rs)) with (S (length rs)). rewrite S_INR. nra.
Qed.

Lemma fold_Rplus_le (c : R) (rs : list R) (a : R) :
  Forall (fun x => (x <= c)%R) rs ->
  (fold_left Rplus rs a <= a + c * INR (length rs))%R.
Proof.
  revert a. induction rs as [|r rs IH]; intros a H.
  - cbn. lra.
  - inversion H as [|? ? Hr Hrs]; subst.
    change (fold_left Rplus (r :: rs) a) with (fold_left Rplus rs (a + r)%R).
    specialize (IH (a + r)%R Hrs).
    change (length (r :: rs)) with (S (length rs)). rewrite S_INR. nra.
Qed.

Lemma Math_round_mono (a b : rate) :
  rate_le a b -> rate_le (Math_round a) (Math_round b).
Proof.
  destruct a as [x|], b as [y|]; cbn; auto.
  intros H. apply IZR_le, Zfloor_le. lra.
Qed.

Lemma mean_between (r : R) (rs : list R) :
  let n := length (r :: rs) in
  (fold_left Rmin rs r <= fold_left Rplus (r :: rs) 0 / INR n)%R
  /\ (fold_left Rplus (r :: rs) 0 / INR n <= fold_left Rmax rs r)%R.
Proof.
  intros n.
  assert (Hn : (0 < INR n)%R) by (apply lt_0_INR; unfold n; cbn; lia).
  destruct (fold_Rmin_le rs r) as [Hm1 Hm2].
  destruct (fold_Rmax_ge rs r) as [HM1 HM2].
  assert (Hlo := fold_Rplus_ge (fold_left Rmin rs r) (r :: rs) 0
                   ltac:(constructor; assumption)).
  assert (Hhi := fold_Rplus_le (fold_left Rmax rs r) (r :: rs) 0
                   ltac:(constructor; assumption)).
  fold n in Hlo, Hhi.
  set (s := fold_left Rplus (r :: rs) 0%R) in *.
  split.
  - apply (Rmult_le_reg_r (INR n)); [exact Hn|].
    unfold Rdiv. rewrite Rmult_assoc, Rinv_l by lra. lra.
  - apply (Rmult_le_reg_r (INR n)); [exact Hn|].
    unfold Rdiv. rewrite Rmult_assoc, Rinv_l by lra. lra.
Qed.

Lemma history_min_mean_max (value : rate) (values : list rate) :
  let h := value :: values in
  rate_le (Math_min h) (rate_div (reduce_sum h) (length h))
  /\ rate_le (rate_div (reduce_sum h) (length h)) (Math_max value values).
Proof.
  intros h. destruct (rates_real_or_infinite h) as [[rs E]|Hin].
  - destruct rs as [|r rs]; [discriminate|].
    unfold h in E. cbn [map] in E. injection E as -> ->.
    unfold h, Math_min, Math_max, reduce_sum.
    change (fold_left min2 (Rate r :: map Rate rs) Infinity)
      with (fold_left min2 (map Rate rs) (Rate r)).
    change (Rate r :: map Rate rs) with (map Rate (r :: rs)).
    rewrite fold_min_reals, fold_max_reals, fold_add_reals.
    rewrite length_map. cbn [rate_div rate_le].
    apply mean_between.
  - unfold reduce_sum, Math_max.
    rewrite (fold_add_In_Infinity h (Rate 0) Hin). cbn [rate_div].
    assert (Hmax : fold_left max2 values value = Infinity).
    { destruct Hin as [E|Hin]; [rewrite E; apply fold_max_Infinity|].
      apply fold_max_In_Infinity, Hin. }
    rewrite Hmax. split; [destruct (Math_min h)|]; exact I.
Qed.

Lemma updateStats_ordered (m : monitor) :
  fpsHistory m <> [] ->
  let s := stats (updateStats m) in
  rate_le (Stats.minFps s) (Stats.avgFps s)
  /\ rate_le (Stats.avgFps s) (Stats.maxFps s).
Proof.
  intros H. unfold updateStats.
  destruct (fpsHistory m) as [|value values] eqn:E; [congruence|].
  cbn -[Math_min reduce_sum rate_div length].
  destruct (history_min_mean_max value values) as [H1 H2].
  split; apply Math_round_mono; assumption.
Qed.

Lemma pushed_nonempty (t : R) (m : monitor) :
  (0 < maxHistoryLength m)%nat -> pushed t m <> [].
Proof.
  intros H. unfold pushed. cbv zeta.
  destruct (Nat.ltb_spec (maxHistoryLength m)
              (length (fpsHistory m ++ [rate_of_delta (t - lastTime m)])))
    as [Hlt|Hge].
  - destruct (fpsHistory m ++ [rate_of_delta (t - lastTime m)])
      as [|x [|y l]]; cbn in *; try lia. discriminate.
  - destruct (fpsHistory m); discriminate.
Qed.

(** The monitor as [update] hands it to [updateStats]. *)
Lemma update_stats (t : R) (m : monitor) :
  isRunning m = true ->
  (S (frameCount m) mod 10 =? 0)%nat = true ->
  exists m1,
    fpsHistory m1 = pushed t m
    /\ fps m1 = rate_of_delta (t - lastTime m)
    /\ deltaTime m1 = (t - lastTime m)%R
    /\ stats (update t m) = stats (updateStats m1).
Proof.
  intros Hrun H10.
  exists (set_frameCount (S (frameCount m))
            (set_fpsHistory (pushed t m)
               (set_fps (rate_of_delta (t - lastTime m))
                  (set_lastTime t (set_deltaTime (t - lastTime m) m))))).
  repeat split.
  unfold update, pushed. rewrite Hrun. cbn [negb].
  cbn [set_deltaTime set_lastTime set_fps set_fpsHistory set_frameCount
       frameCount fpsHistory maxHistoryLength deltaTime lastTime fps].
  match goal with |- context [(?a <? ?b)%nat] => destruct (a <? b)%nat end.
  all: cbn [set_deltaTime set_lastTime set_fps set_fpsHistory set_frameCount
       frameCount fpsHistory maxHistoryLength deltaTime lastTime fps].
  all: rewrite H10.
  all: unfold requestAnimationFrame, notifyCallbacks.
  all: cbn [stats set_animationId set_nextRequestId set_frameRequests
            set_calls].
  all: reflexivity.
Qed.

(** X28: on every tenth frame of a running monitor with room for history,
    the statistics [update] publishes are ordered: the rounded minimum is
    at most the rounded average, which is at most the rounded maximum
    ([Infinity], the rate of two coinciding clock readings, being the
    largest). *)
Theorem published_stats_are_ordered (t : R) (m : monitor) :
  isRunning m = true ->
  (0 < maxHistoryLength m)%nat ->
  (S (frameCount m) mod 10 = 0)%nat ->
  let s := getStats (update t m) in
  rate_le (Stats.minFps s) (Stats.avgFps s)
  /\ rate_le (Stats.avgFps s) (Stats.maxFps s).
Proof.
  intros Hrun Hmax H10 s. unfold s, getStats.
  destruct (update_stats t m Hrun) as (m1 & Hh & _ & _ & ->).
  { apply Nat.eqb_eq, H10. }
  apply updateStats_ordered. rewrite Hh. apply pushed_nonempty, Hmax.
Qed.

Lemma published_stats_are_ordered_witness :
  let m := set_frameCount 9 (set_isRunning true (new 1)) in
  let s := getStats (update 20 m) in
  rate_le (Stats.minFps s) (Stats.avgFps s)
  /\ rate_le (Stats.avgFps s) (Stats.maxFps s).
Proof.
  apply (published_stats_are_ordered 20
           (set_frameCount 9 (set_isRunning true (new 1)))).
  - reflexivity.
  - cbn. lia.
  - reflexivity.
Defined.

(** *** Notifications *)

Lemma tenth_frame_quotient (a : nat) :
  (S a / 10 = a / 10 + (if (S a mod 10 =? 0) then 1 else 0))%nat.
Proof.
  pose proof (Nat.div_mod_eq a 10) as Ha.
  pose proof (Nat.div_mod_eq (S a) 10) as Hs.
  pose proof (Nat.mod_upper_bound a 10 ltac:(lia)) as Hb.
  pose proof (Nat.mod_upper_bound (S a) 10 ltac:(lia)) as Hc.
  destruct (Nat.eqb_spec (S a mod 10) 0) as [E|E]; lia.
Qed.

Lemma calls_updates (readings : list R) (m : monitor) :
  isRunning m = true ->
  map fst (calls (updates readings m))
  = map fst (calls m)
    ++ concat (replicate ((frameCount m + length readings) / 10
                          - frameCount m / 10)
                 (callbacks m)).
Proof.
  revert m. induction readings as [|t rs IH]; intros m Hrun.
  - cbn [updates fold_left length]. rewrite Nat.add_0_r, Nat.sub_diag.
    cbn. rewrite app_nil_r. reflexivity.
  - cbn [updates fold_left].
    change (fold_left _ rs ?x) with (updates rs x).
    rewrite IH by (rewrite update_isRunning; exact Hrun).
    rewrite update_calls, update_callbacks, update_frameCount by exact Hrun.
    rewrite <- app_assoc. f_equal.
    pose proof (tenth_frame_quotient (frameCount m)) as Hq.
    assert (Hmono : (S (frameCount m) / 10
                     <= (S (frameCount m) + length rs) / 10)%nat)
      by (apply Nat.Div0.div_le_mono; lia).
    cbn [length].
    replace (frameCount m + S (length rs))%nat
      with (S (frameCount m) + length rs)%nat by lia.
    destruct (S (frameCount m) mod 10 =? 0)%nat.
    + replace ((S (frameCount m) + length rs) / 10 - frameCount m / 10)%nat
        with (S ((S (frameCount m) + length rs) / 10
                 - S (frameCount m) / 10)) by lia.
      reflexivity.
    + replace (S (frameCount m) / 10)%nat with (frameCount m / 10)%nat by lia.
      reflexivity.
Qed.

(** X29: while a monitor runs, its callbacks are called on every tenth
    frame and on no other: after any number of calls of [update], the
    calls made are those made before followed, for each frame count
    divisible by ten that was reached, by one call of every registered
    callback, in the order of registration. *)
Theorem callbacks_called_every_tenth_frame (readings : list R)
    (m : monitor) :
  isRunning m = true ->
  frameCount (updates readings m) = (frameCount m + length readings)%nat
  /\ map fst (calls (updates readings m))
     = map fst (calls m)
       ++ concat (replicate ((frameCount m + length readings) / 10
                             - frameCount m / 10)
                    (callbacks m)).
Proof.
  intros Hrun. split.
  - apply updates_frameCount, Hrun.
  - apply calls_updates, Hrun.
Qed.

Lemma callbacks_called_every_tenth_frame_witness :
  let m := set_callbacks [7; 8]%nat
             (set_frameCount 8 (set_isRunning true (new 1))) in
  frameCount (updates [10; 20; 30]%R m) = (8 + 3)%nat
  /\ map fst (calls (updates [10; 20; 30]%R m))
     = [] ++ concat (replicate ((8 + 3) / 10 - 8 / 10) [7; 8]%nat).
Proof.
  apply (callbacks_called_every_tenth_frame [10; 20; 30]%R
           (set_callbacks [7; 8]%nat
              (set_frameCount 8 (set_isRunning true (new 1))))).
  reflexivity.
Defined.

(** *** Coinciding clock readings *)

Lemma rate_of_delta_zero (t : R) : rate_of_delta (t - t) = Infinity.
Proof.
  unfold rate_of_delta. destruct (Req_dec_T (t - t) 0) as [_|E];
    [reflexivity|exfalso; apply E; lra].
Qed.

Lemma updateStats_infinite (m : monitor) :
  In Infinity (fpsHistory m) ->
  Stats.avgFps (stats (updateStats m)) = Infinity
  /\ Stats.maxFps (stats (updateStats m)) = Infinity.
Proof.
  intros H. unfold updateStats.
  destruct (fpsHistory m) as [|value values] eqn:E; [destruct H|].
  cbn -[reduce_sum rate_div length]. unfold reduce_sum, Math_max.
  rewrite (fold_add_In_Infinity _ _ H).
  replace (fold_left max2 values value) with Infinity; [auto|].
  symmetry. destruct H as [->|H]; [apply fold_max_Infinity|].
  apply fold_max_In_Infinity, H.
Qed.

Lemma lastn_keeps (n : nat) (h rest : list rate) (x : rate) :
  (length rest < n)%nat -> In x (lastn n (h ++ x :: rest)).
Proof.
  intros H. unfold lastn. rewrite drop_app_le.
  - apply in_or_app. right. left. reflexivity.
  - rewrite length_app. cbn. lia.
Qed.

(** X30: when the two clock readings of [start] coincide, the first rate
    is [Infinity]; it stays in the history for the next
    [maxHistoryLength - 1] frames, and on every tenth frame among them the
    published average and maximum are [Infinity]. *)
Theorem coinciding_clock_reads_give_infinite_average (t0 : R)
    (callback : option nat) (readings : list R) (m0 : monitor) :
  isRunning m0 = false ->
  (length (fpsHistory m0) <= maxHistoryLength m0)%nat ->
  (length readings < maxHistoryLength m0)%nat ->
  ((frameCount m0 + S (length readings)) mod 10 = 0)%nat ->
  let s := getStats (updates readings (start t0 t0 callback m0)) in
  Stats.avgFps s = Infinity /\ Stats.maxFps s = Infinity.
Proof.
  intros Hstop Hlen Hfew H10 s. unfold s, getStats, start. rewrite Hstop.
  set (M := match callback with
            | Some c => set_callbacks (callbacks (set_lastTime t0
                          (set_isRunning true m0)) ++ [c])
                          (set_lastTime t0 (set_isRunning true m0))
            | None => set_lastTime t0 (set_isRunning true m0)
            end).
  assert (HM : isRunning M = true /\ lastTime M = t0
               /\ fpsHistory M = fpsHistory m0
               /\ maxHistoryLength M = maxHistoryLength m0
               /\ frameCount M = frameCount m0)
    by (unfold M; destruct callback; cbn; auto).
  destruct HM as (Hrun & Ht & Hh & Hmax & Hfc).
  change (updates readings (update t0 M)) with (updates (t0 :: readings) M).
  assert (Hhist : fpsHistory (updates (t0 :: readings) M)
                  = lastn (maxHistoryLength m0)
                      (fpsHistory m0
                       ++ Infinity :: samples t0 readings)).
  { rewrite fpsHistory_updates by (rewrite ?Hh, ?Hmax; assumption).
    rewrite Hh, Hmax, Ht. cbn [samples]. rewrite rate_of_delta_zero.
    reflexivity. }
  destruct (exists_last (l := t0 :: readings) ltac:(discriminate))
    as (rs & t & E).
  assert (Hn : length rs = length readings).
  { apply (f_equal (@length R)) in E. rewrite length_app in E.
    cbn in E. lia. }
  rewrite E in *. rewrite updates_app in *.
  change (updates [t] ?x) with (update t x) in *.
  set (m1 := updates rs M) in *.
  assert (Hrun1 : isRunning m1 = true)
    by (unfold m1; rewrite updates_isRunning; exact Hrun).
  destruct (update_stats t m1 Hrun1) as (m2 & Hh2 & _ & _ & ->).
  { apply Nat.eqb_eq. unfold m1. rewrite updates_frameCount by exact Hrun.
    rewrite Hfc, Hn.
    replace (S (frameCount m0 + length readings))
      with (frameCount m0 + S (length readings))%nat by lia.
    exact H10. }
  apply updateStats_infinite.
  rewrite Hh2, <- (update_fpsHistory t m1 Hrun1), Hhist.
  apply lastn_keeps. rewrite samples_length. exact Hfew.
Qed.

Lemma coinciding_clock_reads_give_infinite_average_witness :
  let s := getStats
             (updates [10; 20; 30; 40; 50; 60; 70; 80; 90]%R
                (start 5 5 None (new 1))) in
  Stats.avgFps s = Infinity /\ Stats.maxFps s = Infinity.
Proof.
  apply (coinciding_clock_reads_give_infinite_average 5 None
           [10; 20; 30; 40; 50; 60; 70; 80; 90]%R (new 1)).
  - reflexivity.
  - cbn. lia.
  - cbn. lia.
  - reflexivity.
Defined.

End PerformanceMonitorProperties.
